(** * Loan-approval rule engine: a shallow embedding and its properties

    The development follows the Python sources module by module:
    - [models/rule.py]            conditions and [Rule.evaluate]
    - [models/applicant.py]       the fact record
    - [utils/trace_logger.py]     the bounded reasoning journal
    - [engine/rule_base.py]       the ordered rule collection and the 8 built-in rules
    - [engine/conflict_resolver.py], [engine/forward_chaining.py],
      [engine/backward_chaining.py], [engine/rule_engine.py]

    Python objects are records; mutation is explicit state passing; a raised
    exception is a [Raise] result.  Dictionaries whose iteration order matters
    are association lists, the two constant tables are [gmap]s, and the memo
    sets of the backward chainer are [gset]s. *)

From Stdlib Require Import ZArith QArith String Ascii List Bool Lia OrderedTypeEx.
From stdpp Require Import base option list gmap strings.

Local Close Scope Q_scope.
Local Open Scope Z_scope.

(** ** Python values and exceptions *)

Inductive PyExc : Type :=
  | TypeError
  | ValueError
  | IndexError
  | KeyError
  | CallableError.   (* whatever [Exception] a user-supplied callable condition raises *)

Inductive PyResult (A : Type) : Type :=
  | Ok (a : A)
  | Raise (e : PyExc).
Arguments Ok {A} a.
Arguments Raise {A} e.

(** The value of a call made where it cannot raise; [otherwise] is what the
    expression denotes in the case that does not arise.  It is used for
    [log_decision] inside the inference runs, which begin with [start]; the
    lemmas [fc_infer_decision_logged] and [bc_infer_decision_logged] show
    that the call returns there. *)
Definition returned {A : Type} (r : PyResult A) (otherwise : A) : A :=
  match r with
  | Ok x => x
  | Raise _ => otherwise
  end.

(** Scalars stored in fact records and used as operands.  A finite float is
    represented by its exact rational value (Python compares [int] and
    [float] exactly); NaN and the infinities are outside the model.  A
    Python [str] is represented by its UTF-8 encoding: equality is equality
    of the encodings, byte-wise lexicographic order on UTF-8 text coincides
    with Python's code-point order, and indexing goes by code point (see
    [code_points]). *)
Inductive pyval : Type :=
  | PyNone
  | PyBool (b : bool)
  | PyInt (n : Z)
  | PyFloat (q : Q)
  | PyStr (s : string).

(** What [getattr] can hand back: a scalar, or some other object (the
    [reasoning_trace] list, a bound method, the instance [__dict__], the
    class) that is equal to no operand and supports no ordering. *)
Inductive attrval : Type :=
  | Val (v : pyval)
  | Obj.

(** The third component of a condition triple: a scalar, or the 2-tuple
    [(lo, hi)] used by [in_range]. *)
Inductive operand : Type :=
  | Scalar (v : pyval)
  | Pair (lo hi : pyval).

(** [bool] is a subclass of [int]; all three numeric types compare by value. *)
Definition num_of (v : pyval) : option Q :=
  match v with
  | PyBool b => Some (inject_Z (if b then 1 else 0))
  | PyInt n => Some (inject_Z n)
  | PyFloat q => Some q
  | _ => None
  end.

Definition Qlt_bool (a b : Q) : bool := negb (Qle_bool b a).

(** [x == y] never raises. *)
Definition py_eq (x y : pyval) : bool :=
  match num_of x, num_of y with
  | Some a, Some b => Qeq_bool a b
  | _, _ =>
      match x, y with
      | PyStr s, PyStr t => String.eqb s t
      | PyNone, PyNone => true
      | _, _ => false
      end
  end.

(** [x < y] and [x <= y]: defined between numbers and between strings,
    [TypeError] for every other combination. *)
Definition py_lt (x y : pyval) : PyResult bool :=
  match num_of x, num_of y with
  | Some a, Some b => Ok (Qlt_bool a b)
  | _, _ =>
      match x, y with
      | PyStr s, PyStr t => Ok (String.ltb s t)
      | _, _ => Raise TypeError
      end
  end.

Definition py_le (x y : pyval) : PyResult bool :=
  match num_of x, num_of y with
  | Some a, Some b => Ok (Qle_bool a b)
  | _, _ =>
      match x, y with
      | PyStr s, PyStr t => Ok (String.leb s t)
      | _, _ => Raise TypeError
      end
  end.

Definition py_gt (x y : pyval) : PyResult bool := py_lt y x.
Definition py_ge (x y : pyval) : PyResult bool := py_le y x.

(** Comparisons between an attribute value and a condition operand. *)
Definition attr_eq (x : attrval) (y : operand) : bool :=
  match x, y with
  | Val v, Scalar w => py_eq v w
  | _, _ => false
  end.

Definition attr_ord (cmp : pyval -> pyval -> PyResult bool)
    (x : attrval) (y : operand) : PyResult bool :=
  match x, y with
  | Val v, Scalar w => cmp v w
  | _, _ => Raise TypeError
  end.

(** In UTF-8 a byte of the form [10xxxxxx] continues the code point begun
    by the nearest byte before it that is not of this form. *)
Definition is_continuation (c : ascii) : bool :=
  match c with
  | Ascii _ _ _ _ _ _ b6 b7 => b7 && negb b6
  end.

(** The continuation bytes at the head of a text, and the code points that
    follow them, each as its own encoding. *)
Fixpoint split_code_points (s : string) : string * list string :=
  match s with
  | EmptyString => (EmptyString, [])
  | String c rest =>
      let '(continuation, points) := split_code_points rest in
      if is_continuation c then (String c continuation, points)
      else (EmptyString, String c continuation :: points)
  end.

(** The code points of a [str], in order. *)
Definition code_points (s : string) : list string := snd (split_code_points s).

(** [value[i]] for [i] in {0, 1}: tuple indexing, string indexing (the
    [i]-th code point, as a one-character [str]), or a [TypeError] on a
    value that is not subscriptable. *)
Definition subscript (value : operand) (i : nat) : PyResult pyval :=
  match value with
  | Pair lo hi => match i with O => Ok lo | _ => Ok hi end
  | Scalar (PyStr s) =>
      match nth_error (code_points s) i with
      | Some c => Ok (PyStr c)
      | None => Raise IndexError
      end
  | Scalar _ => Raise TypeError
  end.

(** ** utils/trace_logger.py *)

(** A trace entry without its wall-clock timestamp. *)
Record TraceEntry : Type := mkEntry {
  level : string;
  message : string;
  entry_rule_id : option string
}.

(** [started] tells whether [start_time] holds an instant rather than
    [None].  The instants themselves are not modelled, and neither is
    [end_time], which is written but never read. *)
Record TraceLogger : Type := mkLogger {
  max_depth : Z;
  trace : list TraceEntry;
  started : bool
}.

Definition new_logger : TraceLogger := mkLogger 50 [] false.

Definition log (lvl msg : string) (rid : option string) (tl : TraceLogger)
    : TraceLogger :=
  if Z.of_nat (length (trace tl)) <? max_depth tl
  then mkLogger (max_depth tl) (trace tl ++ [mkEntry lvl msg rid]) (started tl)
  else tl.

Definition start (chaining_type applicant_id : string) (tl : TraceLogger)
    : TraceLogger :=
  log "SYSTEM" ("Starting " +:+ chaining_type +:+ " for applicant " +:+ applicant_id)
      None (mkLogger (max_depth tl) [] true).

Definition log_rule_evaluation (rid : string) (matched : bool) (description : string)
    (tl : TraceLogger) : TraceLogger :=
  let status := if matched then "MATCHED" else "NOT MATCHED" in
  log "RULE_EVAL" (rid +:+ ": " +:+ description +:+ " - " +:+ status) (Some rid) tl.

Definition log_rule_fired (rid consequent : string) (tl : TraceLogger) : TraceLogger :=
  log "RULE_FIRE" (rid +:+ " fired → " +:+ consequent) (Some rid) tl.

Definition log_conflict_ids (rule_ids : list string) (winner_id : string)
    (tl : TraceLogger) : TraceLogger :=
  log "CONFLICT"
      ("Conflict between " +:+ String.concat ", " rule_ids +:+ " → Winner: " +:+ winner_id)
      None tl.

(** [log_decision] subtracts [start_time] from the current instant before
    it logs: on a logger that was never started, or was cleared since, the
    subtraction raises [TypeError] and nothing is logged.  The elapsed time
    printed after the decision is not part of the modelled message. *)
Definition log_decision (decision : string) (tl : TraceLogger) : PyResult TraceLogger :=
  if started tl
  then Ok (log "DECISION" ("Final Decision: " +:+ decision) None tl)
  else Raise TypeError.

Record Summary : Type := mkSummary {
  total_entries : nat;
  rules_fired_count : nat;
  conflicts_resolved : nat;
  summary_trace : list TraceEntry
}.

Definition get_summary (tl : TraceLogger) : Summary :=
  let rule_fires := filter (fun e => level e = "RULE_FIRE") (trace tl) in
  let conflicts := filter (fun e => level e = "CONFLICT") (trace tl) in
  mkSummary (length (trace tl)) (length rule_fires) (length conflicts) (trace tl).

(** ** models/applicant.py *)

(** [decision_writes] is a history variable: it records, oldest first, every
    value that [set_decision] assigned to [decision]. *)
Record Applicant : Type := mkApplicant {
  applicant_id : string;
  income : pyval;
  credit_score : pyval;
  employment_status : pyval;
  employment_duration : pyval;
  age : pyval;
  dependents : pyval;
  existing_debt : pyval;
  decision : option string;
  reasoning_trace : list TraceEntry;
  decision_writes : list string
}.

Definition new_applicant (id : string)
    (inc cs es ed ag dep debt : pyval) : Applicant :=
  mkApplicant id inc cs es ed ag dep debt None [] [].

Definition set_decision (d : string) (tr : option (list TraceEntry)) (a : Applicant)
    : Applicant :=
  mkApplicant (applicant_id a) (income a) (credit_score a) (employment_status a)
    (employment_duration a) (age a) (dependents a) (existing_debt a)
    (Some d)
    (match tr with
     | Some (e :: t) => e :: t
     | _ => reasoning_trace a
     end)
    (decision_writes a ++ [d]).

(** Names that an instance finds on its class or on [object] and whose
    value is an object other than a scalar: the methods the class defines,
    and the attributes and methods every object has (CPython 3.11). *)
Definition class_names : list string :=
  ["set_decision"; "to_dict"; "from_dict"; "__init__"; "__str__"; "__repr__";
   "__class__"; "__delattr__"; "__dict__"; "__dir__"; "__eq__"; "__format__";
   "__ge__"; "__getattribute__"; "__getstate__"; "__gt__"; "__hash__";
   "__init_subclass__"; "__le__"; "__lt__"; "__ne__"; "__new__"; "__reduce__";
   "__reduce_ex__"; "__setattr__"; "__sizeof__"; "__subclasshook__"].

(** What the lookup finds when the name is not an instance field: the
    module name and the docstring of the class, some object for the names
    above, and otherwise the default [None] ([__weakref__] is [None] too). *)
Definition class_attribute (attr : string) : attrval :=
  if String.eqb attr "__module__" then Val (PyStr "models.applicant")
  else if String.eqb attr "__doc__"
       then Val (PyStr "Represents a loan applicant with their financial and personal details")
  else if existsb (String.eqb attr) class_names then Obj
  else Val PyNone.

(** [getattr(applicant, attr, None)]. *)
Definition getattr (a : Applicant) (attr : string) : attrval :=
  if String.eqb attr "applicant_id" then Val (PyStr (applicant_id a))
  else if String.eqb attr "income" then Val (income a)
  else if String.eqb attr "credit_score" then Val (credit_score a)
  else if String.eqb attr "employment_status" then Val (employment_status a)
  else if String.eqb attr "employment_duration" then Val (employment_duration a)
  else if String.eqb attr "age" then Val (age a)
  else if String.eqb attr "dependents" then Val (dependents a)
  else if String.eqb attr "existing_debt" then Val (existing_debt a)
  else if String.eqb attr "decision"
       then Val (match decision a with Some d => PyStr d | None => PyNone end)
  else if String.eqb attr "reasoning_trace" then Obj
  else class_attribute attr.

(** ** models/rule.py *)

Inductive Condition : Type :=
  | Callable (f : Applicant -> PyResult bool)  (* truth value of [condition(applicant)];
                                                   a callable that does not return, or
                                                   raises outside [Exception], is not
                                                   modelled *)
  | Triple (attr operator : string) (value : operand)
  | Malformed.                                  (* not callable, not a 3-sequence *)

Record Rule : Type := mkRule {
  rule_id : string;
  antecedents : list Condition;
  consequent : string;
  priority : string;
  specificity : Z;
  description : string;
  fired_count : Z
}.

Definition _evaluate_condition (a : Applicant) (attr operator : string)
    (value : operand) : PyResult bool :=
  let applicant_value := getattr a attr in
  match applicant_value with
  | Val PyNone => Ok false
  | _ =>
    if String.eqb operator ">" then attr_ord py_gt applicant_value value
    else if String.eqb operator ">=" then attr_ord py_ge applicant_value value
    else if String.eqb operator "<" then attr_ord py_lt applicant_value value
    else if String.eqb operator "<=" then attr_ord py_le applicant_value value
    else if String.eqb operator "==" then Ok (attr_eq applicant_value value)
    else if String.eqb operator "!=" then Ok (negb (attr_eq applicant_value value))
    else if String.eqb operator "in_range" then
      match subscript value 0 with
      | Raise e => Raise e
      | Ok lo =>
        match attr_ord py_ge applicant_value (Scalar lo) with
        | Raise e => Raise e
        | Ok false => Ok false
        | Ok true =>
          match subscript value 1 with
          | Raise e => Raise e
          | Ok hi => attr_ord py_le applicant_value (Scalar hi)
          end
        end
      end
    else Ok false
  end.

(** The test made on one antecedent inside the loop of [evaluate]. *)
Definition condition_check (a : Applicant) (c : Condition) : PyResult bool :=
  match c with
  | Callable f => f a
  | Triple attr operator value => _evaluate_condition a attr operator value
  | Malformed => Raise ValueError
  end.

(** The [for] loop of [evaluate]; the second component counts the
    antecedents that were examined before the loop was left. *)
Fixpoint evaluate_loop (a : Applicant) (conds : list Condition)
    : PyResult bool * nat :=
  match conds with
  | [] => (Ok true, 0%nat)
  | c :: rest =>
      match condition_check a c with
      | Ok true => let '(r, n) := evaluate_loop a rest in (r, S n)
      | Ok false => (Ok false, 1%nat)
      | Raise e => (Raise e, 1%nat)
      end
  end.

(** [try: ... except Exception: return False].  The diagnostic line printed
    in the handler is not modelled. *)
Definition evaluate (r : Rule) (a : Applicant) : bool :=
  match fst (evaluate_loop a (antecedents r)) with
  | Ok b => b
  | Raise _ => false
  end.


Definition fire (r : Rule) : string * Rule :=
  (consequent r,
   mkRule (rule_id r) (antecedents r) (consequent r) (priority r)
          (specificity r) (description r) (fired_count r + 1)).

(** ** engine/rule_base.py *)

Record RuleBase : Type := mkRuleBase { rules : list Rule }.

Definition R1 : Rule :=
  mkRule "R1"
    [Triple "income" ">" (Scalar (PyInt 60000));
     Triple "credit_score" ">" (Scalar (PyInt 750))]
    "Approve Loan" "High" 2
    "High income (>60K) AND excellent credit (>750)" 0.

Definition R2 : Rule :=
  mkRule "R2"
    [Triple "income" "in_range" (Pair (PyInt 40000) (PyInt 60000));
     Triple "credit_score" ">" (Scalar (PyInt 700));
     Triple "existing_debt" "==" (Scalar (PyStr "None"))]
    "Approve with Conditions" "Medium" 3
    "Moderate income (40K-60K) AND good credit (>700) AND no debt" 0.

Definition R3 : Rule :=
  mkRule "R3"
    [Triple "credit_score" "<=" (Scalar (PyInt 650));
     Triple "existing_debt" "==" (Scalar (PyStr "High"))]
    "Reject Loan" "High" 2
    "Poor credit (≤650) AND high existing debt" 0.

Definition R4 : Rule :=
  mkRule "R4"
    [Triple "employment_status" "==" (Scalar (PyStr "Unemployed"))]
    "Reject Loan" "High" 1
    "Unemployed status" 0.

Definition R5 : Rule :=
  mkRule "R5"
    [Triple "income" "in_range" (Pair (PyInt 30000) (PyInt 50000));
     Triple "credit_score" "in_range" (Pair (PyInt 600) (PyInt 700))]
    "Manual Review" "Low" 2
    "Moderate income (30K-50K) AND fair credit (600-700)" 0.

Definition R6 : Rule :=
  mkRule "R6"
    [Triple "age" "<" (Scalar (PyInt 21))]
    "Reject Loan" "High" 1
    "Applicant under 21 years old" 0.

Definition R7 : Rule :=
  mkRule "R7"
    [Triple "dependents" ">" (Scalar (PyInt 3));
     Triple "income" "<" (Scalar (PyInt 45000))]
    "Manual Review" "Low" 2
    "Many dependents (>3) AND low income (<45K)" 0.

Definition R8 : Rule :=
  mkRule "R8"
    [Triple "employment_duration" "<" (Scalar (PyInt 1));
     Triple "credit_score" "<" (Scalar (PyInt 700))]
    "Manual Review" "Low" 2
    "Short employment (<1 year) AND below-good credit (<700)" 0.

Definition _initialize_rules : list Rule := [R1; R2; R3; R4; R5; R6; R7; R8].

Definition new_rule_base : RuleBase := mkRuleBase _initialize_rules.

Definition get_all_rules (rb : RuleBase) : list Rule := rules rb.

Definition get_rule_by_id (rb : RuleBase) (rid : string) : option Rule :=
  List.find (fun rule => String.eqb (rule_id rule) rid) (rules rb).

Definition get_rules_by_consequent (rb : RuleBase) (c : string) : list Rule :=
  List.filter (fun rule => String.eqb (consequent rule) c) (rules rb).

Definition add_rule (rb : RuleBase) (rule : Rule) : RuleBase :=
  mkRuleBase (rules rb ++ [rule]).

Definition remove_rule (rb : RuleBase) (rid : string) : RuleBase :=
  mkRuleBase (List.filter (fun rule => negb (String.eqb (rule_id rule) rid)) (rules rb)).

(** ** config.py and engine/conflict_resolver.py *)

Definition CONFLICT_RESOLUTION_STRATEGY : string := "priority_specificity".

Definition PRIORITY_LEVELS : gmap string Z :=
  {[ "High" := 3; "Medium" := 2; "Low" := 1 ]}.

Record ConflictResolver : Type := mkResolver {
  strategy : string;
  priority_levels : gmap string Z
}.

(** [strategy or Config.CONFLICT_RESOLUTION_STRATEGY]: [None] and the empty
    string select the configured default. *)
Definition new_resolver (s : option string) : ConflictResolver :=
  mkResolver
    (match s with
     | Some (String c t) => String c t
     | _ => CONFLICT_RESOLUTION_STRATEGY
     end)
    PRIORITY_LEVELS.

(** [d.get(k, 0)] *)
Definition dict_get0 (d : gmap string Z) (k : string) : Z := default 0 (d !! k).

Definition Key : Type := Z * Z * string.

(** Python's lexicographic [>] on 3-tuples [(int, int, str)]. *)
Definition key_gt (x y : Key) : bool :=
  let '(a1, b1, s1) := x in
  let '(a2, b2, s2) := y in
  if negb (a1 =? a2) then a1 >? a2
  else if negb (b1 =? b2) then b1 >? b2
  else String.ltb s2 s1.

(** [max(first :: rest, key=key)]: the running maximum is replaced only by a
    strictly greater key, so the earliest maximal element is returned. *)
Definition py_max {A : Type} (key : A -> Key) (first : A) (rest : list A) : A :=
  fold_left (fun best x => if key_gt (key x) (key best) then x else best) rest first.

Definition priority_key (cr : ConflictResolver) (r : Rule) : Key :=
  (dict_get0 (priority_levels cr) (priority r), specificity r, rule_id r).

Definition specificity_key (cr : ConflictResolver) (r : Rule) : Key :=
  (specificity r, dict_get0 (priority_levels cr) (priority r), rule_id r).

(** The three strategy functions receive the candidate list as its head and
    tail: [resolve] only calls them with two or more candidates, and on the
    typed records none of the guarded exceptions can occur. *)
Definition _resolve_by_priority (cr : ConflictResolver) (first : Rule) (rest : list Rule)
    : Rule := py_max (priority_key cr) first rest.

Definition _resolve_by_specificity (cr : ConflictResolver) (first : Rule) (rest : list Rule)
    : Rule := py_max (specificity_key cr) first rest.

Definition _resolve_by_priority_specificity (cr : ConflictResolver) (first : Rule)
    (rest : list Rule) : Rule := py_max (priority_key cr) first rest.

Definition log_conflict (conflicting_rules : list Rule) (winner : Rule)
    (tl : TraceLogger) : TraceLogger :=
  log_conflict_ids (map rule_id conflicting_rules) (rule_id winner) tl.

(** [resolve(fired_rules, trace_logger)]; the logger is optional. *)
Definition resolve (cr : ConflictResolver) (fired_rules : list Rule)
    (tl : option TraceLogger) : option Rule * option TraceLogger :=
  match fired_rules with
  | [] => (None, tl)
  | [r] => (Some r, tl)
  | first :: rest =>
      let tl1 :=
        log "CONFLICT"
            ("Multiple rules fired: " +:+ String.concat ", " (map rule_id fired_rules))
            None <$> tl in
      let winner :=
        if String.eqb (strategy cr) "priority"
        then _resolve_by_priority cr first rest
        else if String.eqb (strategy cr) "specificity"
        then _resolve_by_specificity cr first rest
        else if String.eqb (strategy cr) "priority_specificity"
        then _resolve_by_priority_specificity cr first rest
        else first in
      (Some winner, log_conflict fired_rules winner <$> tl1)
  end.

(** Values taken by the local [best_score] of [resolve_by_decision]: the
    integer it is initialised with, or a 3-tuple of integers. *)
Inductive Score : Type :=
  | ScoreInt (n : Z)
  | ScoreTuple (a b c : Z).

(** Python 3 [>]: integers compare, tuples compare lexicographically, and a
    tuple against an integer raises [TypeError]. *)
Definition score_gt (x y : Score) : PyResult bool :=
  match x, y with
  | ScoreInt a, ScoreInt b => Ok (a >? b)
  | ScoreTuple a1 b1 c1, ScoreTuple a2 b2 c2 =>
      Ok (if negb (a1 =? a2) then a1 >? a2
          else if negb (b1 =? b2) then b1 >? b2
          else c1 >? c2)
  | _, _ => Raise TypeError
  end.

Definition decision_priority : gmap string Z :=
  {[ "Reject Loan" := 4; "Manual Review" := 3;
     "Approve with Conditions" := 2; "Approve Loan" := 1 ]}.

(** State of the [for] loop: [best_decision], [best_score] and the logger. *)
Definition RbdState : Type := option string * Score * option TraceLogger.

(** One iteration over an item [(decision, rules)] of the dictionary. *)
Definition resolve_by_decision_step (cr : ConflictResolver) (st : RbdState)
    (item : string * list Rule) : RbdState :=
  let '(best_decision, best_score, tl) := st in
  let '(decision, rules) := item in
  match rules with
  | [] => st                                             (* continue *)
  | _ =>
      let '(best_rule, tl') := resolve cr rules tl in
      match best_rule with
      | None => (best_decision, best_score, tl')         (* AttributeError: continue *)
      | Some br =>
          let decision_score :=
            ScoreTuple (dict_get0 decision_priority decision)
                       (dict_get0 (priority_levels cr) (priority br))
                       (specificity br) in
          match score_gt decision_score best_score with
          | Ok true => (Some decision, decision_score, tl')
          | Ok false => (best_decision, best_score, tl')
          | Raise _ => (best_decision, best_score, tl')  (* TypeError: continue *)
          end
      end
  end.

(** [rules_by_decision] is a dictionary iterated in insertion order. *)
Definition resolve_by_decision (cr : ConflictResolver)
    (rules_by_decision : list (string * list Rule)) (tl : option TraceLogger)
    : string * option TraceLogger :=
  let '(best_decision, _, tl') :=
    fold_left (resolve_by_decision_step cr) rules_by_decision
              (None, ScoreInt (-1), tl) in
  (match best_decision with
   | Some (String c t) => String c t
   | _ => "Manual Review"                                (* [None] or the empty string *)
   end,
   tl').

(** ** engine/forward_chaining.py

    The engines hold references to the rule base and the resolver owned by
    the [RuleEngine]; here both are passed to [infer] explicitly, and the
    only state an engine owns is its logger (and memo sets). *)

(** The [decisions] dictionary, in insertion order. *)
Definition Decisions : Type := list (string * list Rule).

Definition dict_contains (d : Decisions) (k : string) : bool :=
  existsb (fun kv => String.eqb (fst kv) k) d.

(** [if k not in d: d[k] = []] followed by [d[k].append(r)]. *)
Definition dict_append (d : Decisions) (k : string) (r : Rule) : Decisions :=
  if dict_contains d k
  then map (fun kv => if String.eqb (fst kv) k then (fst kv, snd kv ++ [r]) else kv) d
  else d ++ [(k, [r])].

Record FCState : Type := mkFC {
  iteration : nat;
  rules_fired : list Rule;
  decisions : Decisions;
  fc_logger : TraceLogger
}.

(** Body of [for rule in self.rule_base.get_all_rules()], acting on
    [rules_fired_this_iteration], [decisions] and the logger; [fired] is
    [rules_fired], which does not change during a pass. *)
Definition fc_rule_step (a : Applicant) (fired : list Rule)
    (st : list Rule * Decisions * TraceLogger) (rule : Rule)
    : list Rule * Decisions * TraceLogger :=
  let '(this_iteration, dec, tl) := st in
  if existsb (String.eqb (rule_id rule)) (map rule_id fired) then st
  else if evaluate rule a then
    let tl1 := log_rule_evaluation (rule_id rule) true (description rule) tl in
    let tl2 := log_rule_fired (rule_id rule) (consequent rule) tl1 in
    (this_iteration ++ [rule], dict_append dec (consequent rule) rule, tl2)
  else
    (this_iteration, dec,
     log_rule_evaluation (rule_id rule) false (description rule) tl).

(** [while iteration < max_iterations]; [remaining] is
    [max_iterations - iteration], the number of passes still allowed. *)
Fixpoint fc_while (remaining : nat) (rb : RuleBase) (a : Applicant) (st : FCState)
    : FCState :=
  match remaining with
  | O => st
  | S remaining' =>
      let '(this_iteration, dec, tl) :=
        fold_left (fc_rule_step a (rules_fired st)) (get_all_rules rb)
                  ([], decisions st, fc_logger st) in
      let st' := mkFC (S (iteration st)) (rules_fired st ++ this_iteration) dec tl in
      match this_iteration with
      | [] => st'                                        (* break *)
      | _ => fc_while remaining' rb a st'
      end
  end.

Definition max_iterations (rb : RuleBase) : nat := (length (get_all_rules rb) * 2)%nat.

(** The state in which the loop of [ForwardChaining.infer] ends.  The text
    of the initial-facts entry (a [dict] rendering) is not modelled. *)
Definition fc_run (rb : RuleBase) (tl0 : TraceLogger) (a : Applicant) : FCState :=
  let tl1 := start "Forward Chaining" (applicant_id a) tl0 in
  let tl2 := log "SYSTEM" "Initial facts: " None tl1 in
  fc_while (max_iterations rb) rb a (mkFC 0 [] [] tl2).

(** [ForwardChaining.infer]: the result pair, the engine's logger afterwards
    and the updated fact record. *)
Definition fc_infer (rb : RuleBase) (cr : ConflictResolver) (tl0 : TraceLogger)
    (a : Applicant) : (string * Summary) * TraceLogger * Applicant :=
  let st := fc_run rb tl0 a in
  let '(final_decision, tl3) :=
    match decisions st with
    | [] => ("Manual Review", fc_logger st)
    | [(d, _)] => (d, fc_logger st)
    | _ =>
        let '(d, otl) := resolve_by_decision cr (decisions st) (Some (fc_logger st)) in
        (d, default (fc_logger st) otl)
    end in
  let tl4 := returned (log_decision final_decision tl3) tl3 in
  let summary := get_summary tl4 in
  ((final_decision, summary), tl4,
   set_decision final_decision (Some (summary_trace summary)) a).

(** ** engine/backward_chaining.py *)

(** [prove_calls] is a history variable: the [depth] argument of every
    [_prove_goal] activation of the current run, oldest first. *)
Record BackwardChaining : Type := mkBC {
  bc_logger : TraceLogger;
  proven_goals : gset string;
  failed_goals : gset string;
  prove_calls : list Z
}.

Definition new_backward_chaining : BackwardChaining := mkBC new_logger ∅ ∅ [].

Definition bc_log (lvl msg : string) (bc : BackwardChaining) : BackwardChaining :=
  mkBC (log lvl msg None (bc_logger bc)) (proven_goals bc) (failed_goals bc)
       (prove_calls bc).

(** ["  " * depth] *)
Definition indent_of (depth : Z) : string :=
  String.concat "" (repeat "  " (Z.to_nat depth)).

(** Body of [for rule in rules_for_goal]. *)
Definition bc_rule_step (a : Applicant) (goal indent : string)
    (st : list Rule * TraceLogger) (rule : Rule) : list Rule * TraceLogger :=
  let '(satisfied_rules, tl) := st in
  let tl1 :=
    log "SYSTEM"
        (indent +:+ "Checking rule " +:+ rule_id rule +:+ ": " +:+ description rule)
        None tl in
  if evaluate rule a then
    (satisfied_rules ++ [rule],
     log_rule_fired (rule_id rule) goal
       (log_rule_evaluation (rule_id rule) true (description rule) tl1))
  else
    (satisfied_rules,
     log_rule_evaluation (rule_id rule) false (description rule) tl1).

Definition _prove_goal (rb : RuleBase) (cr : ConflictResolver) (goal : string)
    (a : Applicant) (depth : Z) (bc0 : BackwardChaining) : bool * BackwardChaining :=
  let bc := mkBC (bc_logger bc0) (proven_goals bc0) (failed_goals bc0)
                 (prove_calls bc0 ++ [depth]) in
  let indent := indent_of depth in
  if decide (goal ∈ proven_goals bc) then
    (true, bc_log "SYSTEM" (indent +:+ "Goal already proven: " +:+ goal) bc)
  else if decide (goal ∈ failed_goals bc) then
    (false, bc_log "SYSTEM" (indent +:+ "Goal already failed: " +:+ goal) bc)
  else if depth >? 10 then
    (false, bc_log "SYSTEM" (indent +:+ "Max recursion depth reached") bc)
  else
    let bc1 := bc_log "SYSTEM" (indent +:+ "Proving goal: " +:+ goal) bc in
    let rules_for_goal := get_rules_by_consequent rb goal in
    match rules_for_goal with
    | [] =>
        let bc2 := bc_log "SYSTEM" (indent +:+ "No rules found for goal: " +:+ goal) bc1 in
        (false, mkBC (bc_logger bc2) (proven_goals bc2) ({[goal]} ∪ failed_goals bc2)
                     (prove_calls bc2))
    | _ =>
        let '(satisfied_rules, tl) :=
          fold_left (bc_rule_step a goal indent) rules_for_goal ([], bc_logger bc1) in
        match satisfied_rules with
        | [] =>
            let tl' :=
              log "SYSTEM" (indent +:+ "Goal " +:+ goal +:+ " could not be proven") None tl in
            (false, mkBC tl' (proven_goals bc1) ({[goal]} ∪ failed_goals bc1)
                         (prove_calls bc1))
        | first :: others =>
            let '(winning_rule, tl1) :=
              match others with
              | [] => (first, tl)
              | _ =>
                  let '(w, otl) := resolve cr satisfied_rules (Some tl) in
                  (default first w, default tl otl)
              end in
            let tl' :=
              log "SYSTEM"
                  (indent +:+ "Goal " +:+ goal +:+ " proven by rule " +:+ rule_id winning_rule)
                  None tl1 in
            (true, mkBC tl' ({[goal]} ∪ proven_goals bc1) (failed_goals bc1)
                        (prove_calls bc1))
        end
    end.

Definition goals : list string :=
  ["Reject Loan"; "Approve Loan"; "Approve with Conditions"; "Manual Review"].

(** [for goal in goals: ... break]; returns [final_decision]. *)
Fixpoint bc_goal_loop (rb : RuleBase) (cr : ConflictResolver) (a : Applicant)
    (gs : list string) (bc : BackwardChaining) : option string * BackwardChaining :=
  match gs with
  | [] => (None, bc)
  | goal :: rest =>
      let bc1 := bc_log "SYSTEM" ("Attempting to prove goal: " +:+ goal) bc in
      let '(proved, bc2) := _prove_goal rb cr goal a 0 bc1 in
      if proved then
        (Some goal,
         mkBC (returned (log_decision goal (bc_logger bc2)) (bc_logger bc2))
              (proven_goals bc2) (failed_goals bc2) (prove_calls bc2))
      else bc_goal_loop rb cr a rest bc2
  end.

(** [BackwardChaining.infer] *)
Definition bc_infer (rb : RuleBase) (cr : ConflictResolver) (bc0 : BackwardChaining)
    (a : Applicant) : (string * Summary) * BackwardChaining * Applicant :=
  let bc1 := mkBC (start "Backward Chaining" (applicant_id a) (bc_logger bc0)) ∅ ∅ [] in
  let '(found, bc2) := bc_goal_loop rb cr a goals bc1 in
  let '(final_decision, bc3) :=
    match found with
    | Some d => (d, bc2)
    | None =>
        ("Manual Review",
         mkBC (returned (log_decision "Manual Review" (bc_logger bc2)) (bc_logger bc2))
              (proven_goals bc2) (failed_goals bc2) (prove_calls bc2))
    end in
  let summary := get_summary (bc_logger bc3) in
  ((final_decision, summary), bc3,
   set_decision final_decision (Some (summary_trace summary)) a).

(** ** engine/rule_engine.py *)

Record RuleEngine : Type := mkEngine {
  chaining_type : string;
  rule_base : RuleBase;
  conflict_resolver : ConflictResolver;
  forward_chain : TraceLogger;
  backward_chain : BackwardChaining
}.

Definition new_engine (chaining : string) : RuleEngine :=
  mkEngine chaining new_rule_base (new_resolver None) new_logger new_backward_chaining.

Record Results : Type := mkResults {
  res_applicant_id : string;
  applicant_data : Applicant;               (* the [to_dict] snapshot taken on entry *)
  forward_chaining : option (string * Summary);
  backward_chaining : option (string * Summary);
  final_decision : option string;
  reasoning : option string
}.

(** The precedence table written out in [evaluate_applicant]. *)
Definition merge_priority : gmap string Z :=
  {[ "Reject Loan" := 4; "Manual Review" := 3;
     "Approve with Conditions" := 2; "Approve Loan" := 1 ]}.

(** The [else:  # both] branch of [evaluate_applicant]: the final decision
    and the reasoning string, or the [KeyError] of a failed table lookup. *)
Definition merge_both (fc_decision bc_decision : string) : PyResult (string * string) :=
  if String.eqb fc_decision bc_decision
  then Ok (fc_decision, "Both forward and backward chaining agree")
  else
    match merge_priority !! fc_decision, merge_priority !! bc_decision with
    | Some pf, Some pb =>
        Ok (if pf >=? pb then fc_decision else bc_decision,
            "Forward chaining: " +:+ fc_decision +:+ ", Backward chaining: " +:+ bc_decision)
    | _, _ => Raise KeyError
    end.

(** [RuleEngine.evaluate_applicant].  The engine and the fact record are
    returned in the state they have when the call returns or raises. *)
Definition evaluate_applicant (eng : RuleEngine) (a0 : Applicant)
    : PyResult Results * RuleEngine * Applicant :=
  let ct := chaining_type eng in
  let rb := rule_base eng in
  let cr := conflict_resolver eng in
  let '(fc_res, fc_tl, a1) :=
    if String.eqb ct "forward" || String.eqb ct "both" then
      let '(r, tl, a) := fc_infer rb cr (forward_chain eng) a0 in (Some r, tl, a)
    else (None, forward_chain eng, a0) in
  let '(bc_res, bc, a2) :=
    if String.eqb ct "backward" || String.eqb ct "both" then
      let '(r, bc, a) := bc_infer rb cr (backward_chain eng) a1 in (Some r, bc, a)
    else (None, backward_chain eng, a1) in
  let eng' := mkEngine ct rb cr fc_tl bc in
  let outcome : PyResult (string * option string) :=
    if String.eqb ct "forward" then
      match fc_res with
      | Some (d, _) => Ok (d, None)
      | None => Raise TypeError
      end
    else if String.eqb ct "backward" then
      match bc_res with
      | Some (d, _) => Ok (d, None)
      | None => Raise TypeError
      end
    else
      match fc_res, bc_res with
      | Some (fc_decision, _), Some (bc_decision, _) =>
          match merge_both fc_decision bc_decision with
          | Ok (d, why) => Ok (d, Some why)
          | Raise e => Raise e
          end
      | _, _ => Raise TypeError                  (* subscripting [None] *)
      end in
  match outcome with
  | Ok (d, why) =>
      (Ok (mkResults (applicant_id a0) a0 fc_res bc_res (Some d) why),
       eng', set_decision d None a2)
  | Raise e => (Raise e, eng', a2)
  end.

(** ** Fact records used in the examples below (tests/test_engine.py) *)

Definition A5 : Applicant :=
  new_applicant "A5" (PyInt 55000) (PyInt 680) (PyStr "Unemployed") (PyInt 0)
                (PyInt 28) (PyInt 2) (PyStr "Low").

Definition TEST_AGE : Applicant :=
  new_applicant "TEST_AGE" (PyInt 100000) (PyInt 800) (PyStr "Employed") (PyInt 5)
                (PyInt 20) (PyInt 0) (PyStr "None").

Definition A1 : Applicant :=
  new_applicant "A1" (PyInt 70000) (PyInt 760) (PyStr "Employed") (PyInt 5)
                (PyInt 30) (PyInt 2) (PyStr "Low").

(** ** Logging operations as data

    Every public logging method of [TraceLogger] ends in one call of [log];
    a run is [start] followed by a sequence of such calls, and it stops at
    the first call that raises. *)

Inductive LogCall : Type :=
  | CallLog (lvl msg : string) (rid : option string)
  | CallRuleEvaluation (rid : string) (matched : bool) (description : string)
  | CallRuleFired (rid consequent : string)
  | CallConflict (conflicting_rules : list Rule) (winner : Rule)
  | CallDecision (decision : string).

Definition do_call (c : LogCall) (tl : TraceLogger) : PyResult TraceLogger :=
  match c with
  | CallLog lvl msg rid => Ok (log lvl msg rid tl)
  | CallRuleEvaluation rid matched d => Ok (log_rule_evaluation rid matched d tl)
  | CallRuleFired rid c => Ok (log_rule_fired rid c tl)
  | CallConflict rs w => Ok (log_conflict rs w tl)
  | CallDecision d => log_decision d tl
  end.

Fixpoint run_calls (cs : list LogCall) (tl : TraceLogger) : PyResult TraceLogger :=
  match cs with
  | [] => Ok tl
  | c :: rest =>
      match do_call c tl with
      | Ok tl' => run_calls rest tl'
      | Raise e => Raise e
      end
  end.

(** ** The resolver's strategies as order keys

    The key that each named strategy is documented to maximise; any other
    strategy name has none. *)
Definition strategy_key (cr : ConflictResolver) : option (Rule -> Key) :=
  if String.eqb (strategy cr) "priority" then Some (priority_key cr)
  else if String.eqb (strategy cr) "priority_specificity" then Some (priority_key cr)
  else if String.eqb (strategy cr) "specificity" then Some (specificity_key cr)
  else None.

(** Strict order on keys: [key_lt x y] when [y > x] in Python. *)
Definition key_lt (x y : Key) : Prop := key_gt y x = true.

(** ** Auxiliary notions used in the statements *)








(** A second rule that reuses the identifier of [R1]. *)
Definition R1_again : Rule :=
  mkRule "R1" [] "Manual Review" "Low" 0 "a later rule reusing the identifier R1" 0.

(** A rule without antecedents whose consequent is outside the four
    decisions, and a fact record on which no built-in rule fires. *)
Definition R_escalate : Rule :=
  mkRule "RX" [] "Escalate" "High" 1 "always escalate" 0.

(** A rule that reads the decision written on the record. *)
Definition R_second_thoughts : Rule :=
  mkRule "RS" [Triple "decision" "==" (Scalar (PyStr "Approve Loan"))]
    "Reject Loan" "High" 1 "Already approved" 0.

Definition QUIET : Applicant :=
  new_applicant "Q1" (PyInt 20000) (PyInt 720) (PyStr "Employed") (PyInt 5)
                (PyInt 30) (PyInt 0) (PyStr "Low").

(** A goal is provable when some rule concluding it evaluates true. *)
Definition provable (rb : RuleBase) (a : Applicant) (goal : string) : bool :=
  existsb (fun r => evaluate r a) (get_rules_by_consequent rb goal).

(** The skip test of the forward pass: the rule's identifier is among the
    rules fired in earlier passes. *)
Definition already_fired (fired : list Rule) (rule : Rule) : bool :=
  existsb (String.eqb (rule_id rule)) (map rule_id fired).

(** Every rule of the base that evaluates true has already been fired. *)
Definition saturated (rb : RuleBase) (a : Applicant) (fired : list Rule) : Prop :=
  forall r, In r (rules rb) -> evaluate r a = true -> already_fired fired r = true.

(** [logged_from tl tl']: the logger [tl'] results from [tl] by a sequence
    of logging calls. *)
Definition logged_from (tl tl' : TraceLogger) : Prop :=
  exists cs, run_calls cs tl = Ok tl'.

(** The decisions the sub-engines reported in a result, forward first. *)
Definition sub_engine_decisions (res : Results) : list string :=
  option_list (fst <$> forward_chaining res) ++
  option_list (fst <$> backward_chaining res).

(** ** Further operations of the modelled classes *)

(** [Rule.get_priority_score]: the rule's own table of levels. *)
Definition priority_map : gmap string Z :=
  {[ "High" := 3; "Medium" := 2; "Low" := 1 ]}.

Definition get_priority_score (r : Rule) : Z := default 0 (priority_map !! priority r).

(** [RuleBase.reset_fired_counts] *)
Definition reset_rule (r : Rule) : Rule :=
  mkRule (rule_id r) (antecedents r) (consequent r) (priority r)
         (specificity r) (description r) 0.

Definition reset_fired_counts (rb : RuleBase) : RuleBase :=
  mkRuleBase (map reset_rule (rules rb)).

(** [TraceLogger.clear] and [TraceLogger.get_trace] *)
Definition clear (tl : TraceLogger) : TraceLogger := mkLogger (max_depth tl) [] false.

Definition get_trace (tl : TraceLogger) : list TraceEntry := trace tl.

(** [RuleEngine.add_rule], [remove_rule] and [change_conflict_strategy] *)
Definition engine_add_rule (eng : RuleEngine) (rule : Rule) : RuleEngine :=
  mkEngine (chaining_type eng) (add_rule (rule_base eng) rule) (conflict_resolver eng)
           (forward_chain eng) (backward_chain eng).

Definition engine_remove_rule (eng : RuleEngine) (rid : string) : RuleEngine :=
  mkEngine (chaining_type eng) (remove_rule (rule_base eng) rid) (conflict_resolver eng)
           (forward_chain eng) (backward_chain eng).

Definition change_conflict_strategy (eng : RuleEngine) (s : string) : RuleEngine :=
  mkEngine (chaining_type eng) (rule_base eng)
           (mkResolver s (priority_levels (conflict_resolver eng)))
           (forward_chain eng) (backward_chain eng).

(** [RuleEngine.evaluate_batch] on a list of distinct fact records: the
    results so far are lost when an evaluation raises; the records already
    evaluated keep what was written to them. *)
Fixpoint evaluate_batch (eng : RuleEngine) (applicants : list Applicant)
    : PyResult (list Results) * RuleEngine * list Applicant :=
  match applicants with
  | [] => (Ok [], eng, [])
  | a :: rest =>
      match evaluate_applicant eng a with
      | (Ok res, eng1, a1) =>
          let '(more, eng2, rest') := evaluate_batch eng1 rest in
          (match more with
           | Ok l => Ok (res :: l)
           | Raise e => Raise e
           end, eng2, a1 :: rest')
      | (Raise e, eng1, a1) => (Raise e, eng1, a1 :: rest)
      end
  end.

(** The tally of final decisions built in [evaluate_all] (app.py):
    [decisions[decision] = decisions.get(decision, 0) + 1]. *)
Definition tally_step (decisions : gmap (option string) Z) (res : Results)
    : gmap (option string) Z :=
  <[final_decision res := default 0 (decisions !! final_decision res) + 1]> decisions.

Definition tally_decisions (results : list Results) : gmap (option string) Z :=
  fold_left tally_step results ∅.

(** ** Further notions used in the statements *)

(** The entry a logging call appends when there is room. *)
Definition entry_of (c : LogCall) : TraceEntry :=
  match c with
  | CallLog lvl msg rid => mkEntry lvl msg rid
  | CallRuleEvaluation rid matched d =>
      mkEntry "RULE_EVAL"
        (rid +:+ ": " +:+ d +:+ " - " +:+ (if matched then "MATCHED" else "NOT MATCHED"))
        (Some rid)
  | CallRuleFired rid c => mkEntry "RULE_FIRE" (rid +:+ " fired → " +:+ c) (Some rid)
  | CallConflict rs w =>
      mkEntry "CONFLICT"
        ("Conflict between " +:+ String.concat ", " (map rule_id rs) +:+
         " → Winner: " +:+ rule_id w) None
  | CallDecision d => mkEntry "DECISION" ("Final Decision: " +:+ d) None
  end.

(** An antecedent that reads only the data fields of the fact record: a
    triple on an attribute other than [decision].  Callables may read
    anything and are excluded. *)
Definition data_only_condition (c : Condition) : bool :=
  match c with
  | Triple attr _ _ => negb (String.eqb attr "decision")
  | Malformed => true
  | Callable _ => false
  end.

Definition data_only (r : Rule) : bool := forallb data_only_condition (antecedents r).

(** The boolean that [evaluate] returns for a list of antecedents. *)
Definition holds_all (a : Applicant) (conds : list Condition) : bool :=
  match fst (evaluate_loop a conds) with
  | Ok b => b
  | Raise _ => false
  end.

(** The [decisions] dictionary that results from recording the rules of a
    list one after the other. *)
Definition group_by_consequent (l : list Rule) : Decisions :=
  fold_left (fun d r => dict_append d (consequent r) r) l [].

(** The distinct strings of a list, in order of first occurrence. *)
Definition first_occurrences (l : list string) : list string :=
  fold_left (fun acc k => if existsb (String.eqb k) acc then acc else acc ++ [k]) l [].

(** The rules of the base that hold for a fact record, and the distinct
    consequents they derive. *)
Definition satisfied_rules (rb : RuleBase) (a : Applicant) : list Rule :=
  List.filter (fun r => evaluate r a) (rules rb).

Definition derived_decisions (rb : RuleBase) (a : Applicant) : list string :=
  first_occurrences (map consequent (satisfied_rules rb a)).

(** What the dictionary holds after recording the rules of [l]: under each
    key the rules of [l] with that consequent, in order, and no key without
    such a rule. *)
Definition groups_of (l : list Rule) (d : Decisions) : Prop :=
  (forall k rs, In (k, rs) d ->
     rs = List.filter (fun r => String.eqb (consequent r) k) l /\ rs <> []) /\
  (forall k, dict_contains d k = false ->
     List.filter (fun r => String.eqb (consequent r) k) l = []).

(** The decisions of the two strategies as functions of the rule base and
    the fact record alone. *)
Definition fc_decision_of (rb : RuleBase) (a : Applicant) : string :=
  match derived_decisions rb a with
  | [d] => d
  | _ => "Manual Review"
  end.

Definition bc_decision_of (rb : RuleBase) (a : Applicant) : string :=
  match List.find (provable rb a) goals with
  | Some g => g
  | None => "Manual Review"
  end.

(** The decisions carried by an evaluation outcome: forward, backward,
    final, and the reasoning string. *)
Definition DecisionView : Type :=
  option string * option string * option string * option string.

Definition decisions_of (r : PyResult Results) : PyResult DecisionView :=
  match r with
  | Ok res =>
      Ok (fst <$> forward_chaining res, fst <$> backward_chaining res,
          final_decision res, reasoning res)
  | Raise e => Raise e
  end.

Definition decision_view (ct : string) (rb : RuleBase) (a : Applicant)
    : PyResult DecisionView :=
  let fc := fc_decision_of rb a in
  let bc := bc_decision_of rb a in
  if String.eqb ct "forward" then Ok (Some fc, None, Some fc, None)
  else if String.eqb ct "backward" then Ok (None, Some bc, Some bc, None)
  else if String.eqb ct "both" then
    match merge_both fc bc with
    | Ok (d, why) => Ok (Some fc, Some bc, Some d, Some why)
    | Raise e => Raise e
    end
  else Raise TypeError.

(** All results of a list of outcomes, or the first exception among them. *)
Fixpoint collect {A : Type} (l : list (PyResult A)) : PyResult (list A) :=
  match l with
  | [] => Ok []
  | Ok x :: rest =>
      match collect rest with
      | Ok xs => Ok (x :: xs)
      | Raise e => Raise e
      end
  | Raise e :: _ => Raise e
  end.

(** The number of calls in a sequence that ask for a RULE_FIRE entry, and
    loggers related by a call sequence with a given number of them. *)
Definition fire_calls (cs : list LogCall) : nat :=
  length (filter (fun c => level (entry_of c) = "RULE_FIRE") cs).

Definition logged_fires (tl tl' : TraceLogger) (k : nat) : Prop :=
  exists cs, run_calls cs tl = Ok tl' /\ fire_calls cs = k.

(** Fact records with the same identifier and data fields; they may differ
    in the decision and trace written on them. *)
Definition same_data (a a' : Applicant) : Prop :=
  applicant_id a' = applicant_id a /\
  income a' = income a /\
  credit_score a' = credit_score a /\
  employment_status a' = employment_status a /\
  employment_duration a' = employment_duration a /\
  age a' = age a /\
  dependents a' = dependents a /\
  existing_debt a' = existing_debt a.

(** Engines that differ at most in what their loggers and memo sets hold. *)
Definition same_configuration (e1 e2 : RuleEngine) : Prop :=
  chaining_type e1 = chaining_type e2 /\
  rule_base e1 = rule_base e2 /\
  conflict_resolver e1 = conflict_resolver e2 /\
  max_depth (forward_chain e1) = max_depth (forward_chain e2) /\
  max_depth (bc_logger (backward_chain e1)) = max_depth (bc_logger (backward_chain e2)).

(** * Properties *)

(** ** Trace logger *)

Section TraceLoggerFacts.

Lemma log_max_depth lvl msg rid tl : max_depth (log lvl msg rid tl) = max_depth tl.
Proof. unfold log. by case_match. Qed.

Lemma log_started lvl msg rid tl : started (log lvl msg rid tl) = started tl.
Proof. unfold log. by case_match. Qed.

Lemma log_full lvl msg rid tl :
  max_depth tl <= Z.of_nat (length (trace tl)) -> log lvl msg rid tl = tl.
Proof.
  intros Hfull. unfold log.
  destruct (Z.ltb_spec (Z.of_nat (length (trace tl))) (max_depth tl)); [lia | done].
Qed.

Lemma log_room lvl msg rid tl :
  Z.of_nat (length (trace tl)) < max_depth tl ->
  trace (log lvl msg rid tl) = trace tl ++ [mkEntry lvl msg rid].
Proof.
  intros Hroom. unfold log.
  destruct (Z.ltb_spec (Z.of_nat (length (trace tl))) (max_depth tl)); [done | lia].
Qed.

(** Exact length after one [log]. *)
Lemma log_length lvl msg rid tl :
  length (trace (log lvl msg rid tl)) =
  if Z.of_nat (length (trace tl)) <? max_depth tl
  then S (length (trace tl)) else length (trace tl).
Proof.
  unfold log. case_match; [| done]. cbn. rewrite length_app. cbn. lia.
Qed.

Lemma log_prefix lvl msg rid tl : trace tl `prefix_of` trace (log lvl msg rid tl).
Proof.
  unfold log. case_match; [| done]. cbn. by apply prefix_app_r.
Qed.

(** [log_decision] inside a run: on a started logger it is a [log]. *)
Lemma log_decision_started d tl :
  started tl = true ->
  log_decision d tl = Ok (log "DECISION" ("Final Decision: " +:+ d) None tl).
Proof. intros H. unfold log_decision. by rewrite H. Qed.

(** Each logging method that returns has made a single [log], with the
    level, message and rule of its entry. *)
Lemma do_call_ok c tl tl' :
  do_call c tl = Ok tl' ->
  tl' = log (level (entry_of c)) (message (entry_of c)) (entry_rule_id (entry_of c)) tl.
Proof.
  destruct c; cbn [do_call]; intros H.
  - by injection H as <-.
  - injection H as <-. by destruct matched.
  - by injection H as <-.
  - by injection H as <-.
  - unfold log_decision in H. destruct (started tl); [| discriminate].
    by injection H as <-.
Qed.

Lemma do_call_started c tl :
  started tl = true ->
  do_call c tl =
  Ok (log (level (entry_of c)) (message (entry_of c)) (entry_rule_id (entry_of c)) tl).
Proof.
  intros Hst. destruct c; cbn [do_call].
  - reflexivity.
  - by destruct matched.
  - reflexivity.
  - reflexivity.
  - by rewrite log_decision_started.
Qed.

(** Only [log_decision] can raise, and only on a logger that is not started. *)
Lemma do_call_raise c tl e :
  do_call c tl = Raise e ->
  e = TypeError /\ started tl = false /\ exists d, c = CallDecision d.
Proof.
  destruct c; cbn [do_call]; try discriminate.
  unfold log_decision. destruct (started tl); [discriminate |].
  intros H. injection H as <-. eauto.
Qed.

Lemma run_calls_invariant cs tl tl' :
  run_calls cs tl = Ok tl' ->
  max_depth tl' = max_depth tl /\ started tl' = started tl.
Proof.
  revert tl. induction cs as [| c cs IH]; intros tl; cbn.
  - by intros [= <-].
  - destruct (do_call c tl) as [tl1 |] eqn:E; [| discriminate].
    intros H. apply IH in H as [H1 H2]. rewrite H1, H2. apply do_call_ok in E.
    rewrite E. split; [apply log_max_depth | apply log_started].
Qed.

(** On a started logger a sequence of calls never raises. *)
Lemma run_calls_returns cs tl :
  started tl = true -> exists tl', run_calls cs tl = Ok tl'.
Proof.
  revert tl. induction cs as [| c cs IH]; intros tl Hst; cbn; [by eexists |].
  rewrite do_call_started by done. apply IH. by rewrite log_started.
Qed.

(** Length of the journal after a sequence of calls: one entry per call
    until the capacity is reached. *)
Lemma run_calls_length cs tl tl' :
  Z.of_nat (length (trace tl)) <= max_depth tl ->
  run_calls cs tl = Ok tl' ->
  Z.of_nat (length (trace tl')) =
  Z.min (Z.of_nat (length (trace tl)) + Z.of_nat (length cs)) (max_depth tl).
Proof.
  revert tl. induction cs as [| c cs IH]; intros tl Hle; cbn [run_calls].
  - intros [= <-]. cbn. lia.
  - destruct (do_call c tl) as [tl1 |] eqn:E; [| discriminate].
    apply do_call_ok in E. intros Hrun.
    pose proof (log_length (level (entry_of c)) (message (entry_of c))
                  (entry_rule_id (entry_of c)) tl) as Hlen.
    pose proof (log_max_depth (level (entry_of c)) (message (entry_of c))
                  (entry_rule_id (entry_of c)) tl) as Hmd.
    rewrite <- E in Hlen, Hmd.
    destruct (Z.ltb_spec (Z.of_nat (length (trace tl))) (max_depth tl)).
    + rewrite (IH tl1); [| rewrite Hmd, Hlen; lia | done].
      rewrite Hmd, Hlen. cbn [length]. lia.
    + rewrite (IH tl1); [| rewrite Hmd, Hlen; lia | done].
      rewrite Hmd, Hlen. cbn [length]. lia.
Qed.

Lemma start_length ct id tl :
  0 <= max_depth tl ->
  Z.of_nat (length (trace (start ct id tl))) = Z.min 1 (max_depth tl).
Proof.
  intros Hn. unfold start. rewrite log_length. cbn [trace length max_depth].
  change (Z.of_nat 0) with 0.
  destruct (Z.ltb_spec 0 (max_depth tl)); cbn [length]; lia.
Qed.

Lemma start_max_depth ct id tl : max_depth (start ct id tl) = max_depth tl.
Proof. unfold start. by rewrite log_max_depth. Qed.

Lemma start_started ct id tl : started (start ct id tl) = true.
Proof. unfold start. by rewrite log_started. Qed.

End TraceLoggerFacts.

(** ** The engines only ever log: each inference run is [start] followed by
    logging calls, none of which raises *)

Section EngineRuns.

Lemma run_calls_app cs1 cs2 tl :
  run_calls (cs1 ++ cs2) tl =
  match run_calls cs1 tl with
  | Ok tl1 => run_calls cs2 tl1
  | Raise e => Raise e
  end.
Proof.
  revert tl. induction cs1 as [| c cs1 IH]; intros tl; cbn; [done |].
  destruct (do_call c tl); [apply IH | done].
Qed.

Lemma logged_refl tl : logged_from tl tl.
Proof. by exists []. Qed.

Lemma logged_call c tl0 tl tl' :
  logged_from tl0 tl -> do_call c tl = Ok tl' -> logged_from tl0 tl'.
Proof.
  intros [cs Hcs] Hc. exists (cs ++ [c]). rewrite run_calls_app, Hcs. cbn. by rewrite Hc.
Qed.

Lemma logged_trans tl0 tl1 tl2 :
  logged_from tl0 tl1 -> logged_from tl1 tl2 -> logged_from tl0 tl2.
Proof.
  intros [cs1 H1] [cs2 H2]. exists (cs1 ++ cs2). by rewrite run_calls_app, H1.
Qed.

Lemma logged_started tl0 tl : logged_from tl0 tl -> started tl = started tl0.
Proof. intros [cs H]. by apply run_calls_invariant in H as [_ ?]. Qed.

Lemma logged_log lvl msg rid tl0 tl :
  logged_from tl0 tl -> logged_from tl0 (log lvl msg rid tl).
Proof. intros H. by apply (logged_call (CallLog lvl msg rid) _ _ _ H). Qed.

Lemma logged_rule_evaluation rid m d tl0 tl :
  logged_from tl0 tl -> logged_from tl0 (log_rule_evaluation rid m d tl).
Proof. intros H. by apply (logged_call (CallRuleEvaluation rid m d) _ _ _ H). Qed.

Lemma logged_rule_fired rid c tl0 tl :
  logged_from tl0 tl -> logged_from tl0 (log_rule_fired rid c tl).
Proof. intros H. by apply (logged_call (CallRuleFired rid c) _ _ _ H). Qed.

Lemma logged_conflict rs w tl0 tl :
  logged_from tl0 tl -> logged_from tl0 (log_conflict rs w tl).
Proof. intros H. by apply (logged_call (CallConflict rs w) _ _ _ H). Qed.

(** In a run that began with [start], [log_decision] returns: the logger
    the engines keep is the one it produced. *)
Lemma logged_decision d tl0 tl :
  started tl0 = true ->
  logged_from tl0 tl -> logged_from tl0 (returned (log_decision d tl) tl).
Proof.
  intros Hst H. pose proof (logged_started _ _ H) as Hs. rewrite Hst in Hs.
  apply (logged_call (CallDecision d) _ _ _ H). cbn.
  by rewrite log_decision_started.
Qed.

Create HintDb logged.

Local Hint Resolve logged_refl logged_log logged_rule_evaluation logged_rule_fired
  logged_conflict logged_decision start_started : logged.

Lemma resolve_logged cr rs tl :
  exists tl', snd (resolve cr rs (Some tl)) = Some tl' /\ logged_from tl tl'.
Proof.
  destruct rs as [| r [| r2 rest]]; cbn -[log_conflict]; eexists; split;
    eauto with logged.
Qed.

Lemma resolve_by_decision_step_logged cr bd bs tl item :
  exists bd' bs' tl',
    resolve_by_decision_step cr (bd, bs, Some tl) item = (bd', bs', Some tl') /\
    logged_from tl tl'.
Proof.
  destruct item as [d [| r rs]]; cbn -[resolve score_gt].
  - do 3 eexists. split; [done | apply logged_refl].
  - destruct (resolve_logged cr (r :: rs) tl) as (tl' & Htl & Hlog).
    destruct (resolve cr (r :: rs) (Some tl)) as [w otl]. cbn [snd] in Htl. subst otl.
    destruct w as [w |]; [| by do 3 eexists].
    destruct (score_gt _ _) as [[|] | e]; by do 3 eexists.
Qed.

Lemma resolve_by_decision_logged cr groups tl :
  exists tl', snd (resolve_by_decision cr groups (Some tl)) = Some tl' /\ logged_from tl tl'.
Proof.
  unfold resolve_by_decision.
  assert (forall bd bs tl0, exists bd' bs' tl',
            fold_left (resolve_by_decision_step cr) groups (bd, bs, Some tl0) =
              (bd', bs', Some tl') /\ logged_from tl0 tl') as Hfold.
  { induction groups as [| item groups IH]; intros bd bs tl0; cbn [fold_left].
    - do 3 eexists. split; [done | apply logged_refl].
    - destruct (resolve_by_decision_step_logged cr bd bs tl0 item)
        as (bd1 & bs1 & tl1 & -> & Hlog1).
      destruct (IH bd1 bs1 tl1) as (bd2 & bs2 & tl2 & -> & Hlog2).
      do 3 eexists. split; [done | by eapply logged_trans]. }
  destruct (Hfold None (ScoreInt (-1)) tl) as (bd' & bs' & tl' & -> & Hlog).
  by exists tl'.
Qed.

Lemma fc_fold_logged a fired l ti dec tl0 tl :
  logged_from tl0 tl ->
  logged_from tl0 (snd (fold_left (fc_rule_step a fired) l (ti, dec, tl))).
Proof.
  revert ti dec tl. induction l as [| r l IH]; intros ti dec tl Hlog; [done |].
  cbn [fold_left]. unfold fc_rule_step at 2.
  destruct (existsb _ _); [by apply IH |].
  destruct (evaluate r a); apply IH; eauto with logged.
Qed.

Lemma fc_while_logged n rb a st tl0 :
  logged_from tl0 (fc_logger st) -> logged_from tl0 (fc_logger (fc_while n rb a st)).
Proof.
  revert st. induction n as [| n IH]; intros st Hlog; [done |]. cbn [fc_while].
  pose proof (fc_fold_logged a (rules_fired st) (get_all_rules rb) [] (decisions st)
                tl0 (fc_logger st) Hlog) as Hfold.
  destruct (fold_left _ _ _) as [[ti dec] tl]. cbn [snd] in Hfold.
  destruct ti; [done |]. by apply IH.
Qed.

(** The journal that [ForwardChaining.infer] leaves behind, which is also
    the one summarised in its result. *)
Lemma fc_infer_logged rb cr tl0 a :
  logged_from (start "Forward Chaining" (applicant_id a) tl0)
              (snd (fst (fc_infer rb cr tl0 a))) /\
  snd (fst (fst (fc_infer rb cr tl0 a))) = get_summary (snd (fst (fc_infer rb cr tl0 a))).
Proof.
  unfold fc_infer.
  assert (logged_from (start "Forward Chaining" (applicant_id a) tl0)
                      (fc_logger (fc_run rb tl0 a))) as Hrun.
  { unfold fc_run. apply fc_while_logged. cbn [fc_logger]. eauto with logged. }
  destruct (decisions (fc_run rb tl0 a)) as [| [d rs] [| kv more]]; cbn [fst snd];
    [split; eauto with logged .. |].
  destruct (resolve_by_decision_logged cr ((d, rs) :: kv :: more)
              (fc_logger (fc_run rb tl0 a))) as (tl' & Htl & Hlog).
  destruct (resolve_by_decision _ _ _) as [d' otl]. cbn [snd] in Htl. subst otl.
  cbn [fst snd default]. split; [| done].
  apply logged_decision; [apply start_started |]. by eapply logged_trans.
Qed.

Lemma bc_fold_logged a goal indent l sat tl0 tl :
  logged_from tl0 tl ->
  logged_from tl0 (snd (fold_left (bc_rule_step a goal indent) l (sat, tl))).
Proof.
  revert sat tl. induction l as [| r l IH]; intros sat tl Hlog; [done |].
  cbn [fold_left]. unfold bc_rule_step at 2.
  destruct (evaluate r a); apply IH; eauto with logged.
Qed.

Lemma prove_goal_logged rb cr goal a depth bc tl0 :
  logged_from tl0 (bc_logger bc) ->
  logged_from tl0 (bc_logger (snd (_prove_goal rb cr goal a depth bc))).
Proof.
  intros Hlog. unfold _prove_goal. cbn [proven_goals failed_goals bc_logger].
  repeat case_decide; [cbn; eauto with logged .. |].
  destruct (depth >? 10); [cbn; eauto with logged |].
  destruct (get_rules_by_consequent rb goal) as [| r rs]; [cbn; eauto with logged |].
  pose proof (bc_fold_logged a goal (indent_of depth) (r :: rs) [] tl0
                (log "SYSTEM" (indent_of depth +:+ "Proving goal: " +:+ goal) None
                   (bc_logger bc)) ltac:(eauto with logged)) as Hfold.
  cbn [bc_log bc_logger] in *.
  destruct (fold_left _ _ _) as [[| f others] tl]; cbn [snd] in Hfold;
    [cbn; eauto with logged |].
  destruct others as [| o others]; [cbn; eauto with logged |].
  destruct (resolve_logged cr (f :: o :: others) tl) as (tl' & Htl & Hlog').
  destruct (resolve cr (f :: o :: others) (Some tl)) as [w otl].
  cbn [snd] in Htl. subst otl. cbn.
  apply logged_log. by eapply logged_trans.
Qed.

Lemma bc_goal_loop_logged rb cr a gs bc tl0 :
  started tl0 = true ->
  logged_from tl0 (bc_logger bc) ->
  logged_from tl0 (bc_logger (snd (bc_goal_loop rb cr a gs bc))).
Proof.
  intros Hst. revert bc. induction gs as [| g gs IH]; intros bc Hlog; [done |].
  cbn [bc_goal_loop].
  pose proof (prove_goal_logged rb cr g a 0
                (bc_log "SYSTEM" ("Attempting to prove goal: " +:+ g) bc) tl0
                ltac:(cbn; eauto with logged)) as Hprove.
  destruct (_prove_goal rb cr g a 0 _) as [[|] bc2]; cbn [snd] in Hprove.
  - cbn [snd bc_logger]. eauto with logged.
  - by apply IH.
Qed.

Lemma bc_infer_logged rb cr bc0 a :
  logged_from (start "Backward Chaining" (applicant_id a) (bc_logger bc0))
              (bc_logger (snd (fst (bc_infer rb cr bc0 a)))) /\
  snd (fst (fst (bc_infer rb cr bc0 a))) =
    get_summary (bc_logger (snd (fst (bc_infer rb cr bc0 a)))).
Proof.
  unfold bc_infer.
  pose proof (bc_goal_loop_logged rb cr a goals
                (mkBC (start "Backward Chaining" (applicant_id a) (bc_logger bc0)) ∅ ∅ [])
                (start "Backward Chaining" (applicant_id a) (bc_logger bc0))
                (start_started _ _ _) (logged_refl _)) as Hloop.
  destruct (bc_goal_loop rb cr a goals _) as [[d |] bc2]; cbn [snd] in Hloop;
    cbn [fst snd bc_logger]; split; eauto with logged.
Qed.

(** The call of [log_decision] that ends an inference run returns: it is
    made on a started logger, and the logger the engine keeps is its
    result. *)
Lemma fc_infer_decision_logged rb cr tl0 a :
  exists tl3,
    logged_from (start "Forward Chaining" (applicant_id a) tl0) tl3 /\
    started tl3 = true /\
    log_decision (fst (fst (fst (fc_infer rb cr tl0 a)))) tl3 =
      Ok (snd (fst (fc_infer rb cr tl0 a))).
Proof.
  unfold fc_infer.
  assert (logged_from (start "Forward Chaining" (applicant_id a) tl0)
                      (fc_logger (fc_run rb tl0 a))) as Hrun.
  { unfold fc_run. apply fc_while_logged. cbn [fc_logger]. eauto with logged. }
  assert (forall d tl3,
            logged_from (start "Forward Chaining" (applicant_id a) tl0) tl3 ->
            started tl3 = true /\
            log_decision d tl3 = Ok (returned (log_decision d tl3) tl3)) as Hok.
  { intros d tl3 Hlog. pose proof (logged_started _ _ Hlog) as Hs.
    rewrite start_started in Hs. split; [done |]. by rewrite log_decision_started. }
  destruct (decisions (fc_run rb tl0 a)) as [| [d rs] [| kv more]]; cbn [fst snd].
  - eexists. split; [exact Hrun |]. by apply Hok.
  - eexists. split; [exact Hrun |]. by apply Hok.
  - destruct (resolve_by_decision_logged cr ((d, rs) :: kv :: more)
                (fc_logger (fc_run rb tl0 a))) as (tl' & Htl & Hlog).
    destruct (resolve_by_decision _ _ _) as [d' otl]. cbn [snd] in Htl. subst otl.
    cbn [fst snd default]. exists tl'.
    assert (logged_from (start "Forward Chaining" (applicant_id a) tl0) tl') as Hlog'
      by (by eapply logged_trans).
    split; [done |]. by apply Hok.
Qed.

Lemma bc_goal_loop_decision_logged rb cr a gs bc tl0 :
  started tl0 = true ->
  logged_from tl0 (bc_logger bc) ->
  match bc_goal_loop rb cr a gs bc with
  | (Some d, bc2) =>
      exists tl, logged_from tl0 tl /\ started tl = true /\
                 log_decision d tl = Ok (bc_logger bc2)
  | (None, bc2) => logged_from tl0 (bc_logger bc2)
  end.
Proof.
  intros Hst. revert bc. induction gs as [| g gs IH]; intros bc Hlog; [done |].
  cbn [bc_goal_loop].
  pose proof (prove_goal_logged rb cr g a 0
                (bc_log "SYSTEM" ("Attempting to prove goal: " +:+ g) bc) tl0
                ltac:(cbn; eauto with logged)) as Hprove.
  destruct (_prove_goal rb cr g a 0 _) as [[|] bc2]; cbn [snd] in Hprove.
  - exists (bc_logger bc2). cbn [bc_logger]. split; [done |].
    pose proof (logged_started _ _ Hprove) as Hs. rewrite Hst in Hs. split; [done |].
    by rewrite log_decision_started.
  - by apply IH.
Qed.

Lemma bc_infer_decision_logged rb cr bc0 a :
  exists tl,
    logged_from (start "Backward Chaining" (applicant_id a) (bc_logger bc0)) tl /\
    started tl = true /\
    log_decision (fst (fst (fst (bc_infer rb cr bc0 a)))) tl =
      Ok (bc_logger (snd (fst (bc_infer rb cr bc0 a)))).
Proof.
  unfold bc_infer.
  pose proof (bc_goal_loop_decision_logged rb cr a goals
                (mkBC (start "Backward Chaining" (applicant_id a) (bc_logger bc0)) ∅ ∅ [])
                (start "Backward Chaining" (applicant_id a) (bc_logger bc0))
                (start_started _ _ _) (logged_refl _)) as Hloop.
  destruct (bc_goal_loop rb cr a goals _) as [[d |] bc2]; cbn [fst snd bc_logger].
  - exact Hloop.
  - exists (bc_logger bc2). split; [done |].
    pose proof (logged_started _ _ Hloop) as Hs. rewrite start_started in Hs.
    split; [done |]. by rewrite log_decision_started.
Qed.

End EngineRuns.

Lemma run_bounded ct id tl tl' :
  0 <= max_depth tl ->
  logged_from (start ct id tl) tl' ->
  Z.of_nat (length (trace tl')) <= max_depth tl.
Proof.
  intros Hn [cs Hcs]. pose proof (start_length ct id tl Hn) as Hs.
  pose proof (start_max_depth ct id tl) as Hmd.
  assert (Z.of_nat (length (trace (start ct id tl))) <= max_depth (start ct id tl))
    as Hle by lia.
  rewrite (run_calls_length cs _ _ Hle Hcs). lia.
Qed.

(** C9.  With capacity [N]: a call of [log] on a journal that already holds
    [N] entries changes nothing, and so does every public logging method
    on a started logger (the call is dropped, nothing is rotated out and
    nothing is raised); whenever a logging method returns, the old journal
    is a prefix of the new one, the capacity is unchanged and the bound
    [length trace <= N] is preserved; the only logging method that can
    raise is [log_decision], which raises [TypeError] exactly on a logger
    that is not started, whether or not the journal is full; a run --
    [start] followed by calls [cs] -- never raises, and when it asks for
    more than [N] entries it ends with [total_entries = N]; and the
    summaries returned by forward and backward chaining, whose journals are
    such runs, never report more than [N] entries. *)
Theorem trace_capacity_bounded (N : Z) (tl : TraceLogger) (c : LogCall)
    (cs : list LogCall) (ct id : string) :
  0 <= N ->
  max_depth tl = N ->
  (forall lvl msg rid,
     N <= Z.of_nat (length (trace tl)) -> log lvl msg rid tl = tl) /\
  (N <= Z.of_nat (length (trace tl)) -> started tl = true -> do_call c tl = Ok tl) /\
  (forall tl', do_call c tl = Ok tl' ->
     trace tl `prefix_of` trace tl' /\
     max_depth tl' = N /\
     (Z.of_nat (length (trace tl)) <= N -> Z.of_nat (length (trace tl')) <= N)) /\
  (forall d, log_decision d tl = Raise TypeError <-> started tl = false) /\
  (forall e, do_call c tl = Raise e ->
     e = TypeError /\ started tl = false /\ exists d, c = CallDecision d) /\
  (exists tl', run_calls cs (start ct id tl) = Ok tl' /\
     Z.of_nat (total_entries (get_summary tl')) <= N /\
     (N < 1 + Z.of_nat (length cs) ->
      Z.of_nat (total_entries (get_summary tl')) = N)) /\
  (forall rb cr a,
     logged_from (start "Forward Chaining" (applicant_id a) tl)
                 (snd (fst (fc_infer rb cr tl a))) /\
     Z.of_nat (total_entries (snd (fst (fst (fc_infer rb cr tl a))))) <= N) /\
  (forall rb cr a proven failed calls,
     logged_from (start "Backward Chaining" (applicant_id a) tl)
                 (bc_logger (snd (fst (bc_infer rb cr (mkBC tl proven failed calls) a)))) /\
     Z.of_nat (total_entries
                 (snd (fst (fst (bc_infer rb cr (mkBC tl proven failed calls) a))))) <= N).
Proof.
  intros HN Hcap.
  split; [intros lvl msg rid Hfull; apply log_full; lia |].
  split.
  { intros Hfull Hst. rewrite do_call_started by done. f_equal. apply log_full. lia. }
  split.
  { intros tl' Hc. apply do_call_ok in Hc as ->.
    split; [apply log_prefix |]. split; [by rewrite log_max_depth |].
    intros Hle. rewrite log_length. case_match eqn:E; [| lia].
    apply Z.ltb_lt in E. lia. }
  split.
  { intros d. unfold log_decision. destruct (started tl); split; congruence. }
  split; [apply do_call_raise |].
  split.
  { destruct (run_calls_returns cs (start ct id tl) (start_started _ _ _)) as [tl' Hrun].
    exists tl'. split; [done |]. cbn [get_summary total_entries].
    assert (0 <= max_depth tl) as Hn by lia.
    pose proof (start_length ct id tl Hn) as Hs.
    pose proof (start_max_depth ct id tl) as Hmd.
    assert (Z.of_nat (length (trace (start ct id tl))) <= max_depth (start ct id tl))
      as Hle by lia.
    rewrite (run_calls_length cs _ _ Hle Hrun). lia. }
  split.
  - intros rb cr a. destruct (fc_infer_logged rb cr tl a) as [Hlog ->].
    split; [done |]. cbn [get_summary total_entries]. rewrite <- Hcap.
    eapply run_bounded; [lia | exact Hlog].
  - intros rb cr a proven failed calls.
    destruct (bc_infer_logged rb cr (mkBC tl proven failed calls) a) as [Hlog ->].
    split; [done |]. cbn [get_summary total_entries]. rewrite <- Hcap.
    eapply (run_bounded _ _ tl); [lia | exact Hlog].
Qed.

Lemma trace_capacity_bounded_witness :
  exists tl',
    run_calls [CallRuleEvaluation "R1" true "d"; CallRuleFired "R1" "Approve Loan";
               CallDecision "Approve Loan"]
              (start "Forward Chaining" "A1" (mkLogger 2 [] false)) = Ok tl' /\
    Z.of_nat (total_entries (get_summary tl')) = 2.
Proof.
  destruct (trace_capacity_bounded 2 (mkLogger 2 [] false) (CallDecision "x")
              [CallRuleEvaluation "R1" true "d"; CallRuleFired "R1" "Approve Loan";
               CallDecision "Approve Loan"]
              "Forward Chaining" "A1")
    as (_ & _ & _ & _ & _ & (tl' & Hrun & _ & Hfull) & _).
  - lia.
  - reflexivity.
  - exists tl'. split; [exact Hrun |]. apply Hfull. cbn. lia.
Defined.

(** A logger on which [start] was never called: [log_decision] raises, a
    plain [log] does not. *)
Example log_decision_before_start :
  log_decision "Approve Loan" new_logger = Raise TypeError /\
  trace (log "SYSTEM" "note" None new_logger) = [mkEntry "SYSTEM" "note" None] /\
  log_decision "Approve Loan" (clear (start "Forward Chaining" "A1" new_logger)) =
    Raise TypeError.
Proof. done. Qed.

(** Forward chaining over the built-in rules with a journal of capacity 5:
    the run asks for 19 entries and the summary reports 5. *)
Example forward_trace_capped :
  total_entries (snd (fst (fst
    (fc_infer new_rule_base (new_resolver None) (mkLogger 5 [] false) TEST_AGE)))) = 5%nat.
Proof. vm_compute. reflexivity. Qed.

(** ** Rule base *)

Section RuleBaseFacts.

Lemma find_first_match {A} (p : A -> bool) (pre post : list A) (x : A) :
  (forall y, In y pre -> p y = false) -> p x = true ->
  List.find p (pre ++ x :: post) = Some x.
Proof.
  intros Hpre Hx. induction pre as [| y pre IH]; cbn.
  - by rewrite Hx.
  - rewrite (Hpre y) by (by left). apply IH. intros z Hz. apply Hpre. by right.
Qed.

Lemma find_none_filter {A} (p : A -> bool) (l : list A) :
  List.find p (List.filter (fun x => negb (p x)) l) = None.
Proof.
  induction l as [| x l IH]; cbn; [done |].
  destruct (p x) eqn:E; cbn; [done |]. by rewrite E.
Qed.

End RuleBaseFacts.

(** C10.  [add_rule] appends whatever it is given, so identifiers may
    repeat.  When [r] is the first rule (in insertion order) whose
    identifier is [rid], [get_rule_by_id] returns [r], however many later
    rules share the identifier; [remove_rule] deletes every rule bearing
    [rid], keeps all other rules in their order, and a later lookup of
    [rid] finds nothing. *)
Theorem lookup_first_removal_all (rb : RuleBase) (rid : string)
    (pre post : list Rule) (r : Rule) :
  rules rb = pre ++ r :: post ->
  rule_id r = rid ->
  (forall x, In x pre -> rule_id x <> rid) ->
  (forall r', rules (add_rule rb r') = rules rb ++ [r']) /\
  get_rule_by_id rb rid = Some r /\
  (forall x, In x (rules (remove_rule rb rid)) <-> In x (rules rb) /\ rule_id x <> rid) /\
  rules (remove_rule rb rid) =
    pre ++ List.filter (fun x => negb (String.eqb (rule_id x) rid)) post /\
  get_rule_by_id (remove_rule rb rid) rid = None.
Proof.
  intros Hrb Hid Hpre. repeat split.
  - unfold get_rule_by_id. rewrite Hrb. apply find_first_match.
    + intros y Hy. apply String.eqb_neq. by apply Hpre.
    + by apply String.eqb_eq.
  - unfold remove_rule in H. cbn in H. apply filter_In in H. tauto.
  - unfold remove_rule in H. cbn in H. apply filter_In in H.
    destruct H as [_ H]. apply negb_true_iff, String.eqb_neq in H. done.
  - intros [Hin Hne]. unfold remove_rule. cbn. apply filter_In. split; [done |].
    by apply negb_true_iff, String.eqb_neq.
  - unfold remove_rule. cbn. rewrite Hrb, List.filter_app. cbn.
    replace (String.eqb (rule_id r) rid) with true by (symmetry; by apply String.eqb_eq).
    cbn. f_equal. apply forallb_filter_id. apply forallb_forall.
    intros x Hx. by apply negb_true_iff, String.eqb_neq, Hpre.
  - unfold get_rule_by_id, remove_rule. cbn.
    apply (find_none_filter (fun rule => String.eqb (rule_id rule) rid)).
Qed.

Lemma lookup_first_removal_all_witness :
  get_rule_by_id (add_rule new_rule_base R1_again) "R1" = Some R1 /\
  length (rules (remove_rule (add_rule new_rule_base R1_again) "R1")) = 7%nat.
Proof.
  destruct (lookup_first_removal_all (add_rule new_rule_base R1_again) "R1"
              [] [R2; R3; R4; R5; R6; R7; R8; R1_again] R1)
    as (_ & Hget & _ & Hrm & _).
  - reflexivity.
  - reflexivity.
  - intros x [].
  - split; [exact Hget | rewrite Hrm; reflexivity].
Defined.

(** ** Rule evaluation *)

Section EvaluateFacts.

Variable a : Applicant.

Local Abbreviation holds := (fun c => condition_check a c = Ok true).




(** Any list of antecedents either holds throughout or splits at a first
    failing antecedent. *)
Lemma first_failure conds :
  Forall holds conds \/
  exists pre c post,
    conds = pre ++ c :: post /\ Forall holds pre /\ condition_check a c <> Ok true.
Proof.
  induction conds as [| c conds IH]; [left; constructor |].
  destruct (condition_check a c) as [[|] | e] eqn:Hc.
  - destruct IH as [Hall | (pre & c' & post & -> & Hpre & Hc')].
    + left. by constructor.
    + right. exists (c :: pre), c', post. repeat split; [by constructor | done].
  - right. exists [], c, conds. repeat split; [constructor | congruence].
  - right. exists [], c, conds. repeat split; [constructor | congruence].
Qed.
















End EvaluateFacts.



(** Names the class provides are not absent: a condition on one of them is
    a comparison with an object. *)
Example class_attribute_is_present :
  _evaluate_condition A5 "__class__" "!=" (Scalar (PyInt 5)) = Ok true /\
  _evaluate_condition A5 "__dict__" "==" (Scalar (PyInt 5)) = Ok false /\
  _evaluate_condition A5 "__weakref__" "!=" (Scalar (PyInt 5)) = Ok false /\
  _evaluate_condition A5 "no_such_field" "!=" (Scalar (PyInt 5)) = Ok false.
Proof. repeat split; vm_compute; reflexivity. Qed.

(** String operands are indexed by code point. *)
Example in_range_string_operand :
  subscript (Scalar (PyStr "aé")) 1 = Ok (PyStr "é") /\
  subscript (Scalar (PyStr "é")) 1 = Raise IndexError /\
  _evaluate_condition A5 "existing_debt" "in_range" (Scalar (PyStr "Aé")) = Ok true.
Proof. repeat split; vm_compute; reflexivity. Qed.

(** ** Conflict resolver: the order on keys *)

Section KeyOrder.

Lemma str_ltb_lt s t : String.ltb s t = true <-> String_as_OT.lt s t.
Proof.
  rewrite <- String_as_OT.cmp_lt. unfold String.ltb, String_as_OT.cmp.
  destruct (String.compare s t); split; congruence.
Qed.

Lemma str_ltb_irrefl s : String.ltb s s = false.
Proof.
  destruct (String.ltb s s) eqn:E; [| done].
  apply str_ltb_lt, String_as_OT.lt_not_eq in E. by destruct E.
Qed.

Lemma str_ltb_trans s t u :
  String.ltb s t = true -> String.ltb t u = true -> String.ltb s u = true.
Proof. rewrite !str_ltb_lt. apply String_as_OT.lt_trans. Qed.

Lemma str_ltb_total s t : s <> t -> String.ltb s t = true \/ String.ltb t s = true.
Proof.
  intros Hne. unfold String.ltb. rewrite (String.compare_antisym t s).
  destruct (String.compare s t) eqn:E; cbn; auto.
  apply String.compare_eq_iff in E. contradiction.
Qed.

Lemma key_gt_iff a1 b1 s1 a2 b2 s2 :
  key_gt (a1, b1, s1) (a2, b2, s2) = true <->
  a2 < a1 \/ (a1 = a2 /\ (b2 < b1 \/ (b1 = b2 /\ String.ltb s2 s1 = true))).
Proof.
  unfold key_gt.
  destruct (Z.eqb_spec a1 a2) as [-> | Ha]; cbn [negb].
  - destruct (Z.eqb_spec b1 b2) as [-> | Hb]; cbn [negb].
    + split; [auto | intros [? | [_ [? | [_ ?]]]]; [lia | lia | done]].
    + rewrite Z.gtb_gt. split; [lia | intros [? | [_ [? | [? _]]]]; lia].
  - rewrite Z.gtb_gt. split; [lia | intros [? | [? _]]; lia].
Qed.

Lemma key_lt_irrefl x : ~ key_lt x x.
Proof.
  destruct x as [[a b] s]. unfold key_lt. rewrite key_gt_iff, str_ltb_irrefl.
  intros [? | [_ [? | [_ ?]]]]; [lia | lia | done].
Qed.

Lemma key_lt_trans x y z : key_lt x y -> key_lt y z -> key_lt x z.
Proof.
  destruct x as [[a1 b1] s1], y as [[a2 b2] s2], z as [[a3 b3] s3].
  unfold key_lt. rewrite !key_gt_iff.
  intros [? | [-> [? | [-> H12]]]] [? | [-> [? | [-> H23]]]];
    try (left; lia); try (right; split; [done |]; left; lia).
  right. split; [done |]. right. split; [done |]. by eapply str_ltb_trans.
Qed.

Lemma key_lt_total x y : x = y \/ key_lt x y \/ key_lt y x.
Proof.
  destruct x as [[a1 b1] s1], y as [[a2 b2] s2].
  unfold key_lt. rewrite !key_gt_iff.
  destruct (Z.lt_trichotomy a1 a2) as [? | [-> | ?]]; [right; left; lia | | right; right; lia].
  destruct (Z.lt_trichotomy b1 b2) as [? | [-> | ?]];
    [right; left; right; split; [done |]; left; lia | |
     right; right; right; split; [done |]; left; lia].
  destruct (String.string_dec s1 s2) as [-> | Hne]; [by left |].
  destruct (str_ltb_total s1 s2 Hne); [right; left | right; right];
    (right; split; [done |]; right; split; [done |]; done).
Qed.

(** Not greater, then strictly smaller, gives strictly smaller. *)
Lemma key_le_lt_trans x y z : ~ key_lt y x -> key_lt y z -> key_lt x z.
Proof.
  intros Hn Hlt. destruct (key_lt_total x y) as [-> | [H | H]];
    [done | by eapply key_lt_trans | contradiction].
Qed.

(** Keys end in the rule identifier, so rules with different identifiers
    never tie. *)
Lemma key_lt_of_distinct_ids x y :
  snd x <> snd y -> ~ key_lt y x -> key_lt x y.
Proof.
  intros Hid Hn. destruct (key_lt_total x y) as [-> | [H | H]];
    [contradiction | done | contradiction].
Qed.

End KeyOrder.

Section PyMax.

Context {A : Type} (key : A -> Key).

Lemma py_max_snoc first rest x :
  py_max key first (rest ++ [x]) =
  if key_gt (key x) (key (py_max key first rest)) then x else py_max key first rest.
Proof. unfold py_max. by rewrite fold_left_app. Qed.

(** [max] returns the earliest element whose key no other element
    exceeds: everything before it is strictly smaller, nothing after it is
    greater. *)
Lemma py_max_spec first rest :
  exists pre post,
    first :: rest = pre ++ py_max key first rest :: post /\
    (forall x, In x pre -> key_lt (key x) (key (py_max key first rest))) /\
    (forall x, In x post -> ~ key_lt (key (py_max key first rest)) (key x)).
Proof.
  induction rest as [| x rest IH] using rev_ind.
  - exists [], []. cbn. repeat split; intros x [].
  - destruct IH as (pre & post & Hsplit & Hpre & Hpost).
    rewrite py_max_snoc. set (w := py_max key first rest) in *.
    destruct (key_gt (key x) (key w)) eqn:Hgt.
    + exists (pre ++ w :: post), []. repeat split.
      * by rewrite app_comm_cons, Hsplit.
      * intros y Hy. apply in_app_or in Hy as [Hy | [<- | Hy]].
        -- eapply key_lt_trans; [by apply Hpre | exact Hgt].
        -- exact Hgt.
        -- eapply key_le_lt_trans; [by apply Hpost | exact Hgt].
      * intros y [].
    + exists pre, (post ++ [x]). repeat split.
      * by rewrite app_comm_cons, Hsplit, <- app_assoc.
      * exact Hpre.
      * intros y Hy. apply in_app_or in Hy as [Hy | [<- | []]]; [by apply Hpost |].
        unfold key_lt. by rewrite Hgt.
Qed.

End PyMax.

(** ** Conflict resolver: [resolve] *)

Section ResolveFacts.

Lemma priority_level_values p :
  dict_get0 PRIORITY_LEVELS p =
  if String.eqb p "High" then 3
  else if String.eqb p "Medium" then 2
  else if String.eqb p "Low" then 1
  else 0.
Proof.
  unfold dict_get0, PRIORITY_LEVELS.
  destruct (String.eqb_spec p "High") as [-> | H1]; [by rewrite lookup_insert_eq |].
  rewrite lookup_insert_ne by done.
  destruct (String.eqb_spec p "Medium") as [-> | H2]; [by rewrite lookup_insert_eq |].
  rewrite lookup_insert_ne by done.
  destruct (String.eqb_spec p "Low") as [-> | H3]; [by rewrite lookup_singleton_eq |].
  by rewrite lookup_singleton_ne.
Qed.

Lemma strategy_key_cases cr key :
  strategy_key cr = Some key ->
  (key = priority_key cr \/ key = specificity_key cr) /\
  forall first rest tl,
    fst (resolve cr (first :: rest) tl) =
    Some (match rest with [] => first | _ => py_max key first rest end).
Proof.
  unfold strategy_key, resolve. intros Hk.
  destruct (String.eqb (strategy cr) "priority") eqn:E1.
  { injection Hk as <-. split; [by left |]. by intros first [| r rest] tl. }
  destruct (String.eqb_spec (strategy cr) "priority_specificity") as [E2 | E2].
  { injection Hk as <-. split; [by left |].
    intros first [| r rest] tl; [done |]. by rewrite E2. }
  destruct (String.eqb (strategy cr) "specificity") eqn:E3; [| discriminate].
  injection Hk as <-. split; [by right |]. by intros first [| r rest] tl.
Qed.

Lemma strategy_key_ends_in_id cr key r :
  key = priority_key cr \/ key = specificity_key cr -> snd (key r) = rule_id r.
Proof. by intros [-> | ->]. Qed.

End ResolveFacts.

(** The strategy's key of one rule is below that of another exactly when
    the rules compare so component by component. *)
Lemma strategy_key_below cr key x y :
  strategy_key cr = Some key ->
  let level := fun r => dict_get0 (priority_levels cr) (priority r) in
  let major := fun r =>
    if String.eqb (strategy cr) "specificity" then specificity r else level r in
  let minor := fun r =>
    if String.eqb (strategy cr) "specificity" then level r else specificity r in
  key_lt (key x) (key y) <->
  major x < major y \/
  (major x = major y /\
   (minor x < minor y \/
    (minor x = minor y /\ String.ltb (rule_id x) (rule_id y) = true))).
Proof.
  intros Hk. cbv zeta. unfold strategy_key in Hk. unfold key_lt.
  destruct (String.eqb_spec (strategy cr) "priority") as [E | _].
  { injection Hk as <-. rewrite E. cbn [String.eqb Ascii.eqb Bool.eqb].
    unfold priority_key. rewrite key_gt_iff. intuition congruence. }
  destruct (String.eqb_spec (strategy cr) "priority_specificity") as [E | _].
  { injection Hk as <-. rewrite E. cbn [String.eqb Ascii.eqb Bool.eqb].
    unfold priority_key. rewrite key_gt_iff. intuition congruence. }
  destruct (String.eqb (strategy cr) "specificity"); [| discriminate].
  injection Hk as <-. unfold specificity_key. rewrite key_gt_iff. intuition congruence.
Qed.

Lemma named_strategy_key cr :
  In (strategy cr) ["priority"; "specificity"; "priority_specificity"] ->
  exists key, strategy_key cr = Some key.
Proof.
  unfold strategy_key. intros [<- | [<- | [<- | []]]]; cbn; by eexists.
Qed.

(** C6.  [resolve] returns [None] for no candidates and the candidate
    itself for exactly one.  For two or more candidates under one of the
    three named strategies the winner is a candidate that is maximal in the
    lexicographic order on (priority level, specificity, identifier) -- for
    [priority] and [priority_specificity] -- or on (specificity, priority
    level, identifier) -- for [specificity] --, identifiers being compared
    as strings and the greater one winning a tie in the first two
    components.  Written out with [below x y] for "[x] comes strictly
    before [y] in that order": every candidate listed before the winner is
    below it, the winner is below no candidate listed after it, and every
    candidate with a different identifier is below it, so among rules with
    distinct identifiers the winner is unique.  The priority levels of a
    resolver are High=3, Medium=2, Low=1 and 0 for any other name. *)
Theorem resolve_maximum_under_strategy (cr : ConflictResolver)
    (fired_rules : list Rule) (tl : option TraceLogger) :
  In (strategy cr) ["priority"; "specificity"; "priority_specificity"] ->
  (2 <= length fired_rules)%nat ->
  let level := fun r => dict_get0 (priority_levels cr) (priority r) in
  let major := fun r =>
    if String.eqb (strategy cr) "specificity" then specificity r else level r in
  let minor := fun r =>
    if String.eqb (strategy cr) "specificity" then level r else specificity r in
  let below := fun x y =>
    major x < major y \/
    (major x = major y /\
     (minor x < minor y \/
      (minor x = minor y /\ String.ltb (rule_id x) (rule_id y) = true))) in
  fst (resolve cr [] tl) = None /\
  (forall r, fst (resolve cr [r] tl) = Some r) /\
  (exists w pre post,
     fst (resolve cr fired_rules tl) = Some w /\
     fired_rules = pre ++ w :: post /\
     (forall x, In x pre -> below x w) /\
     (forall x, In x post -> ~ below w x) /\
     (forall x, In x fired_rules -> rule_id x <> rule_id w -> below x w)) /\
  (forall s, priority_levels (new_resolver s) = PRIORITY_LEVELS) /\
  (forall s p,
     dict_get0 (priority_levels (new_resolver s)) p =
     if String.eqb p "High" then 3
     else if String.eqb p "Medium" then 2
     else if String.eqb p "Low" then 1
     else 0).
Proof.
  intros Hnamed Hlen. cbv zeta.
  destruct (named_strategy_key cr Hnamed) as [key Hk].
  destruct (strategy_key_cases cr key Hk) as [Hshape Hres].
  pose proof (fun x y => strategy_key_below cr key x y Hk) as Hbelow. cbv zeta in Hbelow.
  split; [done |]. split; [done |].
  split; [| split; [done | intros s p; apply priority_level_values]].
  destruct fired_rules as [| first [| second rest]]; cbn in Hlen; try lia.
  destruct (py_max_spec key first (second :: rest)) as (pre & post & Hsplit & Hpre & Hpost).
  exists (py_max key first (second :: rest)), pre, post.
  split; [by rewrite Hres |]. split; [done |].
  split; [intros x Hx; apply Hbelow; by apply Hpre |].
  split; [intros x Hx Hb; apply Hbelow in Hb; by apply (Hpost x) |].
  intros x Hx Hid. apply Hbelow. rewrite Hsplit in Hx.
  apply in_app_or in Hx as [Hx | [<- | Hx]]; [by apply Hpre | done |].
  apply key_lt_of_distinct_ids; [| by apply Hpost].
  by rewrite !(strategy_key_ends_in_id cr key).
Qed.

(** The resolver test of the repository: [R5] (Low) against [R1] (High)
    under the [priority] strategy; the winner is the one with the higher
    priority level. *)
Lemma resolve_maximum_under_strategy_witness :
  exists w pre post,
    fst (resolve (new_resolver (Some "priority")) [R5; R1] None) = Some w /\
    [R5; R1] = pre ++ w :: post /\
    (forall x, In x [R5; R1] -> rule_id x <> rule_id w ->
       dict_get0 PRIORITY_LEVELS (priority x) < dict_get0 PRIORITY_LEVELS (priority w) \/
       (dict_get0 PRIORITY_LEVELS (priority x) = dict_get0 PRIORITY_LEVELS (priority w) /\
        (specificity x < specificity w \/
         (specificity x = specificity w /\
          String.ltb (rule_id x) (rule_id w) = true)))).
Proof.
  pose proof (resolve_maximum_under_strategy (new_resolver (Some "priority")) [R5; R1] None)
    as H.
  cbv zeta in H. destruct H as (_ & _ & (w & pre & post & Hw & Hsplit & _ & _ & Hall) & _).
  - cbn. tauto.
  - cbn. lia.
  - exists w, pre, post. split; [exact Hw |]. split; [exact Hsplit |]. exact Hall.
Defined.

(** The two orders tell rules apart: a higher priority level beats a
    higher specificity under [priority], and the other way round under
    [specificity]. *)
Example resolve_orders_differ :
  fst (resolve (new_resolver (Some "priority")) [R2; R1] None) = Some R1 /\
  fst (resolve (new_resolver (Some "priority_specificity")) [R2; R1] None) = Some R1 /\
  fst (resolve (new_resolver (Some "specificity")) [R2; R1] None) = Some R2 /\
  fst (resolve (new_resolver (Some "specificity")) [R4; R2] None) = Some R2.
Proof. repeat split; vm_compute; reflexivity. Qed.

Example resolve_priority_test :
  fst (resolve (new_resolver (Some "priority")) [R5; R1] None) = Some R1.
Proof. vm_compute. reflexivity. Qed.

(** Among candidates of equal priority and specificity the greater
    identifier wins, in string order: R3 over R1, and R9 over R10. *)
Example resolve_identifier_tie_break :
  fst (resolve (new_resolver None) [R3; R1] None) = Some R3 /\
  fst (resolve (new_resolver None)
         [mkRule "R9" [] "Reject Loan" "High" 1 "" 0;
          mkRule "R10" [] "Reject Loan" "High" 1 "" 0] None) =
    Some (mkRule "R9" [] "Reject Loan" "High" 1 "" 0).
Proof. split; vm_compute; reflexivity. Qed.

Example resolve_specificity_test :
  fst (resolve (new_resolver (Some "specificity")) [R1; R2] None) = Some R2.
Proof. vm_compute. reflexivity. Qed.

(** ** Conflict resolver: [resolve_by_decision] *)

Section ResolveByDecisionFacts.

Variable cr : ConflictResolver.

(** A tuple score never compares against the integer that [best_score]
    starts with. *)
Lemma score_gt_tuple_int a b c n : score_gt (ScoreTuple a b c) (ScoreInt n) = Raise TypeError.
Proof. reflexivity. Qed.

(** Consequently no iteration of the loop updates [best_decision] or
    [best_score]. *)
Lemma resolve_by_decision_step_stuck n tl item :
  exists tl', resolve_by_decision_step cr (None, ScoreInt n, tl) item = (None, ScoreInt n, tl').
Proof.
  destruct item as [d [| r rs]]; cbn -[resolve]; [by eexists |].
  destruct (resolve cr (r :: rs) tl) as [[w |] tl']; by eexists.
Qed.

Lemma resolve_by_decision_loop_stuck n groups tl :
  exists tl',
    fold_left (resolve_by_decision_step cr) groups (None, ScoreInt n, tl) =
    (None, ScoreInt n, tl').
Proof.
  revert tl. induction groups as [| item groups IH]; intros tl; cbn [fold_left].
  - by eexists.
  - destruct (resolve_by_decision_step_stuck n tl item) as [tl' ->]. apply IH.
Qed.

(** Whatever the grouping, the decision returned is the fallback. *)
Lemma resolve_by_decision_always_fallback groups tl :
  fst (resolve_by_decision cr groups tl) = "Manual Review".
Proof.
  unfold resolve_by_decision.
  by destruct (resolve_by_decision_loop_stuck (-1) groups tl) as [tl' ->].
Qed.

End ResolveByDecisionFacts.

(** C1 (the code departs from it).  On the grouping
    [{'Approve Loan': [R1], 'Reject Loan': [R6]}] -- what forward chaining
    derives for the under-21 applicant of the tests -- the precedence table
    ranks Reject Loan (4) above Approve Loan (1), yet
    [resolve_by_decision] returns the fallback 'Manual Review'; it does so
    even when Reject Loan is the only group. *)
Theorem resolve_by_decision_returns_fallback :
  fst (resolve_by_decision (new_resolver None)
         [("Approve Loan", [R1]); ("Reject Loan", [R6])] None) = "Manual Review" /\
  fst (resolve_by_decision (new_resolver None) [("Reject Loan", [R6])] None) = "Manual Review" /\
  decision_priority !! "Reject Loan" = Some 4 /\
  decision_priority !! "Approve Loan" = Some 1.
Proof. repeat split; vm_compute; reflexivity. Qed.

(** ** Backward chaining *)

Section BackwardFacts.

Variables (rb : RuleBase) (cr : ConflictResolver) (a : Applicant).

Lemma bc_fold_satisfied goal indent l sat tl :
  fst (fold_left (bc_rule_step a goal indent) l (sat, tl)) =
  sat ++ List.filter (fun r => evaluate r a) l.
Proof.
  revert sat tl. induction l as [| r l IH]; intros sat tl; cbn [fold_left List.filter].
  - by rewrite app_nil_r.
  - unfold bc_rule_step at 2. destruct (evaluate r a).
    + by rewrite IH, <- app_assoc.
    + by rewrite IH.
Qed.

Lemma existsb_filter_nil {A} (p : A -> bool) l :
  existsb p l = match List.filter p l with [] => false | _ => true end.
Proof. induction l as [| x l IH]; cbn; [done |]. by destruct (p x). Qed.

(** Every activation of [_prove_goal] records itself and nothing else. *)
Lemma prove_goal_calls goal depth bc :
  prove_calls (snd (_prove_goal rb cr goal a depth bc)) = prove_calls bc ++ [depth].
Proof.
  unfold _prove_goal. cbn [proven_goals failed_goals].
  repeat case_decide; [done | done |].
  destruct (depth >? 10); [done |].
  destruct (get_rules_by_consequent rb goal) as [| r rs]; [done |].
  destruct (fold_left _ _ _) as [[| f others] tl]; [done |].
  destruct others; [done |].
  by destruct (resolve cr _ _).
Qed.

(** A goal that is not memoised, at a depth within the guard: the result
    is [provable], and the goal is added to the matching memo set. *)
Lemma prove_goal_fresh goal depth bc :
  goal ∉ proven_goals bc -> goal ∉ failed_goals bc -> depth <= 10 ->
  let res := _prove_goal rb cr goal a depth bc in
  fst res = provable rb a goal /\
  proven_goals (snd res) =
    (if provable rb a goal then {[goal]} ∪ proven_goals bc else proven_goals bc) /\
  failed_goals (snd res) =
    (if provable rb a goal then failed_goals bc else {[goal]} ∪ failed_goals bc).
Proof.
  intros Hp Hf Hd. unfold _prove_goal, provable. cbn [proven_goals failed_goals].
  rewrite !decide_False by done.
  destruct (Z.gtb_spec depth 10); [lia |].
  rewrite existsb_filter_nil.
  destruct (get_rules_by_consequent rb goal) as [| r rs] eqn:Hrules; [done |].
  pose proof (bc_fold_satisfied goal (indent_of depth) (r :: rs) []
                (bc_logger (bc_log "SYSTEM" (indent_of depth +:+ "Proving goal: " +:+ goal)
                   (mkBC (bc_logger bc) (proven_goals bc) (failed_goals bc)
                         (prove_calls bc ++ [depth]))))) as Hsat.
  cbn [app] in Hsat.
  destruct (fold_left _ _ _) as [sat tl]. cbn [fst] in Hsat. rewrite <- Hsat.
  destruct sat as [| f others]; [done |].
  destruct others; [done |].
  by destruct (resolve cr _ _).
Qed.

Lemma bc_goal_loop_find gs bc :
  NoDup gs ->
  (forall g, In g gs -> (g ∉ proven_goals bc) /\ (g ∉ failed_goals bc)) ->
  fst (bc_goal_loop rb cr a gs bc) = List.find (provable rb a) gs.
Proof.
  revert bc. induction gs as [| goal rest IH]; intros bc Hnd Hfresh; [done |].
  cbn [bc_goal_loop List.find].
  set (bc1 := bc_log "SYSTEM" ("Attempting to prove goal: " +:+ goal) bc).
  destruct (Hfresh goal (or_introl eq_refl)) as [Hp Hf].
  assert (0 <= 10) as Hdepth by lia.
  destruct (prove_goal_fresh goal 0 bc1 Hp Hf Hdepth) as (Hres & Hproven & Hfailed).
  destruct (_prove_goal rb cr goal a 0 bc1) as [proved bc2].
  cbn [fst snd] in Hres, Hproven, Hfailed. rewrite Hres.
  destruct (provable rb a goal); [done |].
  apply NoDup_cons in Hnd as [Hnotin Hnd].
  apply IH; [done |]. intros g Hg.
  destruct (Hfresh g (or_intror Hg)) as [Hgp Hgf].
  rewrite Hproven, Hfailed. split; [done |].
  assert (g <> goal) by (intros ->; apply Hnotin; by apply list_elem_of_In).
  rewrite elem_of_union, elem_of_singleton. by intros [? | ?].
Qed.

Lemma goals_NoDup : NoDup goals.
Proof. compute_done. Qed.

Lemma bc_infer_decision bc0 :
  fst (fst (fst (bc_infer rb cr bc0 a))) =
  match List.find (provable rb a) goals with
  | Some g => g
  | None => "Manual Review"
  end.
Proof.
  unfold bc_infer.
  pose proof (bc_goal_loop_find goals
                (mkBC (start "Backward Chaining" (applicant_id a) (bc_logger bc0)) ∅ ∅ [])
                goals_NoDup) as Hloop.
  destruct (bc_goal_loop rb cr a goals _) as [found bc2].
  cbn [fst] in Hloop.
  rewrite Hloop by (intros g _; cbn; split; apply not_elem_of_empty).
  by destruct (List.find (provable rb a) goals).
Qed.

End BackwardFacts.

(** C5.  [BackwardChaining.infer] returns the first goal, in the order
    Reject Loan, Approve Loan, Approve with Conditions, Manual Review, for
    which some rule with that consequent evaluates true on the fact record
    -- a test on the rules' own antecedents only -- and 'Manual Review'
    when there is no such goal. *)
Theorem backward_first_provable_goal (rb : RuleBase) (cr : ConflictResolver)
    (bc0 : BackwardChaining) (a : Applicant) :
  goals = ["Reject Loan"; "Approve Loan"; "Approve with Conditions"; "Manual Review"] /\
  fst (fst (fst (bc_infer rb cr bc0 a))) =
    match List.find
            (fun goal =>
               existsb (fun r => evaluate r a)
                       (List.filter (fun r => String.eqb (consequent r) goal) (rules rb)))
            goals with
    | Some goal => goal
    | None => "Manual Review"
    end.
Proof. split; [reflexivity | apply bc_infer_decision]. Qed.

(** ** Forward chaining *)

Section ForwardFacts.

Variables (rb : RuleBase) (a : Applicant).

Lemma fc_fold_this_iteration fired l ti dec tl :
  fst (fst (fold_left (fc_rule_step a fired) l (ti, dec, tl))) =
  ti ++ List.filter (fun r => negb (already_fired fired r) && evaluate r a) l.
Proof.
  revert ti dec tl. induction l as [| r l IH]; intros ti dec tl; cbn [fold_left List.filter].
  - by rewrite app_nil_r.
  - unfold fc_rule_step at 2. fold (already_fired fired r).
    destruct (already_fired fired r); cbn [negb andb]; [apply IH |].
    destruct (evaluate r a); [| apply IH].
    by rewrite IH, <- app_assoc.
Qed.

Lemma dict_append_keys (Q : string -> Prop) dec k r :
  Forall (fun kv => Q (fst kv)) dec -> Q k ->
  Forall (fun kv => Q (fst kv)) (dict_append dec k r).
Proof.
  intros Hdec Hk. unfold dict_append. destruct (dict_contains dec k).
  - induction Hdec as [| kv dec Hkv _ IH]; cbn; [constructor |].
    constructor; [| exact IH]. by destruct (String.eqb (fst kv) k).
  - apply Forall_app. split; [done |]. by constructor.
Qed.

Lemma fc_fold_keys (Q : string -> Prop) fired l ti dec tl :
  (forall r, In r l -> Q (consequent r)) ->
  Forall (fun kv => Q (fst kv)) dec ->
  Forall (fun kv => Q (fst kv)) (snd (fst (fold_left (fc_rule_step a fired) l (ti, dec, tl)))).
Proof.
  revert ti dec tl. induction l as [| r l IH]; intros ti dec tl Hl Hdec; [done |].
  cbn [fold_left]. unfold fc_rule_step at 2.
  assert (forall r', In r' l -> Q (consequent r')) as Hl' by (intros; apply Hl; by right).
  destruct (existsb _ _); [by apply IH |].
  destruct (evaluate r a); [| by apply IH].
  apply IH; [done |]. apply dict_append_keys; [done |]. apply Hl. by left.
Qed.

Lemma fc_while_keys (Q : string -> Prop) n st :
  (forall r, In r (rules rb) -> Q (consequent r)) ->
  Forall (fun kv => Q (fst kv)) (decisions st) ->
  Forall (fun kv => Q (fst kv)) (decisions (fc_while n rb a st)).
Proof.
  intros Hrb. revert st. induction n as [| n IH]; intros st Hst; [done |].
  cbn [fc_while].
  pose proof (fc_fold_keys Q (rules_fired st) (get_all_rules rb) [] (decisions st)
                (fc_logger st) Hrb Hst) as Hkeys.
  destruct (fold_left _ _ _) as [[ti dec] tl]. cbn [fst snd] in Hkeys.
  destruct ti; [done |]. by apply IH.
Qed.

(** The pass counter never exceeds the number of passes allowed. *)
Lemma fc_while_iteration_le n st :
  (iteration (fc_while n rb a st) <= iteration st + n)%nat.
Proof.
  revert st. induction n as [| n IH]; intros st; cbn [fc_while]; [lia |].
  destruct (fold_left _ _ _) as [[ti dec] tl].
  destruct ti; cbn [iteration]; [lia |].
  etrans; [apply IH |]. cbn [iteration]. lia.
Qed.

Lemma already_fired_app_l fired more r :
  already_fired fired r = true -> already_fired (fired ++ more) r = true.
Proof.
  unfold already_fired. rewrite map_app, existsb_app. by intros ->.
Qed.

Lemma already_fired_in fired r : In r fired -> already_fired fired r = true.
Proof.
  intros Hin. unfold already_fired. apply existsb_exists.
  exists (rule_id r). split; [by apply in_map | apply String.eqb_refl].
Qed.

Lemma already_fired_app_r fired more r :
  already_fired more r = true -> already_fired (fired ++ more) r = true.
Proof.
  unfold already_fired. rewrite map_app, existsb_app. intros ->. apply orb_true_r.
Qed.

Lemma one_pass_saturates fired :
  saturated rb a (fired ++
    List.filter (fun r => negb (already_fired fired r) && evaluate r a) (rules rb)).
Proof.
  intros r Hin Hev. destruct (already_fired fired r) eqn:Hf.
  - by apply already_fired_app_l.
  - apply already_fired_app_r, already_fired_in, filter_In. split; [done |].
    by rewrite Hf, Hev.
Qed.

Lemma filter_none {A} (p : A -> bool) l :
  (forall x, In x l -> p x = false) -> List.filter p l = [].
Proof.
  induction l as [| x l IH]; intros Hl; cbn; [done |].
  rewrite (Hl x) by (by left). apply IH. intros y Hy. apply Hl. by right.
Qed.

Lemma saturated_pass_fires_nothing fired :
  saturated rb a fired ->
  List.filter (fun r => negb (already_fired fired r) && evaluate r a) (rules rb) = [].
Proof.
  intros Hsat. apply filter_none. intros r Hin.
  destruct (evaluate r a) eqn:Hev; [| by rewrite andb_false_r].
  by rewrite (Hsat r Hin Hev).
Qed.

Lemma fc_while_saturated n st :
  saturated rb a (rules_fired st) ->
  (iteration (fc_while n rb a st) <= iteration st + 1)%nat.
Proof.
  intros Hsat. destruct n as [| n]; cbn [fc_while]; [lia |].
  pose proof (fc_fold_this_iteration (rules_fired st) (get_all_rules rb) []
                (decisions st) (fc_logger st)) as Hti.
  destruct (fold_left _ _ _) as [[ti dec] tl]. cbn [fst app] in Hti.
  unfold get_all_rules in Hti. rewrite saturated_pass_fires_nothing in Hti by done.
  subst ti. cbn [iteration]. lia.
Qed.

(** From any state the loop makes at most two further passes: the first
    fires every rule that can fire, the second fires none and breaks. *)
Lemma fc_while_two_passes n st :
  (iteration (fc_while n rb a st) <= iteration st + 2)%nat.
Proof.
  destruct n as [| n]; cbn [fc_while]; [lia |].
  pose proof (fc_fold_this_iteration (rules_fired st) (get_all_rules rb) []
                (decisions st) (fc_logger st)) as Hti.
  destruct (fold_left _ _ _) as [[ti dec] tl]. cbn [fst app] in Hti.
  destruct ti as [| r ti]; cbn [iteration]; [lia |].
  etrans; [apply fc_while_saturated |]; cbn [rules_fired iteration]; [| lia].
  rewrite Hti. apply one_pass_saturates.
Qed.

Lemma fc_run_iteration_le tl0 :
  (iteration (fc_run rb tl0 a) <= 2 * length (rules rb))%nat /\
  (iteration (fc_run rb tl0 a) <= 2)%nat.
Proof.
  unfold fc_run. split.
  - etrans; [apply fc_while_iteration_le |].
    unfold max_iterations, get_all_rules. cbn [iteration]. lia.
  - etrans; [apply fc_while_two_passes |]. cbn [iteration]. lia.
Qed.

(** The decision of forward chaining is the fallback or a consequent
    satisfying any predicate that all consequents of the rule base and the
    fallback satisfy. *)
Lemma fc_infer_decision_in (Q : string -> Prop) cr tl0 :
  (forall r, In r (rules rb) -> Q (consequent r)) -> Q "Manual Review" ->
  Q (fst (fst (fst (fc_infer rb cr tl0 a)))).
Proof.
  intros Hrb Hmr. unfold fc_infer.
  pose proof (fc_while_keys Q (max_iterations rb)
                (mkFC 0 [] []
                   (log "SYSTEM" "Initial facts: " None
                      (start "Forward Chaining" (applicant_id a) tl0)))
                Hrb (Forall_nil_2 _)) as Hkeys.
  fold (fc_run rb tl0 a) in Hkeys.
  destruct (decisions (fc_run rb tl0 a)) as [| [d rs] [| kv more]] eqn:Hdec; cbn [fst].
  - done.
  - by apply Forall_cons_1 in Hkeys as [Hd _].
  - pose proof (resolve_by_decision_always_fallback cr ((d, rs) :: kv :: more)
                  (Some (fc_logger (fc_run rb tl0 a)))) as Hfb.
    destruct (resolve_by_decision _ _ _) as [d' otl]. cbn [fst] in Hfb. by subst d'.
Qed.

End ForwardFacts.

(** C8.  The loop of [ForwardChaining.infer] makes at most
    [2 * |rule base|] passes whatever the rules and the fact record are (in
    fact never more than two: the second pass fires nothing).  A call of
    [_prove_goal] is a single activation -- it never calls itself -- and a
    fresh goal at a depth beyond the guard of 10 is refused at once;
    [BackwardChaining.infer] makes at most four such calls, all at depth 0. *)
Theorem chaining_terminates (rb : RuleBase) (cr : ConflictResolver)
    (tl0 : TraceLogger) (bc0 bc : BackwardChaining) (a : Applicant)
    (goal : string) (depth : Z) :
  (iteration (fc_run rb tl0 a) <= 2 * length (rules rb))%nat /\
  (iteration (fc_run rb tl0 a) <= 2)%nat /\
  prove_calls (snd (_prove_goal rb cr goal a depth bc)) = prove_calls bc ++ [depth] /\
  (goal ∉ proven_goals bc -> goal ∉ failed_goals bc -> 10 < depth ->
   fst (_prove_goal rb cr goal a depth bc) = false) /\
  (exists k, (k <= 4)%nat /\
     prove_calls (snd (fst (bc_infer rb cr bc0 a))) = repeat 0 k) /\
  Forall (fun d => d <= 10) (prove_calls (snd (fst (bc_infer rb cr bc0 a)))).
Proof.
  assert (forall gs b, exists k, (k <= length gs)%nat /\
            prove_calls (snd (bc_goal_loop rb cr a gs b)) = prove_calls b ++ repeat 0 k)
    as Hloop.
  { induction gs as [| g gs IH]; intros b.
    - exists 0%nat. cbn. by rewrite app_nil_r.
    - cbn [bc_goal_loop].
      pose proof (prove_goal_calls rb cr a g 0
                    (bc_log "SYSTEM" ("Attempting to prove goal: " +:+ g) b)) as Hcall.
      destruct (_prove_goal rb cr g a 0 _) as [proved b2]. cbn [snd bc_log prove_calls] in Hcall.
      destruct proved.
      + exists 1%nat. cbn. split; [lia | done].
      + destruct (IH b2) as (k & Hk & ->). exists (S k). split; [cbn; lia |].
        rewrite Hcall, <- app_assoc. done. }
  assert (exists k, (k <= 4)%nat /\
            prove_calls (snd (fst (bc_infer rb cr bc0 a))) = repeat 0 k) as Hinfer.
  { unfold bc_infer.
    destruct (Hloop goals
                (mkBC (start "Backward Chaining" (applicant_id a) (bc_logger bc0)) ∅ ∅ []))
      as (k & Hk & Hcalls).
    destruct (bc_goal_loop rb cr a goals _) as [[d |] b2]; cbn [snd] in Hcalls;
      exists k; (split; [exact Hk | exact Hcalls]). }
  split; [apply fc_run_iteration_le |].
  split; [apply fc_run_iteration_le |].
  split; [apply prove_goal_calls |].
  split.
  { intros Hp Hf Hd. unfold _prove_goal. cbn [proven_goals failed_goals].
    rewrite !decide_False by done.
    destruct (Z.gtb_spec depth 10); [done | lia]. }
  split; [exact Hinfer |].
  destruct Hinfer as (k & _ & ->). apply List.Forall_forall. intros d Hd.
  apply repeat_spec in Hd. lia.
Qed.

Section BuiltinRules.

Lemma builtin_consequents_in_goals r :
  In r (rules new_rule_base) -> In (consequent r) goals.
Proof.
  cbn. intros [<- | [<- | [<- | [<- | [<- | [<- | [<- | [<- | []]]]]]]]]; cbn; tauto.
Qed.

Lemma R4_fires a :
  employment_status a = PyStr "Unemployed" -> evaluate R4 a = true.
Proof.
  intros H. unfold evaluate, R4. cbn [antecedents evaluate_loop condition_check].
  unfold _evaluate_condition.
  change (getattr a "employment_status") with (Val (employment_status a)).
  rewrite H. reflexivity.
Qed.

(** The half of the Unemployed property that the code does satisfy:
    backward chaining over the built-in rules rejects every unemployed
    applicant. *)
Lemma backward_unemployed_reject cr bc0 a :
  employment_status a = PyStr "Unemployed" ->
  fst (fst (fst (bc_infer new_rule_base cr bc0 a))) = "Reject Loan".
Proof.
  intros H. rewrite bc_infer_decision. unfold goals. cbn [List.find].
  replace (provable new_rule_base a "Reject Loan") with true; [done |].
  symmetry. unfold provable.
  change (get_rules_by_consequent new_rule_base "Reject Loan") with [R3; R4; R6].
  cbn [existsb]. rewrite (R4_fires a H). by destruct (evaluate R3 a).
Qed.

End BuiltinRules.

(** C2 (the code departs from it).  The unemployed applicant A5 of the
    tests (income 55000, credit 680, age 28) satisfies both R4 (Reject
    Loan) and R8 (Manual Review); forward chaining hands the two groups
    to [resolve_by_decision] and returns 'Manual Review', not 'Reject
    Loan'.  Backward chaining returns 'Reject Loan'. *)
Theorem unemployed_forward_not_rejected :
  employment_status A5 = PyStr "Unemployed" /\
  map fst (decisions (fc_run new_rule_base new_logger A5)) =
    ["Reject Loan"; "Manual Review"] /\
  fst (fst (fst (fc_infer new_rule_base (new_resolver None) new_logger A5))) =
    "Manual Review" /\
  fst (fst (fst (bc_infer new_rule_base (new_resolver None) new_backward_chaining A5))) =
    "Reject Loan".
Proof. repeat split; vm_compute; reflexivity. Qed.

(** ** Rule engine *)

Section EngineFacts.

Lemma fc_infer_writes rb cr tl0 a :
  decision_writes (snd (fc_infer rb cr tl0 a)) =
    decision_writes a ++ [fst (fst (fst (fc_infer rb cr tl0 a)))] /\
  decision (snd (fc_infer rb cr tl0 a)) = Some (fst (fst (fst (fc_infer rb cr tl0 a)))).
Proof.
  unfold fc_infer.
  by destruct (match decisions (fc_run rb tl0 a) with
               | [] => _ | [(d, _)] => _ | _ => _ end) as [final tl3].
Qed.

Lemma bc_infer_writes rb cr bc0 a :
  decision_writes (snd (bc_infer rb cr bc0 a)) =
    decision_writes a ++ [fst (fst (fst (bc_infer rb cr bc0 a)))] /\
  decision (snd (bc_infer rb cr bc0 a)) = Some (fst (fst (fst (bc_infer rb cr bc0 a)))).
Proof.
  unfold bc_infer.
  destruct (bc_goal_loop rb cr a goals _) as [[d |] bc2]; done.
Qed.

Lemma bc_infer_decision_in_goals rb cr bc0 a :
  In (fst (fst (fst (bc_infer rb cr bc0 a)))) goals.
Proof.
  rewrite bc_infer_decision.
  destruct (List.find (provable rb a) goals) as [g |] eqn:E.
  - by apply find_some in E as [? _].
  - cbn. tauto.
Qed.

Lemma merge_priority_of_goal d :
  In d goals ->
  exists p, merge_priority !! d = Some p /\
    (p = 4 /\ d = "Reject Loan" \/ p = 3 /\ d = "Manual Review" \/
     p = 2 /\ d = "Approve with Conditions" \/ p = 1 /\ d = "Approve Loan").
Proof.
  cbn. intros [<- | [<- | [<- | [<- | []]]]];
    [exists 4 | exists 1 | exists 2 | exists 3]; (split; [by vm_compute | tauto]).
Qed.

(** [evaluate_applicant] when both strategies are configured. *)
Lemma evaluate_applicant_both eng a :
  chaining_type eng = "both" ->
  evaluate_applicant eng a =
  let fc := fc_infer (rule_base eng) (conflict_resolver eng) (forward_chain eng) a in
  let bc := bc_infer (rule_base eng) (conflict_resolver eng) (backward_chain eng) (snd fc) in
  let eng' := mkEngine "both" (rule_base eng) (conflict_resolver eng)
                       (snd (fst fc)) (snd (fst bc)) in
  match merge_both (fst (fst (fst fc))) (fst (fst (fst bc))) with
  | Ok (d, why) =>
      (Ok (mkResults (applicant_id a) a (Some (fst (fst fc))) (Some (fst (fst bc)))
                     (Some d) (Some why)),
       eng', set_decision d None (snd bc))
  | Raise e => (Raise e, eng', snd bc)
  end.
Proof.
  intros Hct. unfold evaluate_applicant. rewrite Hct.
  change (String.eqb "both" "forward") with false.
  change (String.eqb "both" "backward") with false.
  change (String.eqb "both" "both") with true. cbn [orb]. cbv zeta.
  destruct (fc_infer _ _ _ a) as [[[fd fs] ftl] a1]. cbn [fst snd].
  destruct (bc_infer _ _ _ a1) as [[[bd bs] bc] a2]. cbn [fst snd].
  by destruct (merge_both fd bd) as [[d why] | e].
Qed.

End EngineFacts.

(** C3.  With both strategies configured and a rule base whose consequents
    are among the four decisions, [evaluate_applicant] returns a result
    that carries both opinions.  If they agree, that decision is final and
    the reasoning says that both methods agree.  If they differ, both have a
    precedence in the table Reject Loan 4, Manual Review 3, Approve with
    Conditions 2, Approve Loan 1, the final decision is the one of strictly
    higher precedence, and the reasoning string quotes both opinions. *)
Theorem evaluate_applicant_merge (eng : RuleEngine) (a : Applicant) :
  chaining_type eng = "both" ->
  (forall r, In r (rules (rule_base eng)) -> In (consequent r) goals) ->
  let fc := fc_infer (rule_base eng) (conflict_resolver eng) (forward_chain eng) a in
  let bc := bc_infer (rule_base eng) (conflict_resolver eng) (backward_chain eng) (snd fc) in
  let fc_decision := fst (fst (fst fc)) in
  let bc_decision := fst (fst (fst bc)) in
  exists res,
    fst (fst (evaluate_applicant eng a)) = Ok res /\
    forward_chaining res = Some (fst (fst fc)) /\
    backward_chaining res = Some (fst (fst bc)) /\
    (fc_decision = bc_decision ->
     final_decision res = Some fc_decision /\
     reasoning res = Some "Both forward and backward chaining agree") /\
    (fc_decision <> bc_decision ->
     exists pf pb,
       merge_priority !! fc_decision = Some pf /\
       merge_priority !! bc_decision = Some pb /\
       (pb < pf /\ final_decision res = Some fc_decision \/
        pf < pb /\ final_decision res = Some bc_decision) /\
       reasoning res =
         Some ("Forward chaining: " +:+ fc_decision +:+
               ", Backward chaining: " +:+ bc_decision)) /\
    merge_priority =
      {[ "Reject Loan" := 4; "Manual Review" := 3;
         "Approve with Conditions" := 2; "Approve Loan" := 1 ]}.
Proof.
  intros Hct Hrb. cbv zeta. rewrite (evaluate_applicant_both eng a Hct). cbv zeta.
  pose proof (fc_infer_decision_in (rule_base eng) a (fun d => In d goals)
                (conflict_resolver eng) (forward_chain eng) Hrb
                (or_intror (or_intror (or_intror (or_introl eq_refl))))) as Hfc.
  destruct (fc_infer _ _ _ a) as [[[fd fs] ftl] a1]. cbn [fst snd] in *.
  pose proof (bc_infer_decision_in_goals (rule_base eng) (conflict_resolver eng)
                (backward_chain eng) a1) as Hbc.
  destruct (bc_infer _ _ _ a1) as [[[bd bs] bc] a2]. cbn [fst snd] in *.
  destruct (merge_priority_of_goal _ Hfc) as (pf & Hpf & Hpfv).
  destruct (merge_priority_of_goal _ Hbc) as (pb & Hpb & Hpbv).
  unfold merge_both. rewrite Hpf, Hpb.
  destruct (String.eqb_spec fd bd) as [Heq | Hne].
  - eexists. cbn [fst]. split; [reflexivity |].
    cbn [forward_chaining backward_chaining final_decision reasoning].
    repeat split; done.
  - eexists. cbn [fst]. split; [reflexivity |].
    cbn [forward_chaining backward_chaining final_decision reasoning].
    split; [done |]. split; [done |]. split; [done |]. split; [| done].
    intros _. exists pf, pb.
    split; [done |]. split; [done |]. split; [| done].
    assert (pf <> pb) as Hp.
    { intros ->. apply Hne.
      destruct Hpfv as [[? ->] | [[? ->] | [[? ->] | [? ->]]]];
      destruct Hpbv as [[? ->] | [[? ->] | [[? ->] | [? ->]]]]; (done || lia). }
    destruct (Z.geb_spec pf pb); [left | right]; (split; [lia | done]).
Qed.

(** The under-21 applicant of the tests: forward chaining says Manual
    Review, backward chaining says Reject Loan, and the merge takes the
    latter. *)
Lemma evaluate_applicant_merge_witness :
  exists res,
    fst (fst (evaluate_applicant (new_engine "both") TEST_AGE)) = Ok res /\
    final_decision res = Some "Reject Loan" /\
    reasoning res =
      Some "Forward chaining: Manual Review, Backward chaining: Reject Loan".
Proof.
  destruct (evaluate_applicant_merge (new_engine "both") TEST_AGE eq_refl
              builtin_consequents_in_goals)
    as (res & Hres & _ & _ & _ & Hdiff & _).
  exists res. split; [exact Hres |].
  destruct Hdiff as (pf & pb & Hpf & Hpb & Hfinal & Hwhy).
  - vm_compute. discriminate.
  - split; [| exact Hwhy].
    assert (pf = 3) as -> by (vm_compute in Hpf; congruence).
    assert (pb = 4) as -> by (vm_compute in Hpb; congruence).
    destruct Hfinal as [[Hlt _] | [_ Hfin]]; [lia | exact Hfin].
Defined.

(** Outside that domain the merge has no precedence to consult: with a rule
    concluding 'Escalate' the two opinions differ and the table lookup
    fails with [KeyError]. *)
Example merge_foreign_consequent_raises :
  fst (fst (evaluate_applicant
              (mkEngine "both" (add_rule new_rule_base R_escalate) (new_resolver None)
                        new_logger new_backward_chaining)
              QUIET)) = Raise KeyError.
Proof. vm_compute. reflexivity. Qed.

(** C7, as the code has it.  Whenever [evaluate_applicant] returns a
    result, the decision field was assigned once by each sub-engine that
    ran (forward first) and then once more by the orchestrator: one
    sub-engine under 'forward' or 'backward', two under 'both'.  The
    orchestrator's assignment is the last one, and the field ends up holding
    the final decision whatever the sub-engines had written. *)
Theorem orchestrator_write_is_last (eng eng' : RuleEngine) (a a' : Applicant)
    (res : Results) :
  evaluate_applicant eng a = (Ok res, eng', a') ->
  exists d,
    final_decision res = Some d /\
    decision a' = Some d /\
    decision_writes a' = decision_writes a ++ sub_engine_decisions res ++ [d] /\
    length (sub_engine_decisions res) =
      (if String.eqb (chaining_type eng) "both" then 2 else 1)%nat.
Proof.
  unfold evaluate_applicant.
  pose proof (fc_infer_writes (rule_base eng) (conflict_resolver eng) (forward_chain eng) a)
    as [Hfw _].
  destruct (String.eqb_spec (chaining_type eng) "forward") as [Ef | Ef].
  { rewrite Ef. change (String.eqb "forward" "backward") with false.
    change (String.eqb "forward" "both") with false. cbn [orb].
    destruct (fc_infer _ _ _ a) as [[[fd fs] ftl] a1]. cbn [fst snd] in Hfw.
    intros [= <- <- <-]. exists fd. unfold sub_engine_decisions.
    cbn. rewrite Hfw. by rewrite <- app_assoc. }
  destruct (String.eqb_spec (chaining_type eng) "backward") as [Eb | Eb].
  { rewrite Eb. change (String.eqb "backward" "both") with false. cbn [orb].
    pose proof (bc_infer_writes (rule_base eng) (conflict_resolver eng)
                  (backward_chain eng) a) as [Hbw _].
    destruct (bc_infer _ _ _ a) as [[[bd bs] bc] a2]. cbn [fst snd] in Hbw.
    intros [= <- <- <-]. exists bd. unfold sub_engine_decisions.
    cbn. rewrite Hbw. by rewrite <- app_assoc. }
  destruct (String.eqb_spec (chaining_type eng) "both") as [Eboth | Eboth];
    cbn [orb]; [| discriminate].
  destruct (fc_infer _ _ _ a) as [[[fd fs] ftl] a1]. cbn [fst snd] in Hfw.
  pose proof (bc_infer_writes (rule_base eng) (conflict_resolver eng)
                (backward_chain eng) a1) as [Hbw _].
  destruct (bc_infer _ _ _ a1) as [[[bd bs] bc] a2]. cbn [fst snd] in Hbw.
  destruct (merge_both fd bd) as [[d why] | e]; [| discriminate].
  intros [= <- <- <-]. exists d. unfold sub_engine_decisions.
  cbn. rewrite Hbw, Hfw. by rewrite <- !app_assoc.
Qed.

Lemma orchestrator_write_is_last_witness :
  exists d,
    final_decision (mkResults "A1" A1
        (Some (fst (fst (fc_infer new_rule_base (new_resolver None) new_logger A1))))
        None (Some "Approve Loan") None) = Some d /\
    decision (snd (evaluate_applicant (new_engine "forward") A1)) = Some d /\
    decision_writes (snd (evaluate_applicant (new_engine "forward") A1)) =
      decision_writes A1 ++ ["Approve Loan"] ++ [d].
Proof.
  destruct (orchestrator_write_is_last (new_engine "forward")
              (snd (fst (evaluate_applicant (new_engine "forward") A1)))
              A1 (snd (evaluate_applicant (new_engine "forward") A1))
              (mkResults "A1" A1
                 (Some (fst (fst (fc_infer new_rule_base (new_resolver None) new_logger A1))))
                 None (Some "Approve Loan") None))
    as (d & Hd & Hdec & Hw & _).
  - vm_compute. reflexivity.
  - exists d. split; [exact Hd |]. split; [exact Hdec |]. exact Hw.
Defined.

(** Not "exactly once": a single call under 'both' assigns the decision
    field three times. *)
Lemma decision_written_three_times :
  decision_writes (snd (evaluate_applicant (new_engine "both") A1)) =
    ["Approve Loan"; "Approve Loan"; "Approve Loan"] /\
  length (decision_writes (snd (evaluate_applicant (new_engine "both") A1))) <> 1%nat.
Proof. split; vm_compute; [reflexivity | discriminate]. Qed.


(** * Further properties of the modelled code *)

(** ** Trace logger: what a capped journal holds *)

Section TruncationFacts.

Lemma do_call_trace c tl tl' :
  do_call c tl = Ok tl' ->
  trace tl' =
  if Z.of_nat (length (trace tl)) <? max_depth tl
  then trace tl ++ [entry_of c] else trace tl.
Proof.
  intros H. apply do_call_ok in H as ->. unfold log. case_match; [| done].
  by destruct (entry_of c).
Qed.

Lemma run_calls_take cs tl tl' :
  Z.of_nat (length (trace tl)) <= max_depth tl ->
  run_calls cs tl = Ok tl' ->
  trace tl' = take (Z.to_nat (max_depth tl)) (trace tl ++ map entry_of cs).
Proof.
  revert tl. induction cs as [| c cs IH]; intros tl Hle; cbn [run_calls map].
  - intros [= <-]. rewrite app_nil_r, take_ge; [done | lia].
  - destruct (do_call c tl) as [tl1 |] eqn:E; [| discriminate]. intros Hrun.
    pose proof (do_call_trace c tl tl1 E) as Htr.
    assert (max_depth tl1 = max_depth tl) as Hmd.
    { apply do_call_ok in E. rewrite E. apply log_max_depth. }
    destruct (Z.ltb_spec (Z.of_nat (length (trace tl))) (max_depth tl)) as [Hroom | Hfull].
    + rewrite (IH tl1); [| rewrite Hmd, Htr, length_app; cbn; lia | done].
      rewrite Hmd, Htr. by rewrite <- app_assoc.
    + rewrite (IH tl1); [| rewrite Hmd, Htr; done | done].
      rewrite Hmd, Htr. rewrite !take_app_le by lia. done.
Qed.

End TruncationFacts.

(** X1.  A run is [start] followed by logging calls.  With a non-negative
    capacity the run never raises, and the journal it leaves is exactly the
    first [max_depth] entries of what was asked for -- the start entry,
    then one entry per call, in call order: entries are dropped only from
    the end, never reordered and never replaced. *)
Theorem run_keeps_first_entries (tl : TraceLogger) (cs : list LogCall)
    (ct id : string) :
  0 <= max_depth tl ->
  exists tl',
    run_calls cs (start ct id tl) = Ok tl' /\
    trace tl' =
    take (Z.to_nat (max_depth tl))
         (mkEntry "SYSTEM" ("Starting " +:+ ct +:+ " for applicant " +:+ id) None
            :: map entry_of cs).
Proof.
  intros Hn.
  destruct (run_calls_returns cs (start ct id tl) (start_started _ _ _)) as [tl' Hrun].
  exists tl'. split; [done |].
  assert (run_calls (CallLog "SYSTEM"
                       ("Starting " +:+ ct +:+ " for applicant " +:+ id) None :: cs)
                    (mkLogger (max_depth tl) [] true) = Ok tl') as H by exact Hrun.
  apply run_calls_take in H; [| cbn; lia]. exact H.
Qed.

Lemma run_keeps_first_entries_witness :
  exists tl',
    run_calls [CallRuleFired "R1" "Approve Loan"; CallDecision "Approve Loan"]
              (start "Forward Chaining" "A1" (mkLogger 2 [] false)) = Ok tl' /\
    trace tl' =
    [mkEntry "SYSTEM" "Starting Forward Chaining for applicant A1" None;
     mkEntry "RULE_FIRE" "R1 fired → Approve Loan" (Some "R1")].
Proof.
  destruct (run_keeps_first_entries (mkLogger 2 [] false)
              [CallRuleFired "R1" "Approve Loan"; CallDecision "Approve Loan"]
              "Forward Chaining" "A1") as (tl' & Hrun & Htrace); [cbn; lia |].
  exists tl'. split; [exact Hrun | exact Htrace].
Defined.

(** X2.  In every summary the two counters count disjoint kinds of
    entries, so [rules_fired + conflicts_resolved <= total_entries]; the
    summary's trace is the journal itself, [total_entries] is its length,
    and after [clear] the summary is empty. *)
Theorem summary_counts_bounded (tl : TraceLogger) :
  (rules_fired_count (get_summary tl) + conflicts_resolved (get_summary tl)
   <= total_entries (get_summary tl))%nat /\
  summary_trace (get_summary tl) = get_trace tl /\
  total_entries (get_summary tl) = length (get_trace tl) /\
  get_summary (clear tl) = mkSummary 0 0 0 [].
Proof.
  split; [| done]. unfold get_summary. cbn.
  induction (trace tl) as [| e l IH]; [done |].
  rewrite !filter_cons. cbn [length].
  destruct (decide (level e = "RULE_FIRE")) as [E1 | E1];
    destruct (decide (level e = "CONFLICT")) as [E2 | E2]; cbn [length]; try lia.
  rewrite E1 in E2. discriminate.
Qed.

(** ** Conflict resolver: the winner and the journal *)

Section ResolveMore.

Lemma py_max_in {A} (key : A -> Key) first rest : In (py_max key first rest) (first :: rest).
Proof.
  destruct (py_max_spec key first rest) as (pre & post & -> & _).
  apply in_or_app. right. by left.
Qed.

Lemma strategy_key_none_first cr first rest tl :
  strategy_key cr = None -> fst (resolve cr (first :: rest) tl) = Some first.
Proof.
  unfold strategy_key, resolve. intros Hk.
  destruct (String.eqb (strategy cr) "priority"); [discriminate |].
  destruct (String.eqb (strategy cr) "priority_specificity"); [discriminate |].
  destruct (String.eqb (strategy cr) "specificity"); [discriminate |].
  by destruct rest.
Qed.

Lemma conflict_entry_counts lvl msg rid tl :
  Z.of_nat (length (trace tl)) < max_depth tl ->
  length (filter (fun e => level e = "CONFLICT") (trace (log lvl msg rid tl))) =
    (length (filter (fun e => level e = "CONFLICT") (trace tl)) +
     (if decide (lvl = "CONFLICT") then 1 else 0))%nat /\
  length (filter (fun e => level e = "RULE_FIRE") (trace (log lvl msg rid tl))) =
    (length (filter (fun e => level e = "RULE_FIRE") (trace tl)) +
     (if decide (lvl = "RULE_FIRE") then 1 else 0))%nat.
Proof.
  intros Hroom. rewrite log_room by done. rewrite !filter_app, !length_app.
  rewrite !filter_cons, !filter_nil. cbn [level].
  split; case_decide; cbn; lia.
Qed.

End ResolveMore.

(** X3.  Whatever the strategy, [resolve] never invents a rule: it returns
    [None] only for an empty candidate list and otherwise one of the
    candidates; under a strategy name it does not know it returns the first
    candidate. *)
Theorem resolve_returns_candidate (cr : ConflictResolver) (fired_rules : list Rule)
    (tl : option TraceLogger) :
  match fst (resolve cr fired_rules tl) with
  | Some w => In w fired_rules
  | None => fired_rules = []
  end /\
  (strategy_key cr = None -> fst (resolve cr fired_rules tl) = head fired_rules).
Proof.
  split.
  - destruct fired_rules as [| first rest]; [done |].
    destruct (strategy_key cr) as [key |] eqn:Hk.
    + destruct (strategy_key_cases cr key Hk) as [_ Hres]. rewrite Hres.
      destruct rest; [by left | apply py_max_in].
    + rewrite strategy_key_none_first by done. by left.
  - intros Hk. destruct fired_rules as [| first rest]; [done |].
    by apply strategy_key_none_first.
Qed.

(** X4.  A resolution among two or more candidates writes two CONFLICT
    entries -- the announcement and the outcome -- so with room for both
    the summary's [conflicts_resolved] grows by two per resolution, while
    [rules_fired] is untouched; with fewer than two candidates the journal
    is left as it is. *)
Theorem resolve_logs_two_conflicts (cr : ConflictResolver) (fired_rules : list Rule)
    (tl : TraceLogger) :
  (2 <= length fired_rules)%nat ->
  Z.of_nat (length (trace tl)) + 2 <= max_depth tl ->
  exists tl',
    snd (resolve cr fired_rules (Some tl)) = Some tl' /\
    conflicts_resolved (get_summary tl') = (conflicts_resolved (get_summary tl) + 2)%nat /\
    total_entries (get_summary tl') = (total_entries (get_summary tl) + 2)%nat /\
    rules_fired_count (get_summary tl') = rules_fired_count (get_summary tl) /\
    (forall r, snd (resolve cr [r] (Some tl)) = Some tl) /\
    snd (resolve cr [] (Some tl)) = Some tl.
Proof.
  intros Hlen Hroom.
  destruct fired_rules as [| first [| second rest]]; cbn in Hlen; try lia.
  unfold resolve. cbn [snd fmap option_fmap option_map].
  set (w := if String.eqb (strategy cr) "priority" then _ else _).
  set (tl1 := log "CONFLICT" _ None tl).
  exists (log_conflict (first :: second :: rest) w tl1).
  split; [done |].
  assert (Z.of_nat (length (trace tl)) < max_depth tl) as H0 by lia.
  pose proof (log_length "CONFLICT"
    ("Multiple rules fired: " +:+ String.concat ", " (map rule_id (first :: second :: rest)))
    None tl) as Hl1. fold tl1 in Hl1.
  destruct (Z.ltb_spec (Z.of_nat (length (trace tl))) (max_depth tl)); [| lia].
  assert (Z.of_nat (length (trace tl1)) < max_depth tl1) as H1.
  { unfold tl1 at 2. rewrite log_max_depth. lia. }
  destruct (conflict_entry_counts "CONFLICT"
    ("Multiple rules fired: " +:+ String.concat ", " (map rule_id (first :: second :: rest)))
    None tl H0) as [Hc1 Hf1]. fold tl1 in Hc1, Hf1.
  unfold log_conflict, log_conflict_ids.
  destruct (conflict_entry_counts "CONFLICT"
    ("Conflict between " +:+ String.concat ", " (map rule_id (first :: second :: rest)) +:+
     " → Winner: " +:+ rule_id w) None tl1 H1) as [Hc2 Hf2].
  rewrite decide_True in Hc1, Hc2 by done.
  rewrite decide_False in Hf1, Hf2 by done.
  unfold get_summary. cbn [conflicts_resolved total_entries rules_fired_count].
  rewrite Hc2, Hc1, Hf2, Hf1, log_length.
  destruct (Z.ltb_spec (Z.of_nat (length (trace tl1))) (max_depth tl1)); [| lia].
  rewrite Hl1. repeat split; lia.
Qed.

Lemma resolve_logs_two_conflicts_witness :
  exists tl',
    snd (resolve (new_resolver None) [R3; R6] (Some new_logger)) = Some tl' /\
    conflicts_resolved (get_summary tl') = 2%nat.
Proof.
  destruct (resolve_logs_two_conflicts (new_resolver None) [R3; R6] new_logger)
    as (tl' & Hres & Hc & _).
  - cbn. lia.
  - cbn. lia.
  - exists tl'. split; [exact Hres | exact Hc].
Defined.

(** ** Rule evaluation: composition laws *)

Section EvaluateLaws.

Variable a : Applicant.

Local Abbreviation holds_all := (holds_all a).

Lemma holds_all_cons c conds :
  holds_all (c :: conds) =
  match condition_check a c with
  | Ok true => holds_all conds
  | _ => false
  end.
Proof.
  unfold holds_all. cbn [evaluate_loop].
  destruct (condition_check a c) as [[|] | e]; [| done | done].
  by destruct (evaluate_loop a conds).
Qed.

Lemma holds_all_app l1 l2 : holds_all (l1 ++ l2) = holds_all l1 && holds_all l2.
Proof.
  induction l1 as [| c l1 IH]; [done |].
  cbn [app]. rewrite !holds_all_cons.
  by destruct (condition_check a c) as [[|] | e].
Qed.

Lemma in_range_two_bounds attr lo hi :
  holds_all [Triple attr "in_range" (Pair lo hi)] =
  holds_all [Triple attr ">=" (Scalar lo); Triple attr "<=" (Scalar hi)].
Proof.
  rewrite !holds_all_cons. cbn [condition_check]. unfold _evaluate_condition.
  change (String.eqb "in_range" ">") with false.
  change (String.eqb "in_range" ">=") with false.
  change (String.eqb "in_range" "<") with false.
  change (String.eqb "in_range" "<=") with false.
  change (String.eqb "in_range" "==") with false.
  change (String.eqb "in_range" "!=") with false.
  change (String.eqb "in_range" "in_range") with true.
  change (String.eqb ">=" ">") with false.
  change (String.eqb ">=" ">=") with true.
  change (String.eqb "<=" ">") with false.
  change (String.eqb "<=" ">=") with false.
  change (String.eqb "<=" "<") with false.
  change (String.eqb "<=" "<=") with true.
  cbn [subscript].
  destruct (getattr a attr) as [v |]; [| done].
  destruct v; try done;
    (destruct (attr_ord py_ge _ (Scalar lo)) as [[|] | e]; [| done | done];
     by destruct (attr_ord py_le _ (Scalar hi)) as [[|] | e']).
Qed.

End EvaluateLaws.

(** X5.  Antecedent lists compose: a rule whose antecedents are those of
    [r1] followed by those of [r2] holds exactly when both [r1] and [r2]
    hold, including when some antecedent raises. *)
Theorem evaluate_concatenation (r r1 r2 : Rule) (a : Applicant) :
  antecedents r = antecedents r1 ++ antecedents r2 ->
  evaluate r a = evaluate r1 a && evaluate r2 a.
Proof.
  intros H. change (holds_all a (antecedents r) =
                    holds_all a (antecedents r1) && holds_all a (antecedents r2)).
  rewrite H. apply holds_all_app.
Qed.

Lemma evaluate_concatenation_witness :
  evaluate R1 A1 =
  evaluate (mkRule "a" [Triple "income" ">" (Scalar (PyInt 60000))] "" "" 0 "" 0) A1 &&
  evaluate (mkRule "b" [Triple "credit_score" ">" (Scalar (PyInt 750))] "" "" 0 "" 0) A1.
Proof. apply evaluate_concatenation. reflexivity. Defined.

(** X6.  Anywhere in a rule, the antecedent [(attr, 'in_range', (lo, hi))]
    can be replaced by the two antecedents [(attr, '>=', lo)] and
    [(attr, '<=', hi)] without changing what [evaluate] returns, for every
    fact record and operands of any type. *)
Theorem in_range_as_two_comparisons (r r' : Rule) (a : Applicant)
    (pre post : list Condition) (attr : string) (lo hi : pyval) :
  antecedents r = pre ++ Triple attr "in_range" (Pair lo hi) :: post ->
  antecedents r' =
    pre ++ Triple attr ">=" (Scalar lo) :: Triple attr "<=" (Scalar hi) :: post ->
  evaluate r a = evaluate r' a.
Proof.
  intros H H'. change (holds_all a (antecedents r) = holds_all a (antecedents r')).
  rewrite H, H'.
  change (Triple attr "in_range" (Pair lo hi) :: post)
    with ([Triple attr "in_range" (Pair lo hi)] ++ post).
  change (Triple attr ">=" (Scalar lo) :: Triple attr "<=" (Scalar hi) :: post)
    with ([Triple attr ">=" (Scalar lo); Triple attr "<=" (Scalar hi)] ++ post).
  rewrite !holds_all_app. by rewrite in_range_two_bounds.
Qed.

Lemma in_range_as_two_comparisons_witness :
  evaluate R5 A1 =
  evaluate (mkRule "R5'"
              [Triple "income" ">=" (Scalar (PyInt 30000));
               Triple "income" "<=" (Scalar (PyInt 50000));
               Triple "credit_score" "in_range" (Pair (PyInt 600) (PyInt 700))]
              "Manual Review" "Low" 2 "" 0) A1.
Proof.
  apply (in_range_as_two_comparisons R5 _ A1 []
           [Triple "credit_score" "in_range" (Pair (PyInt 600) (PyInt 700))]
           "income" (PyInt 30000) (PyInt 50000)); reflexivity.
Defined.

(** ** Rules that read only data fields *)

Section FrameFacts.

Lemma getattr_set_decision d tr a attr :
  String.eqb attr "decision" = false ->
  getattr (set_decision d tr a) attr = getattr a attr.
Proof.
  intros Hne. unfold getattr. rewrite Hne. reflexivity.
Qed.

Lemma condition_check_set_decision d tr a c :
  data_only_condition c = true ->
  condition_check (set_decision d tr a) c = condition_check a c.
Proof.
  destruct c as [f | attr op v |]; cbn; [discriminate | | done].
  intros Hne. apply negb_true_iff in Hne.
  unfold _evaluate_condition. by rewrite getattr_set_decision.
Qed.

Lemma evaluate_set_decision d tr a r :
  data_only r = true -> evaluate r (set_decision d tr a) = evaluate r a.
Proof.
  unfold data_only, evaluate. intros H.
  change (holds_all (set_decision d tr a) (antecedents r) = holds_all a (antecedents r)).
  induction (antecedents r) as [| c l IH]; [done |].
  cbn in H. apply andb_true_iff in H as [Hc Hl].
  rewrite !holds_all_cons, condition_check_set_decision by done.
  destruct (condition_check a c) as [[|] | e]; [by apply IH | done | done].
Qed.

End FrameFacts.

(** X7.  Writing a decision (and trace) onto a fact record does not change
    the outcome of any rule whose antecedents are triples on attributes
    other than [decision]; a rule that does test [decision] can change its
    outcome, as the second part shows for a record first without and then
    with a decision. *)
Theorem evaluate_unaffected_by_set_decision (r : Rule) (a : Applicant)
    (d : string) (tr : option (list TraceEntry)) :
  data_only r = true ->
  evaluate r (set_decision d tr a) = evaluate r a /\
  evaluate (mkRule "D" [Triple "decision" "==" (Scalar (PyStr "Reject Loan"))]
                   "Reject Loan" "High" 1 "" 0) A1 = false /\
  evaluate (mkRule "D" [Triple "decision" "==" (Scalar (PyStr "Reject Loan"))]
                   "Reject Loan" "High" 1 "" 0)
           (set_decision "Reject Loan" None A1) = true.
Proof.
  intros H. split; [by apply evaluate_set_decision |]. by vm_compute.
Qed.

Lemma evaluate_unaffected_by_set_decision_witness :
  evaluate R2 (set_decision "Approve Loan" None A1) = evaluate R2 A1.
Proof.
  apply (evaluate_unaffected_by_set_decision R2 A1 "Approve Loan" None). reflexivity.
Defined.

(** ** Forward chaining: what fires and what is derived *)

Section ForwardState.

Variables (rb : RuleBase) (a : Applicant).

Lemma fc_fold_decisions fired l ti dec tl :
  snd (fst (fold_left (fc_rule_step a fired) l (ti, dec, tl))) =
  fold_left (fun d r => dict_append d (consequent r) r)
            (List.filter (fun r => negb (already_fired fired r) && evaluate r a) l) dec.
Proof.
  revert ti dec tl. induction l as [| r l IH]; intros ti dec tl; [done |].
  cbn [fold_left List.filter]. unfold fc_rule_step at 2. fold (already_fired fired r).
  destruct (already_fired fired r); cbn [negb andb]; [apply IH |].
  destruct (evaluate r a); [| apply IH]. cbn [fold_left]. apply IH.
Qed.

Lemma first_pass_filter :
  List.filter (fun r => negb (already_fired [] r) && evaluate r a) (rules rb) =
  satisfied_rules rb a.
Proof. unfold satisfied_rules. by apply filter_ext. Qed.

(** Once every satisfiable rule has fired, further passes change neither
    the fired rules nor the decisions. *)
Lemma fc_while_saturated_state n st :
  saturated rb a (rules_fired st) ->
  rules_fired (fc_while n rb a st) = rules_fired st /\
  decisions (fc_while n rb a st) = decisions st.
Proof.
  intros Hsat. destruct n as [| n]; [done |]. cbn [fc_while].
  pose proof (fc_fold_this_iteration a (rules_fired st) (get_all_rules rb) []
                (decisions st) (fc_logger st)) as Hti.
  pose proof (fc_fold_decisions (rules_fired st) (get_all_rules rb) []
                (decisions st) (fc_logger st)) as Hdec.
  destruct (fold_left _ _ _) as [[ti dec] tl]. cbn [fst snd app] in Hti, Hdec.
  unfold get_all_rules in Hti, Hdec.
  rewrite saturated_pass_fires_nothing in Hti, Hdec by done.
  subst ti dec. cbn. by rewrite app_nil_r.
Qed.

Lemma fc_while_from_start n tl :
  (n = 0%nat -> rules rb = []) ->
  rules_fired (fc_while n rb a (mkFC 0 [] [] tl)) = satisfied_rules rb a /\
  decisions (fc_while n rb a (mkFC 0 [] [] tl)) =
    group_by_consequent (satisfied_rules rb a).
Proof.
  intros Hn. destruct n as [| n].
  { unfold satisfied_rules. rewrite Hn by done. done. }
  cbn [fc_while rules_fired decisions fc_logger].
  pose proof (fc_fold_this_iteration a [] (get_all_rules rb) [] [] tl) as Hti.
  pose proof (fc_fold_decisions [] (get_all_rules rb) [] [] tl) as Hdec.
  unfold get_all_rules in *. rewrite first_pass_filter in Hti, Hdec.
  destruct (fold_left _ _ _) as [[ti dec] tl']. cbn [fst snd app] in Hti, Hdec.
  fold (group_by_consequent (satisfied_rules rb a)) in Hdec. subst ti dec.
  destruct (satisfied_rules rb a) as [| s sat] eqn:Hsat; [done |].
  rewrite <- Hsat.
  apply (fc_while_saturated_state n
           (mkFC 1 (satisfied_rules rb a)
                 (group_by_consequent (satisfied_rules rb a)) tl')).
  cbn [rules_fired]. rewrite <- first_pass_filter. apply (one_pass_saturates rb a []).
Qed.

Lemma fc_run_state tl0 :
  rules_fired (fc_run rb tl0 a) = satisfied_rules rb a /\
  decisions (fc_run rb tl0 a) = group_by_consequent (satisfied_rules rb a).
Proof.
  unfold fc_run. apply fc_while_from_start.
  unfold max_iterations, get_all_rules. destruct (rules rb); [done | cbn; lia].
Qed.

End ForwardState.

Section GroupingFacts.

Lemma dict_contains_keys d k :
  dict_contains d k = existsb (String.eqb k) (map fst d).
Proof.
  unfold dict_contains. induction d as [| kv d IH]; [done |].
  cbn. by rewrite IH, String.eqb_sym.
Qed.

Lemma dict_contains_in d k rs : In (k, rs) d -> dict_contains d k = true.
Proof.
  intros Hin. unfold dict_contains. apply existsb_exists.
  exists (k, rs). split; [done | apply String.eqb_refl].
Qed.

Lemma dict_append_keys_eq d k r :
  map fst (dict_append d k r) =
  if existsb (String.eqb k) (map fst d) then map fst d else map fst d ++ [k].
Proof.
  unfold dict_append. rewrite dict_contains_keys.
  destruct (existsb _ _).
  - induction d as [| kv d IH]; [done |]. cbn. rewrite IH.
    by destruct (String.eqb (fst kv) k).
  - by rewrite map_app.
Qed.

Lemma group_keys_fold l d :
  map fst (fold_left (fun d r => dict_append d (consequent r) r) l d) =
  fold_left (fun acc k => if existsb (String.eqb k) acc then acc else acc ++ [k])
            (map consequent l) (map fst d).
Proof.
  revert d. induction l as [| r l IH]; intros d; [done |].
  cbn [fold_left map]. by rewrite IH, dict_append_keys_eq.
Qed.

Lemma group_keys l : map fst (group_by_consequent l) = first_occurrences (map consequent l).
Proof. apply group_keys_fold. Qed.

Lemma first_occurrences_fold_in l acc k :
  In k (fold_left (fun acc k => if existsb (String.eqb k) acc then acc else acc ++ [k])
                  l acc) <->
  In k acc \/ In k l.
Proof.
  revert acc. induction l as [| x l IH]; intros acc; cbn [fold_left].
  - cbn. tauto.
  - rewrite IH. destruct (existsb (String.eqb x) acc) eqn:E.
    + apply existsb_exists in E as (y & Hy & Hxy). apply String.eqb_eq in Hxy. subst y.
      cbn. split; [tauto |]. intros [? | [<- | ?]]; tauto.
    + rewrite in_app_iff. cbn. tauto.
Qed.

Lemma first_occurrences_fold_NoDup l acc :
  NoDup acc ->
  NoDup (fold_left (fun acc k => if existsb (String.eqb k) acc then acc else acc ++ [k])
                   l acc).
Proof.
  revert acc. induction l as [| x l IH]; intros acc Hnd; [done |].
  cbn [fold_left]. apply IH. destruct (existsb (String.eqb x) acc) eqn:E; [done |].
  apply NoDup_app. split; [done |]. split; [| apply NoDup_singleton].
  intros y Hy Hy'. apply list_elem_of_singleton in Hy'. subst y.
  assert (existsb (String.eqb x) acc = true) as Ht; [| congruence].
  apply existsb_exists. exists x. split; [by apply list_elem_of_In | apply String.eqb_refl].
Qed.

Lemma first_occurrences_in l k : In k (first_occurrences l) <-> In k l.
Proof. unfold first_occurrences. rewrite first_occurrences_fold_in. cbn. tauto. Qed.

Lemma first_occurrences_NoDup l : NoDup (first_occurrences l).
Proof. apply first_occurrences_fold_NoDup. constructor. Qed.

Lemma groups_of_step l d r :
  groups_of l d -> groups_of (l ++ [r]) (dict_append d (consequent r) r).
Proof.
  intros [Hin Hout]. unfold dict_append.
  destruct (dict_contains d (consequent r)) eqn:Hc; split.
  - intros k rs Hk. apply in_map_iff in Hk as ([k' rs'] & Heq & Hk').
    destruct (Hin k' rs' Hk') as [Hrs' Hne]. cbn [fst snd] in Heq.
    rewrite List.filter_app. cbn [List.filter].
    destruct (String.eqb_spec k' (consequent r)) as [-> | Hkk].
    + injection Heq as <- <-. rewrite String.eqb_refl, <- Hrs'.
      split; [done |]. by destruct rs'.
    + injection Heq as <- <-.
      replace (String.eqb (consequent r) k') with false
        by (symmetry; apply String.eqb_neq; congruence).
      by rewrite app_nil_r.
  - intros k Hk. rewrite List.filter_app. cbn [List.filter].
    assert (dict_contains d k = false) as Hk'.
    { rewrite dict_contains_keys in *. rewrite <- Hk. f_equal.
      rewrite map_map. apply map_ext. intros kv. by destruct (String.eqb (fst kv) _). }
    rewrite (Hout k Hk').
    destruct (String.eqb_spec (consequent r) k) as [<- | _]; [congruence | done].
  - intros k rs Hk. rewrite List.filter_app. cbn [List.filter].
    apply in_app_or in Hk as [Hk | [[= <- <-] | []]].
    + destruct (Hin k rs Hk) as [-> Hne].
      destruct (String.eqb_spec (consequent r) k) as [<- | _].
      * rewrite (dict_contains_in _ _ _ Hk) in Hc. discriminate.
      * by rewrite app_nil_r.
    + rewrite String.eqb_refl, (Hout _ Hc). done.
  - intros k Hk. rewrite List.filter_app. cbn [List.filter].
    unfold dict_contains in Hk. rewrite existsb_app in Hk.
    apply orb_false_iff in Hk as [Hk1 Hk2]. cbn in Hk2. rewrite orb_false_r in Hk2.
    rewrite (Hout k Hk1), Hk2. done.
Qed.

Lemma groups_of_fold l2 l1 d :
  groups_of l1 d ->
  groups_of (l1 ++ l2) (fold_left (fun d r => dict_append d (consequent r) r) l2 d).
Proof.
  revert l1 d. induction l2 as [| r l2 IH]; intros l1 d H.
  - by rewrite app_nil_r.
  - cbn [fold_left]. replace (l1 ++ r :: l2) with ((l1 ++ [r]) ++ l2)
      by (by rewrite <- app_assoc).
    apply IH. by apply groups_of_step.
Qed.

Lemma groups_of_group l : groups_of l (group_by_consequent l).
Proof.
  apply (groups_of_fold l [] []). split; [intros k rs [] | done].
Qed.

End GroupingFacts.

(** X8.  Forward chaining fires exactly the rules of the base that hold
    for the fact record, each once, in rule-base order -- also when
    identifiers repeat.  The decisions it collects are the distinct
    consequents of those rules in order of first appearance, and under each
    decision it lists exactly the fired rules with that consequent. *)
Theorem forward_fires_satisfied_rules (rb : RuleBase) (tl0 : TraceLogger) (a : Applicant) :
  rules_fired (fc_run rb tl0 a) = List.filter (fun r => evaluate r a) (rules rb) /\
  map fst (decisions (fc_run rb tl0 a)) = derived_decisions rb a /\
  NoDup (map fst (decisions (fc_run rb tl0 a))) /\
  (forall k, In k (map fst (decisions (fc_run rb tl0 a))) <->
     exists r, In r (rules rb) /\ evaluate r a = true /\ consequent r = k) /\
  (forall k rs, In (k, rs) (decisions (fc_run rb tl0 a)) ->
     rs = List.filter (fun r => String.eqb (consequent r) k && evaluate r a) (rules rb) /\
     rs <> []).
Proof.
  destruct (fc_run_state rb a tl0) as [Hf Hd]. rewrite Hf, Hd, group_keys.
  fold (derived_decisions rb a).
  split; [done |]. split; [done |].
  split; [apply first_occurrences_NoDup |]. split.
  - intros k. unfold derived_decisions. rewrite first_occurrences_in, in_map_iff.
    unfold satisfied_rules. split.
    + intros (r & Hk & Hr). apply filter_In in Hr as [Hr He]. by exists r.
    + intros (r & Hr & He & Hk). exists r. split; [done |]. by apply filter_In.
  - intros k rs Hk.
    destruct (groups_of_group (satisfied_rules rb a)) as [Hin _].
    destruct (Hin k rs Hk) as [-> Hne]. split; [| done].
    unfold satisfied_rules. clear. induction (rules rb) as [| r l IH]; [done |].
    cbn [List.filter]. destruct (evaluate r a) eqn:He; cbn [List.filter].
    + destruct (String.eqb (consequent r) k); cbn; [by rewrite IH | done].
    + by rewrite andb_false_r.
Qed.

Lemma fc_infer_decision_of rb cr tl0 a :
  fst (fst (fst (fc_infer rb cr tl0 a))) = fc_decision_of rb a.
Proof.
  unfold fc_decision_of.
  destruct (fc_run_state rb a tl0) as [_ Hd].
  pose proof (group_keys (satisfied_rules rb a)) as Hk.
  fold (derived_decisions rb a) in Hk. rewrite <- Hd in Hk. rewrite <- Hk.
  unfold fc_infer.
  destruct (decisions (fc_run rb tl0 a)) as [| [d rs] [| kv more]]; cbn [fst map]; [done .. |].
  pose proof (resolve_by_decision_always_fallback cr ((d, rs) :: kv :: more)
                (Some (fc_logger (fc_run rb tl0 a)))) as Hfb.
  destruct (resolve_by_decision _ _ _) as [d' otl]. cbn [fst] in Hfb. by subst d'.
Qed.

(** X9.  The decision of forward chaining is determined by the distinct
    consequents of the rules that hold: that consequent when there is
    exactly one, and 'Manual Review' when there is none or more than one. *)
Theorem forward_decision_by_derived (rb : RuleBase) (cr : ConflictResolver)
    (tl0 : TraceLogger) (a : Applicant) :
  fst (fst (fst (fc_infer rb cr tl0 a))) =
  match derived_decisions rb a with
  | [d] => d
  | _ => "Manual Review"
  end.
Proof. apply fc_infer_decision_of. Qed.

(** ** The decisions of an evaluation as a function of the data *)

Section DecisionView.

Lemma fc_infer_applicant rb cr tl0 a :
  exists tr, snd (fc_infer rb cr tl0 a) =
             set_decision (fst (fst (fst (fc_infer rb cr tl0 a)))) tr a.
Proof.
  unfold fc_infer.
  destruct (match decisions (fc_run rb tl0 a) with
            | [] => _ | [(d, _)] => _ | _ => _ end) as [final tl3].
  by eexists.
Qed.

Lemma bc_infer_applicant rb cr bc0 a :
  exists tr, snd (bc_infer rb cr bc0 a) =
             set_decision (fst (fst (fst (bc_infer rb cr bc0 a)))) tr a.
Proof.
  unfold bc_infer. destruct (bc_goal_loop rb cr a goals _) as [[d |] bc2]; by eexists.
Qed.

Lemma filter_ext_on {A} (p q : A -> bool) l :
  (forall x, In x l -> p x = q x) -> List.filter p l = List.filter q l.
Proof.
  induction l as [| x l IH]; intros H; [done |]. cbn.
  rewrite (H x) by (by left). rewrite IH; [done |]. intros y Hy. apply H. by right.
Qed.

Lemma existsb_ext_on {A} (p q : A -> bool) l :
  (forall x, In x l -> p x = q x) -> existsb p l = existsb q l.
Proof.
  induction l as [| x l IH]; intros H; [done |]. cbn.
  rewrite (H x) by (by left). rewrite IH; [done |]. intros y Hy. apply H. by right.
Qed.

Variable rb : RuleBase.
Hypothesis Hdata : forall r, In r (rules rb) -> data_only r = true.

Lemma satisfied_set_decision d tr a :
  satisfied_rules rb (set_decision d tr a) = satisfied_rules rb a.
Proof.
  unfold satisfied_rules. apply filter_ext_on. intros r Hr.
  by apply evaluate_set_decision, Hdata.
Qed.

Lemma provable_set_decision d tr a g :
  provable rb (set_decision d tr a) g = provable rb a g.
Proof.
  unfold provable. apply existsb_ext_on. intros r Hr.
  apply evaluate_set_decision, Hdata. unfold get_rules_by_consequent in Hr.
  by apply filter_In in Hr as [? _].
Qed.

Lemma fc_decision_of_set_decision d tr a :
  fc_decision_of rb (set_decision d tr a) = fc_decision_of rb a.
Proof. unfold fc_decision_of, derived_decisions. by rewrite satisfied_set_decision. Qed.

Lemma bc_decision_of_set_decision d tr a :
  bc_decision_of rb (set_decision d tr a) = bc_decision_of rb a.
Proof.
  unfold bc_decision_of.
  replace (List.find (provable rb (set_decision d tr a)) goals)
    with (List.find (provable rb a) goals); [done |].
  induction goals as [| g gs IH]; [done |]. cbn.
  by rewrite provable_set_decision, IH.
Qed.

Lemma evaluate_applicant_view eng a :
  rule_base eng = rb ->
  decisions_of (fst (fst (evaluate_applicant eng a))) =
  decision_view (chaining_type eng) rb a.
Proof.
  intros Hrb. unfold evaluate_applicant, decision_view. rewrite Hrb.
  pose proof (fc_infer_decision_of rb (conflict_resolver eng)
                (forward_chain eng) a) as Hfc.
  destruct (String.eqb_spec (chaining_type eng) "forward") as [Ef | Ef].
  { rewrite Ef. change (String.eqb "forward" "backward") with false.
    change (String.eqb "forward" "both") with false. cbn [orb].
    destruct (fc_infer _ _ _ a) as [[[fd fs] ftl] a1]. cbn [fst snd] in *.
    by subst fd. }
  destruct (String.eqb_spec (chaining_type eng) "backward") as [Eb | Eb].
  { rewrite Eb. change (String.eqb "backward" "both") with false. cbn [orb].
    pose proof (bc_infer_decision rb (conflict_resolver eng) a
                  (backward_chain eng)) as Hbc.
    destruct (bc_infer _ _ _ a) as [[[bd bs] bc] a2]. cbn [fst snd] in *.
    unfold bc_decision_of. by subst bd. }
  destruct (String.eqb_spec (chaining_type eng) "both") as [Eboth | Eboth];
    cbn [orb]; [| done].
  destruct (fc_infer_applicant rb (conflict_resolver eng)
              (forward_chain eng) a) as [tr Ha1].
  destruct (fc_infer _ _ _ a) as [[[fd fs] ftl] a1]. cbn [fst snd] in *.
  pose proof (bc_infer_decision rb (conflict_resolver eng) a1
                (backward_chain eng)) as Hbc.
  destruct (bc_infer _ _ _ a1) as [[[bd bs] bc] a2]. cbn [fst snd] in *.
  fold (bc_decision_of rb a1) in Hbc.
  rewrite Ha1, bc_decision_of_set_decision in Hbc. subst fd bd.
  by destruct (merge_both _ _) as [[d why] | e].
Qed.

End DecisionView.

Section SameData.

Lemma same_data_refl a : same_data a a.
Proof. by repeat split. Qed.

Lemma same_data_trans a b c : same_data a b -> same_data b c -> same_data a c.
Proof.
  unfold same_data. intros (? & ? & ? & ? & ? & ? & ? & ?) (? & ? & ? & ? & ? & ? & ? & ?).
  repeat split; congruence.
Qed.

Lemma same_data_set_decision d tr a : same_data a (set_decision d tr a).
Proof. by repeat split. Qed.

Lemma getattr_same_data a a' attr :
  same_data a a' -> String.eqb attr "decision" = false ->
  getattr a' attr = getattr a attr.
Proof.
  intros (H1 & H2 & H3 & H4 & H5 & H6 & H7 & H8) Hne. unfold getattr.
  by rewrite Hne, H1, H2, H3, H4, H5, H6, H7, H8.
Qed.

Lemma evaluate_same_data a a' r :
  same_data a a' -> data_only r = true -> evaluate r a' = evaluate r a.
Proof.
  intros Hs. unfold data_only, evaluate.
  change (forallb data_only_condition (antecedents r) = true ->
          holds_all a' (antecedents r) = holds_all a (antecedents r)).
  induction (antecedents r) as [| c l IH]; [done |].
  intros H. cbn in H. apply andb_true_iff in H as [Hc Hl].
  rewrite !holds_all_cons.
  assert (condition_check a' c = condition_check a c) as ->.
  { destruct c as [f | attr op v |]; cbn in *; [discriminate | | done].
    apply negb_true_iff in Hc. unfold _evaluate_condition.
    by rewrite (getattr_same_data a a'). }
  destruct (condition_check a c) as [[|] | e]; [by apply IH | done | done].
Qed.

Variable rb : RuleBase.
Hypothesis Hdata : forall r, In r (rules rb) -> data_only r = true.

Lemma decision_view_same_data ct a a' :
  same_data a a' -> decision_view ct rb a' = decision_view ct rb a.
Proof.
  intros Hs. unfold decision_view.
  assert (fc_decision_of rb a' = fc_decision_of rb a) as ->.
  { unfold fc_decision_of, derived_decisions, satisfied_rules.
    replace (List.filter (fun r => evaluate r a') (rules rb))
      with (List.filter (fun r => evaluate r a) (rules rb)); [done |].
    apply filter_ext_on. intros r Hr. symmetry. by apply evaluate_same_data, Hdata. }
  assert (bc_decision_of rb a' = bc_decision_of rb a) as ->; [| done].
  unfold bc_decision_of.
  replace (List.find (provable rb a') goals) with (List.find (provable rb a) goals);
    [done |].
  induction goals as [| g gs IH]; [done |]. cbn. rewrite IH.
  replace (provable rb a' g) with (provable rb a g); [done |].
  unfold provable. apply existsb_ext_on. intros r Hr. symmetry.
  apply evaluate_same_data; [done |]. apply Hdata.
  unfold get_rules_by_consequent in Hr. by apply filter_In in Hr as [? _].
Qed.

End SameData.

Section EngineState.

Lemma start_config ct id tl1 tl2 :
  max_depth tl1 = max_depth tl2 -> start ct id tl1 = start ct id tl2.
Proof. unfold start. by intros ->. Qed.

Lemma fc_infer_config rb cr tl1 tl2 a :
  max_depth tl1 = max_depth tl2 -> fc_infer rb cr tl1 a = fc_infer rb cr tl2 a.
Proof.
  intros H. unfold fc_infer, fc_run. by rewrite (start_config _ _ tl1 tl2 H).
Qed.

Lemma bc_infer_config rb cr b1 b2 a :
  max_depth (bc_logger b1) = max_depth (bc_logger b2) ->
  bc_infer rb cr b1 a = bc_infer rb cr b2 a.
Proof.
  intros H. unfold bc_infer.
  by rewrite (start_config _ _ (bc_logger b1) (bc_logger b2) H).
Qed.

Lemma logged_max_depth tl tl' : logged_from tl tl' -> max_depth tl' = max_depth tl.
Proof. intros [cs H]. by apply run_calls_invariant in H as [? _]. Qed.

Lemma fc_infer_max_depth rb cr tl a :
  max_depth (snd (fst (fc_infer rb cr tl a))) = max_depth tl.
Proof.
  destruct (fc_infer_logged rb cr tl a) as [Hlog _].
  rewrite (logged_max_depth _ _ Hlog). apply start_max_depth.
Qed.

Lemma bc_infer_max_depth rb cr bc a :
  max_depth (bc_logger (snd (fst (bc_infer rb cr bc a)))) = max_depth (bc_logger bc).
Proof.
  destruct (bc_infer_logged rb cr bc a) as [Hlog _].
  rewrite (logged_max_depth _ _ Hlog). apply start_max_depth.
Qed.

(** The engine that an evaluation leaves behind has the configuration it
    started with, and the record it leaves behind has the same data. *)
Lemma evaluate_applicant_keeps eng a :
  same_configuration eng (snd (fst (evaluate_applicant eng a))) /\
  same_data a (snd (evaluate_applicant eng a)).
Proof.
  unfold evaluate_applicant, same_configuration.
  pose proof (fc_infer_max_depth (rule_base eng) (conflict_resolver eng)
                (forward_chain eng) a) as Hf.
  destruct (fc_infer_applicant (rule_base eng) (conflict_resolver eng)
              (forward_chain eng) a) as [tr1 Ha1].
  destruct (fc_infer _ _ _ a) as [[[fd fs] ftl] a1]. cbn [fst snd] in Hf, Ha1.
  destruct (String.eqb (chaining_type eng) "forward" || String.eqb (chaining_type eng) "both").
  - pose proof (bc_infer_max_depth (rule_base eng) (conflict_resolver eng)
                  (backward_chain eng) a1) as Hb.
    destruct (bc_infer_applicant (rule_base eng) (conflict_resolver eng)
                (backward_chain eng) a1) as [tr2 Ha2].
    destruct (bc_infer _ _ _ a1) as [[[bd bs] bc] a2]. cbn [fst snd] in Hb, Ha2.
    subst a1 a2.
    destruct (String.eqb (chaining_type eng) "backward" || String.eqb (chaining_type eng) "both");
      destruct (if String.eqb (chaining_type eng) "forward" then _ else _) as [[d why] | e];
      cbn [fst snd chaining_type rule_base conflict_resolver forward_chain backward_chain];
      (split; [by repeat split | by repeat split]).
  - pose proof (bc_infer_max_depth (rule_base eng) (conflict_resolver eng)
                  (backward_chain eng) a) as Hb.
    destruct (bc_infer_applicant (rule_base eng) (conflict_resolver eng)
                (backward_chain eng) a) as [tr2 Ha2].
    destruct (bc_infer _ _ _ a) as [[[bd bs] bc] a2]. cbn [fst snd] in Hb, Ha2.
    subst a2.
    destruct (String.eqb (chaining_type eng) "backward" || String.eqb (chaining_type eng) "both");
      destruct (if String.eqb (chaining_type eng) "forward" then _ else _) as [[d why] | e];
      cbn [fst snd chaining_type rule_base conflict_resolver forward_chain backward_chain];
      (split; [by repeat split | by repeat split]).
Qed.

(** The outcome and the record written depend on the engine only through
    its configuration. *)
Lemma evaluate_applicant_config e1 e2 a :
  same_configuration e1 e2 ->
  fst (fst (evaluate_applicant e1 a)) = fst (fst (evaluate_applicant e2 a)) /\
  snd (evaluate_applicant e1 a) = snd (evaluate_applicant e2 a).
Proof.
  intros (Hct & Hrb & Hcr & Hf & Hb). unfold evaluate_applicant.
  rewrite <- Hct, <- Hrb, <- Hcr.
  rewrite <- (fc_infer_config (rule_base e1) (conflict_resolver e1) _ _ a Hf).
  destruct (fc_infer _ _ _ a) as [[[fd fs] ftl] a1].
  destruct (String.eqb (chaining_type e1) "forward" || String.eqb (chaining_type e1) "both").
  - rewrite <- (bc_infer_config (rule_base e1) (conflict_resolver e1) _ _ a1 Hb).
    destruct (bc_infer _ _ _ a1) as [[[bd bs] bc] a2].
    destruct (String.eqb (chaining_type e1) "backward" || String.eqb (chaining_type e1) "both");
      by destruct (if String.eqb (chaining_type e1) "forward" then _ else _) as [[d why] | e].
  - rewrite <- (bc_infer_config (rule_base e1) (conflict_resolver e1) _ _ a Hb).
    destruct (bc_infer _ _ _ a) as [[[bd bs] bc] a2].
    destruct (String.eqb (chaining_type e1) "backward" || String.eqb (chaining_type e1) "both");
      by destruct (if String.eqb (chaining_type e1) "forward" then _ else _) as [[d why] | e].
Qed.

Lemma same_configuration_trans e1 e2 e3 :
  same_configuration e1 e2 -> same_configuration e2 e3 -> same_configuration e1 e3.
Proof.
  unfold same_configuration. intros (? & ? & ? & ? & ?) (? & ? & ? & ? & ?).
  repeat split; congruence.
Qed.

Lemma evaluate_batch_collect eng0 eng l :
  same_configuration eng0 eng ->
  fst (fst (evaluate_batch eng l)) =
    collect (map (fun a => fst (fst (evaluate_applicant eng0 a))) l) /\
  same_configuration eng0 (snd (fst (evaluate_batch eng l))) /\
  Forall2 same_data l (snd (evaluate_batch eng l)).
Proof.
  revert eng. induction l as [| a l IH]; intros eng Hc.
  - cbn. split; [done |]. split; [done | constructor].
  - cbn [evaluate_batch map collect].
    destruct (evaluate_applicant_config eng0 eng a Hc) as [Hres _].
    destruct (evaluate_applicant_keeps eng a) as [Hkeep Hdata].
    rewrite Hres.
    destruct (evaluate_applicant eng a) as [[[res | e] eng1] a1]; cbn [fst snd] in *.
    + destruct (IH eng1 (same_configuration_trans _ _ _ Hc Hkeep)) as (Hr & Hc' & Hd).
      destruct (evaluate_batch eng1 l) as [[more eng2] rest']. cbn [fst snd] in *.
      rewrite <- Hr. split; [by destruct more |]. split; [done |]. by constructor.
    + split; [done |]. split; [by eapply same_configuration_trans |].
      constructor; [done |]. clear. induction l; constructor; [apply same_data_refl | done].
Qed.

End EngineState.

(** X10.  When every rule of the base reads only data fields, the
    decisions of [evaluate_applicant] -- forward, backward, final and the
    reasoning string, or the exception raised -- are a function of the
    chaining type, the rule base and the record's data alone: two
    evaluations that agree on these give the same decisions, whatever the
    resolvers, the loggers and their capacities and the memo sets of the
    two engines are, and whatever decision and reasoning trace the two
    records already carry. *)
Theorem evaluation_decisions_by_data (eng eng' : RuleEngine) (a a' : Applicant) :
  (forall r, In r (rules (rule_base eng)) -> data_only r = true) ->
  chaining_type eng' = chaining_type eng ->
  rule_base eng' = rule_base eng ->
  same_data a a' ->
  decisions_of (fst (fst (evaluate_applicant eng' a'))) =
  decisions_of (fst (fst (evaluate_applicant eng a))).
Proof.
  intros H Hct Hrb Hdata.
  rewrite (evaluate_applicant_view (rule_base eng) H eng' a' Hrb).
  rewrite (evaluate_applicant_view (rule_base eng) H eng a eq_refl).
  rewrite Hct. by apply decision_view_same_data.
Qed.

Lemma builtin_data_only r : In r (rules new_rule_base) -> data_only r = true.
Proof.
  cbn. intros [<- | [<- | [<- | [<- | [<- | [<- | [<- | [<- | []]]]]]]]]; reflexivity.
Qed.

(** The under-21 record of the tests, evaluated by a fresh engine and,
    carrying a stale approval, by an engine with another resolver, a
    journal of capacity 3 and a non-empty memo set. *)
Lemma evaluation_decisions_by_data_witness :
  decisions_of (fst (fst (evaluate_applicant
     (mkEngine "both" new_rule_base (new_resolver (Some "specificity"))
               (mkLogger 3 [] false)
               (mkBC new_logger {["Approve Loan"]} ∅ []))
     (set_decision "Approve Loan" None TEST_AGE)))) =
  decisions_of (fst (fst (evaluate_applicant (new_engine "both") TEST_AGE))).
Proof.
  apply (evaluation_decisions_by_data (new_engine "both")
           (mkEngine "both" new_rule_base (new_resolver (Some "specificity"))
                     (mkLogger 3 [] false)
                     (mkBC new_logger {["Approve Loan"]} ∅ []))
           TEST_AGE (set_decision "Approve Loan" None TEST_AGE)).
  - exact builtin_data_only.
  - reflexivity.
  - reflexivity.
  - unfold same_data. cbn. tauto.
Defined.

(** X11.  Changing the conflict-resolution strategy never changes a
    decision: with rules that read only data fields, the forward, backward
    and final decisions and the reasoning string are the same under every
    strategy name (only the CONFLICT entries of the traces can differ). *)
Theorem strategy_does_not_change_decisions (eng : RuleEngine) (s : string)
    (a : Applicant) :
  (forall r, In r (rules (rule_base eng)) -> data_only r = true) ->
  decisions_of (fst (fst (evaluate_applicant (change_conflict_strategy eng s) a))) =
  decisions_of (fst (fst (evaluate_applicant eng a))).
Proof.
  intros H.
  rewrite (evaluate_applicant_view (rule_base eng) H (change_conflict_strategy eng s) a eq_refl).
  by rewrite (evaluate_applicant_view (rule_base eng) H eng a eq_refl).
Qed.

Lemma strategy_does_not_change_decisions_witness :
  decisions_of (fst (fst (evaluate_applicant
     (change_conflict_strategy (new_engine "both") "specificity") A5))) =
  decisions_of (fst (fst (evaluate_applicant (new_engine "both") A5))).
Proof.
  apply (strategy_does_not_change_decisions (new_engine "both") "specificity" A5).
  exact builtin_data_only.
Defined.

(** X12.  Evaluating a record again -- the record as the first evaluation
    left it, on the engine as the first evaluation left it -- gives the same
    decisions, when the rules read only data fields. *)
Theorem reevaluation_same_decisions (eng : RuleEngine) (a : Applicant) :
  (forall r, In r (rules (rule_base eng)) -> data_only r = true) ->
  decisions_of (fst (fst (evaluate_applicant
                            (snd (fst (evaluate_applicant eng a)))
                            (snd (evaluate_applicant eng a))))) =
  decisions_of (fst (fst (evaluate_applicant eng a))).
Proof.
  intros H.
  destruct (evaluate_applicant_keeps eng a) as [(Hct & Hrb & _) Hdata].
  rewrite (evaluate_applicant_view (rule_base eng) H _ _ (eq_sym Hrb)).
  rewrite (evaluate_applicant_view (rule_base eng) H eng a eq_refl).
  rewrite <- Hct. by apply decision_view_same_data.
Qed.

Lemma reevaluation_same_decisions_witness :
  decisions_of (fst (fst (evaluate_applicant
                            (snd (fst (evaluate_applicant (new_engine "both") A1)))
                            (snd (evaluate_applicant (new_engine "both") A1))))) =
  decisions_of (fst (fst (evaluate_applicant (new_engine "both") A1))).
Proof.
  apply (reevaluation_same_decisions (new_engine "both") A1). exact builtin_data_only.
Defined.

(** X13.  [evaluate_batch] on distinct records returns what evaluating each
    record on its own with the engine would return, in input order, or the
    first exception among them; what earlier evaluations left in the engine
    has no influence.  It leaves the engine's configuration and every
    record's data unchanged. *)
Theorem batch_is_independent_evaluations (eng : RuleEngine) (applicants : list Applicant) :
  fst (fst (evaluate_batch eng applicants)) =
    collect (map (fun a => fst (fst (evaluate_applicant eng a))) applicants) /\
  same_configuration eng (snd (fst (evaluate_batch eng applicants))) /\
  Forall2 same_data applicants (snd (evaluate_batch eng applicants)) /\
  (forall results, fst (fst (evaluate_batch eng applicants)) = Ok results ->
     length results = length applicants).
Proof.
  destruct (evaluate_batch_collect eng eng applicants) as (Hr & Hc & Hd).
  { by repeat split. }
  split; [done |]. split; [done |]. split; [done |].
  rewrite Hr. clear. induction applicants as [| a l IH]; intros results.
  - by intros [= <-].
  - cbn [map collect]. destruct (fst (fst (evaluate_applicant eng a))); [| done].
    destruct (collect _) as [xs |]; [| done]. intros [= <-]. cbn. by rewrite (IH xs).
Qed.

(** ** The final decision when both strategies run *)

Section FinalDecision.

Variables (rb : RuleBase) (a : Applicant).
Hypothesis Hgoals : forall r, In r (rules rb) -> In (consequent r) goals.

Lemma provable_iff g :
  provable rb a g = true <->
  exists r, In r (rules rb) /\ consequent r = g /\ evaluate r a = true.
Proof.
  unfold provable, get_rules_by_consequent. rewrite existsb_exists. split.
  - intros (r & Hr & He). apply filter_In in Hr as [Hr Hc].
    apply String.eqb_eq in Hc. by exists r.
  - intros (r & Hr & Hc & He). exists r. split; [| done].
    apply filter_In. split; [done |]. by apply String.eqb_eq.
Qed.

Lemma derived_iff_provable g :
  In g (derived_decisions rb a) <-> provable rb a g = true.
Proof.
  rewrite provable_iff. unfold derived_decisions, satisfied_rules.
  rewrite first_occurrences_in, in_map_iff. split.
  - intros (r & Hc & Hr). apply filter_In in Hr as [Hr He]. by exists r.
  - intros (r & Hr & Hc & He). exists r. split; [done |]. by apply filter_In.
Qed.

Lemma NoDup_List_filter {A} (p : A -> bool) l : NoDup l -> NoDup (List.filter p l).
Proof.
  induction 1 as [| x l Hx Hnd IH]; cbn; [constructor |].
  destruct (p x); [| done]. constructor; [| done].
  rewrite list_elem_of_In, filter_In. intros [Hin _]. apply Hx. by apply list_elem_of_In.
Qed.

Lemma derived_permutation :
  Permutation (derived_decisions rb a) (List.filter (provable rb a) goals).
Proof.
  apply NoDup_Permutation.
  - apply first_occurrences_NoDup.
  - apply NoDup_List_filter, goals_NoDup.
  - intros g. rewrite !list_elem_of_In, filter_In, derived_iff_provable.
    split; [| tauto].
    intros Hp. split; [| done]. apply provable_iff in Hp as (r & Hr & <- & _).
    by apply Hgoals.
Qed.

(** The merge of the two opinions, for each pattern of provable goals. *)
Lemma merge_both_formula :
  exists why,
    merge_both (fc_decision_of rb a) (bc_decision_of rb a) =
    Ok (if provable rb a "Reject Loan" then "Reject Loan" else fc_decision_of rb a, why).
Proof.
  pose proof derived_permutation as Hperm.
  unfold fc_decision_of, bc_decision_of, goals in *. cbn [List.find List.filter] in *.
  destruct (provable rb a "Reject Loan"), (provable rb a "Approve Loan"),
    (provable rb a "Approve with Conditions"), (provable rb a "Manual Review");
    pose proof (Permutation_length Hperm) as Hlen;
    destruct (derived_decisions rb a) as [| x [| y more]]; cbn in Hlen; try discriminate;
    try (apply Permutation_length_1 in Hperm; subst x);
    eexists; vm_compute; reflexivity.
Qed.

Lemma fc_decision_not_reject :
  provable rb a "Reject Loan" = false -> fc_decision_of rb a <> "Reject Loan".
Proof.
  intros Hp Heq. unfold fc_decision_of in Heq.
  destruct (derived_decisions rb a) as [| x [| y more]] eqn:Hd; try discriminate.
  subst x. assert (In "Reject Loan" (derived_decisions rb a)) as Hin
    by (rewrite Hd; by left).
  apply derived_iff_provable in Hin. congruence.
Qed.

End FinalDecision.

Section FinalDecisionEngine.

Lemma final_decision_both eng a :
  chaining_type eng = "both" ->
  (forall r, In r (rules (rule_base eng)) -> In (consequent r) goals) ->
  (forall r, In r (rules (rule_base eng)) -> data_only r = true) ->
  exists res,
    fst (fst (evaluate_applicant eng a)) = Ok res /\
    final_decision res =
      Some (if provable (rule_base eng) a "Reject Loan" then "Reject Loan"
            else fc_decision_of (rule_base eng) a).
Proof.
  intros Hct Hgoals Hdata.
  pose proof (evaluate_applicant_view (rule_base eng) Hdata eng a eq_refl) as Hview.
  rewrite Hct in Hview. unfold decision_view in Hview.
  change (String.eqb "both" "forward") with false in Hview.
  change (String.eqb "both" "backward") with false in Hview.
  change (String.eqb "both" "both") with true in Hview. cbv iota zeta in Hview.
  destruct (merge_both_formula (rule_base eng) a Hgoals) as [why Hm].
  rewrite Hm in Hview.
  destruct (fst (fst (evaluate_applicant eng a))) as [res | e]; [| discriminate].
  exists res. split; [done |]. cbn in Hview. congruence.
Qed.

Lemma R6_fires a n : age a = PyInt n -> n < 21 -> evaluate R6 a = true.
Proof.
  intros Ha Hn. unfold evaluate, R6.
  cbn [antecedents evaluate_loop condition_check]. unfold _evaluate_condition.
  change (getattr a "age") with (Val (age a)). rewrite Ha.
  change (String.eqb "<" ">") with false.
  change (String.eqb "<" ">=") with false.
  change (String.eqb "<" "<") with true.
  cbn [attr_ord py_lt num_of]. unfold Qlt_bool, Qle_bool, inject_Z.
  cbn [Qnum Qden fst]. rewrite !Z.mul_1_r.
  destruct (Z.leb_spec 21 n); [lia | done].
Qed.

Lemma R3_fires a c :
  credit_score a = PyInt c -> c <= 650 -> existing_debt a = PyStr "High" ->
  evaluate R3 a = true.
Proof.
  intros Hc Hle Hd. unfold evaluate, R3.
  cbn [antecedents evaluate_loop condition_check]. unfold _evaluate_condition.
  change (getattr a "credit_score") with (Val (credit_score a)).
  change (getattr a "existing_debt") with (Val (existing_debt a)).
  rewrite Hc, Hd.
  change (String.eqb "<=" ">") with false.
  change (String.eqb "<=" ">=") with false.
  change (String.eqb "<=" "<") with false.
  change (String.eqb "<=" "<=") with true.
  cbn [attr_ord py_le num_of]. unfold Qle_bool, inject_Z.
  cbn [Qnum Qden]. rewrite !Z.mul_1_r.
  destruct (Z.leb_spec c 650); [done | lia].
Qed.

Lemma builtin_provable_reject a :
  provable new_rule_base a "Reject Loan" = evaluate R3 a || evaluate R4 a || evaluate R6 a.
Proof.
  unfold provable.
  change (get_rules_by_consequent new_rule_base "Reject Loan") with [R3; R4; R6].
  cbn [existsb]. by rewrite orb_false_r, orb_assoc.
Qed.

End FinalDecisionEngine.

(** X14.  With both strategies configured, rules that read only data fields
    and consequents among the four decisions, [evaluate_applicant] always
    returns, and its final decision is 'Reject Loan' exactly when some rule
    concluding 'Reject Loan' holds for the record; otherwise it is the
    single consequent derived by the rules that hold, or 'Manual Review'
    when they derive none or several. *)
Theorem final_decision_when_both (eng : RuleEngine) (a : Applicant) :
  chaining_type eng = "both" ->
  (forall r, In r (rules (rule_base eng)) -> In (consequent r) goals) ->
  (forall r, In r (rules (rule_base eng)) -> data_only r = true) ->
  exists res,
    fst (fst (evaluate_applicant eng a)) = Ok res /\
    final_decision res =
      Some (if provable (rule_base eng) a "Reject Loan" then "Reject Loan"
            else match derived_decisions (rule_base eng) a with
                 | [d] => d
                 | _ => "Manual Review"
                 end) /\
    (final_decision res = Some "Reject Loan" <->
     exists r, In r (rules (rule_base eng)) /\ consequent r = "Reject Loan" /\
               evaluate r a = true).
Proof.
  intros Hct Hgoals Hdata.
  destruct (final_decision_both eng a Hct Hgoals Hdata) as (res & Hres & Hfinal).
  exists res. split; [done |]. split; [exact Hfinal |].
  rewrite <- provable_iff, Hfinal.
  destruct (provable (rule_base eng) a "Reject Loan") eqn:Hp; [done |].
  split; [| discriminate]. intros [= Heq].
  by apply (fc_decision_not_reject (rule_base eng) a) in Heq.
Qed.

Lemma final_decision_when_both_witness :
  exists res,
    fst (fst (evaluate_applicant (new_engine "both") TEST_AGE)) = Ok res /\
    final_decision res = Some "Reject Loan".
Proof.
  destruct (final_decision_when_both (new_engine "both") TEST_AGE eq_refl
              builtin_consequents_in_goals builtin_data_only)
    as (res & Hres & Hfinal & _).
  exists res. split; [exact Hres | exact Hfinal].
Defined.

(** X15.  Over the built-in rule base with both strategies, the final
    decision is 'Reject Loan' exactly when R3, R4 or R6 holds; in particular
    it is 'Reject Loan' for every record whose employment status is
    'Unemployed', whose integer age is below 21, or whose integer credit
    score is at most 650 with existing debt 'High' -- whatever the other
    fields, the resolver and the engine's loggers are. *)
Theorem builtin_rejections (eng : RuleEngine) (a : Applicant) :
  chaining_type eng = "both" ->
  rule_base eng = new_rule_base ->
  exists res,
    fst (fst (evaluate_applicant eng a)) = Ok res /\
    (final_decision res = Some "Reject Loan" <->
     evaluate R3 a || evaluate R4 a || evaluate R6 a = true) /\
    (employment_status a = PyStr "Unemployed" -> final_decision res = Some "Reject Loan") /\
    (forall n, age a = PyInt n -> n < 21 -> final_decision res = Some "Reject Loan") /\
    (forall c, credit_score a = PyInt c -> c <= 650 ->
       existing_debt a = PyStr "High" -> final_decision res = Some "Reject Loan").
Proof.
  intros Hct Hrb.
  destruct (final_decision_both eng a Hct) as (res & Hres & Hfinal).
  { rewrite Hrb. apply builtin_consequents_in_goals. }
  { rewrite Hrb. apply builtin_data_only. }
  rewrite Hrb, builtin_provable_reject in Hfinal.
  exists res. split; [done |].
  assert (final_decision res = Some "Reject Loan" <->
          evaluate R3 a || evaluate R4 a || evaluate R6 a = true) as Hiff.
  { rewrite Hfinal. destruct (evaluate R3 a || evaluate R4 a || evaluate R6 a) eqn:Hp;
      [done |]. split; [| discriminate]. intros [= Heq].
    apply (fc_decision_not_reject new_rule_base a) in Heq; [done |].
    by rewrite builtin_provable_reject. }
  split; [exact Hiff |]. split; [| split].
  - intros H. apply Hiff. rewrite (R4_fires a H). by destruct (evaluate R3 a).
  - intros n Ha Hn. apply Hiff. rewrite (R6_fires a n Ha Hn). apply orb_true_r.
  - intros c Hc Hle Hd. apply Hiff. by rewrite (R3_fires a c Hc Hle Hd).
Qed.

Lemma builtin_rejections_witness :
  exists res,
    fst (fst (evaluate_applicant (new_engine "both") A5)) = Ok res /\
    final_decision res = Some "Reject Loan".
Proof.
  destruct (builtin_rejections (new_engine "both") A5 eq_refl eq_refl)
    as (res & Hres & _ & Hunemployed & _).
  exists res. split; [exact Hres | apply Hunemployed; reflexivity].
Defined.

(** ** Backward chaining: the memo sets *)

Section MemoFacts.

Variables (rb : RuleBase) (cr : ConflictResolver) (a : Applicant).

(** A call either leaves both memo sets as they are, or -- for a goal in
    neither set -- adds the goal to exactly one of them. *)
Lemma prove_goal_sets goal depth bc :
  let bc' := snd (_prove_goal rb cr goal a depth bc) in
  (proven_goals bc' = proven_goals bc /\ failed_goals bc' = failed_goals bc) \/
  ((goal ∉ proven_goals bc) /\ (goal ∉ failed_goals bc) /\
   ((proven_goals bc' = {[goal]} ∪ proven_goals bc /\ failed_goals bc' = failed_goals bc) \/
    (proven_goals bc' = proven_goals bc /\ failed_goals bc' = {[goal]} ∪ failed_goals bc))).
Proof.
  unfold _prove_goal. cbn [proven_goals failed_goals].
  destruct (decide (goal ∈ proven_goals bc)) as [Hp | Hp]; [by left |].
  destruct (decide (goal ∈ failed_goals bc)) as [Hf | Hf]; [by left |].
  destruct (depth >? 10); [by left |].
  right. split; [done |]. split; [done |].
  destruct (get_rules_by_consequent rb goal) as [| r rs]; [by right |].
  destruct (fold_left _ _ _) as [[| f others] tl]; [by right |].
  destruct others; [by left |].
  destruct (resolve cr _ _). by left.
Qed.

(** A memoised goal is answered from the memo sets, at any depth, with at
    most one further journal entry. *)
Lemma prove_goal_memo_hit goal depth bc :
  goal ∈ proven_goals bc ∪ failed_goals bc ->
  fst (_prove_goal rb cr goal a depth bc) = bool_decide (goal ∈ proven_goals bc) /\
  proven_goals (snd (_prove_goal rb cr goal a depth bc)) = proven_goals bc /\
  failed_goals (snd (_prove_goal rb cr goal a depth bc)) = failed_goals bc /\
  (length (trace (bc_logger (snd (_prove_goal rb cr goal a depth bc))))
   <= S (length (trace (bc_logger bc))))%nat.
Proof.
  intros Hin. unfold _prove_goal. cbn [proven_goals failed_goals].
  destruct (decide (goal ∈ proven_goals bc)) as [Hp | Hp].
  - rewrite bool_decide_eq_true_2 by done. cbn. repeat split.
    rewrite log_length. case_match; lia.
  - rewrite bool_decide_eq_false_2 by done.
    destruct (decide (goal ∈ failed_goals bc)) as [Hf | Hf].
    + cbn. repeat split. rewrite log_length. case_match; lia.
    + apply elem_of_union in Hin as [? | ?]; contradiction.
Qed.

End MemoFacts.

(** X16.  After [_prove_goal] has answered for a goal that was in neither
    memo set (at a depth within the guard), the goal is memoised: it is in
    the proven set if the answer was true and in the failed set otherwise,
    and asking again -- at any depth -- gives the same answer from the memo
    sets, leaves both sets unchanged and adds at most one journal entry. *)
Theorem prove_goal_is_memoised (rb : RuleBase) (cr : ConflictResolver) (a : Applicant)
    (goal : string) (depth depth' : Z) (bc : BackwardChaining) :
  goal ∉ proven_goals bc ->
  goal ∉ failed_goals bc ->
  depth <= 10 ->
  let first := _prove_goal rb cr goal a depth bc in
  let second := _prove_goal rb cr goal a depth' (snd first) in
  (goal ∈ proven_goals (snd first) <-> fst first = true) /\
  (goal ∈ failed_goals (snd first) <-> fst first = false) /\
  fst second = fst first /\
  proven_goals (snd second) = proven_goals (snd first) /\
  failed_goals (snd second) = failed_goals (snd first) /\
  (length (trace (bc_logger (snd second)))
   <= S (length (trace (bc_logger (snd first)))))%nat.
Proof.
  intros Hp Hf Hd first second.
  destruct (prove_goal_fresh rb cr a goal depth bc Hp Hf Hd) as (Hres & Hproven & Hfailed).
  fold first in Hres, Hproven, Hfailed.
  assert (goal ∈ proven_goals (snd first) <-> fst first = true) as H1.
  { rewrite Hres, Hproven. destruct (provable rb a goal).
    - split; [done |]. intros _. apply elem_of_union_l. by apply elem_of_singleton.
    - split; [contradiction | discriminate]. }
  assert (goal ∈ failed_goals (snd first) <-> fst first = false) as H2.
  { rewrite Hres, Hfailed. destruct (provable rb a goal).
    - split; [contradiction | discriminate].
    - split; [done |]. intros _. apply elem_of_union_l. by apply elem_of_singleton. }
  split; [exact H1 |]. split; [exact H2 |].
  destruct (prove_goal_memo_hit rb cr a goal depth' (snd first)) as (Hs & Hps & Hfs & Hlen).
  { apply elem_of_union. destruct (fst first); [left; by apply H1 | right; by apply H2]. }
  fold second in Hs, Hps, Hfs, Hlen.
  split; [| done]. rewrite Hs.
  destruct (fst first) eqn:E.
  - apply bool_decide_eq_true_2. by apply H1.
  - apply bool_decide_eq_false_2. rewrite H1. congruence.
Qed.

Lemma prove_goal_is_memoised_witness :
  fst (_prove_goal new_rule_base (new_resolver None) "Reject Loan" A5 99
         (snd (_prove_goal new_rule_base (new_resolver None) "Reject Loan" A5 0
                 new_backward_chaining))) =
  fst (_prove_goal new_rule_base (new_resolver None) "Reject Loan" A5 0
         new_backward_chaining).
Proof.
  destruct (prove_goal_is_memoised new_rule_base (new_resolver None) A5 "Reject Loan"
              0 99 new_backward_chaining) as (_ & _ & H & _).
  - apply not_elem_of_empty.
  - apply not_elem_of_empty.
  - lia.
  - exact H.
Defined.

(** X17.  Every call of [_prove_goal] keeps the memo sets disjoint and only
    ever grows them, by at most the goal asked for. *)
Theorem prove_goal_keeps_memo_disjoint (rb : RuleBase) (cr : ConflictResolver)
    (a : Applicant) (goal : string) (depth : Z) (bc : BackwardChaining) :
  proven_goals bc ## failed_goals bc ->
  let bc' := snd (_prove_goal rb cr goal a depth bc) in
  proven_goals bc' ## failed_goals bc' /\
  proven_goals bc ⊆ proven_goals bc' /\
  failed_goals bc ⊆ failed_goals bc' /\
  proven_goals bc' ∪ failed_goals bc' ⊆ {[goal]} ∪ proven_goals bc ∪ failed_goals bc.
Proof.
  intros Hdis bc'.
  destruct (prove_goal_sets rb cr a goal depth bc)
    as [[Hp Hf] | (Hnp & Hnf & [[Hp Hf] | [Hp Hf]])];
    fold bc' in Hp, Hf; rewrite Hp, Hf; set_solver.
Qed.

Lemma prove_goal_keeps_memo_disjoint_witness :
  proven_goals (snd (_prove_goal new_rule_base (new_resolver None) "Reject Loan" A1 0
                       new_backward_chaining)) ##
  failed_goals (snd (_prove_goal new_rule_base (new_resolver None) "Reject Loan" A1 0
                       new_backward_chaining)).
Proof.
  destruct (prove_goal_keeps_memo_disjoint new_rule_base (new_resolver None) A1
              "Reject Loan" 0 new_backward_chaining) as (H & _).
  - apply disjoint_empty_l.
  - exact H.
Defined.

(** ** Rule base: adding, removing, resetting *)

Section RuleBaseMore.

Lemma find_app_cases {A} (p : A -> bool) l1 l2 :
  List.find p (l1 ++ l2) =
  match List.find p l1 with
  | Some x => Some x
  | None => List.find p l2
  end.
Proof. induction l1 as [| x l1 IH]; [done |]. cbn. by destruct (p x). Qed.

Lemma filter_all {A} (p : A -> bool) l :
  (forall x, In x l -> p x = true) -> List.filter p l = l.
Proof.
  induction l as [| x l IH]; intros H; [done |]. cbn.
  rewrite (H x) by (by left). f_equal. apply IH. intros y Hy. apply H. by right.
Qed.

Lemma find_none_all {A} (p : A -> bool) l :
  (forall x, In x l -> p x = false) -> List.find p l = None.
Proof.
  induction l as [| x l IH]; intros H; [done |]. cbn.
  rewrite (H x) by (by left). apply IH. intros y Hy. apply H. by right.
Qed.

Lemma filter_filter_same {A} (p : A -> bool) l :
  List.filter p (List.filter p l) = List.filter p l.
Proof.
  apply filter_all. intros x Hx. by apply filter_In in Hx as [_ ?].
Qed.

Lemma filter_comm {A} (p q : A -> bool) l :
  List.filter p (List.filter q l) = List.filter q (List.filter p l).
Proof.
  induction l as [| x l IH]; [done |]. cbn.
  destruct (p x) eqn:Hp, (q x) eqn:Hq; cbn; rewrite ?Hp, ?Hq, IH; done.
Qed.

End RuleBaseMore.

(** X18.  Lookups after [add_rule]: a rule already found under an
    identifier stays the one found -- a later rule with the same identifier
    is never returned by [get_rule_by_id] -- and an identifier not yet
    present resolves to the added rule; [get_rules_by_consequent] lists the
    added rule last among the rules of its consequent. *)
Theorem lookup_after_add_rule (rb : RuleBase) (rule : Rule) (rid c : string) :
  get_rule_by_id (add_rule rb rule) rid =
    match get_rule_by_id rb rid with
    | Some found => Some found
    | None => if String.eqb (rule_id rule) rid then Some rule else None
    end /\
  get_rules_by_consequent (add_rule rb rule) c =
    get_rules_by_consequent rb c ++
    (if String.eqb (consequent rule) c then [rule] else []).
Proof.
  split.
  - unfold get_rule_by_id, add_rule. cbn [rules]. by rewrite find_app_cases.
  - unfold get_rules_by_consequent, add_rule. cbn [rules]. by rewrite List.filter_app.
Qed.

(** X19.  [remove_rule] undoes [add_rule] for an identifier that was not in
    the base; removing an absent identifier changes nothing; removing twice
    is the same as removing once; and removals of two identifiers commute. *)
Theorem remove_rule_laws (rb : RuleBase) (rule : Rule) (i j : string) :
  (forall x, In x (rules rb) -> rule_id x <> rule_id rule) ->
  remove_rule (add_rule rb rule) (rule_id rule) = rb /\
  get_rule_by_id (add_rule rb rule) (rule_id rule) = Some rule /\
  remove_rule rb (rule_id rule) = rb /\
  remove_rule (remove_rule rb i) i = remove_rule rb i /\
  remove_rule (remove_rule rb i) j = remove_rule (remove_rule rb j) i.
Proof.
  intros Hfresh.
  assert (List.filter (fun x => negb (String.eqb (rule_id x) (rule_id rule))) (rules rb)
          = rules rb) as Hkeep.
  { apply filter_all. intros x Hx. by apply negb_true_iff, String.eqb_neq, Hfresh. }
  repeat split.
  - unfold remove_rule, add_rule. cbn [rules]. rewrite List.filter_app, Hkeep.
    cbn. rewrite String.eqb_refl. cbn. rewrite app_nil_r. by destruct rb.
  - unfold get_rule_by_id, add_rule. cbn [rules]. rewrite find_app_cases.
    replace (List.find _ (rules rb)) with (@None Rule).
    + cbn. by rewrite String.eqb_refl.
    + symmetry. apply find_none_all. intros x Hx.
      by apply String.eqb_neq, Hfresh.
  - unfold remove_rule. rewrite Hkeep. by destruct rb.
  - unfold remove_rule. cbn [rules]. by rewrite filter_filter_same.
  - unfold remove_rule. cbn [rules]. by rewrite filter_comm.
Qed.

Lemma remove_rule_laws_witness :
  remove_rule (add_rule new_rule_base R_escalate) "RX" = new_rule_base /\
  get_rule_by_id (add_rule new_rule_base R_escalate) "RX" = Some R_escalate.
Proof.
  destruct (remove_rule_laws new_rule_base R_escalate "R1" "R2") as (H1 & H2 & _).
  - cbn. intros x [<- | [<- | [<- | [<- | [<- | [<- | [<- | [<- | []]]]]]]]]; discriminate.
  - split; [exact H1 | exact H2].
Defined.

(** Nothing in an evaluation reads a fired counter: every step of the two
    inference engines over the reset rule base mirrors the step over the
    original one, rule for rule, with the same journal. *)
Section CounterIndependence.

Local Abbreviation reset_groups :=
  (map (fun kv : string * list Rule => (fst kv, map reset_rule (snd kv)))).

Lemma py_max_reset key first rest :
  (forall r, key (reset_rule r) = key r) ->
  py_max key (reset_rule first) (map reset_rule rest) = reset_rule (py_max key first rest).
Proof.
  intros Hkey. unfold py_max. revert first.
  induction rest as [| x rest IH]; intros first; [done |]. cbn [map fold_left].
  rewrite !Hkey. destruct (key_gt (key x) (key first)); apply IH.
Qed.

Lemma resolve_reset cr rs tl :
  resolve cr (map reset_rule rs) tl =
  (reset_rule <$> fst (resolve cr rs tl), snd (resolve cr rs tl)).
Proof.
  destruct rs as [| first [| second rest]]; [done | done |].
  unfold resolve, log_conflict, _resolve_by_priority, _resolve_by_specificity,
    _resolve_by_priority_specificity.
  cbn [map fst snd]. rewrite !map_map.
  change (map (fun x => rule_id (reset_rule x)) rest) with (map rule_id rest).
  change (reset_rule second :: map reset_rule rest)
    with (map reset_rule (second :: rest)).
  rewrite !py_max_reset by done.
  destruct (String.eqb (strategy cr) "priority"); [done |].
  destruct (String.eqb (strategy cr) "specificity"); [done |].
  by destruct (String.eqb (strategy cr) "priority_specificity").
Qed.

Lemma resolve_by_decision_step_reset cr st d rs :
  resolve_by_decision_step cr st (d, map reset_rule rs) =
  resolve_by_decision_step cr st (d, rs).
Proof.
  destruct st as [[bd bs] tl]. destruct rs as [| r rs]; [done |].
  unfold resolve_by_decision_step.
  change (map reset_rule (r :: rs)) with (reset_rule r :: map reset_rule rs) at 1.
  change (reset_rule r :: map reset_rule rs) with (map reset_rule (r :: rs)).
  rewrite resolve_reset.
  destruct (resolve cr (r :: rs) tl) as [[w |] tl']; done.
Qed.

Lemma resolve_by_decision_reset cr groups tl :
  resolve_by_decision cr (reset_groups groups) tl = resolve_by_decision cr groups tl.
Proof.
  unfold resolve_by_decision.
  assert (forall st, fold_left (resolve_by_decision_step cr) (reset_groups groups) st =
                     fold_left (resolve_by_decision_step cr) groups st) as ->; [| done].
  induction groups as [| [d rs] groups IH]; intros st; [done |].
  cbn [map fold_left fst snd]. by rewrite resolve_by_decision_step_reset, IH.
Qed.

Lemma dict_contains_reset dec k :
  dict_contains (reset_groups dec) k = dict_contains dec k.
Proof.
  unfold dict_contains. induction dec as [| kv dec IH]; [done |].
  cbn [map existsb fst]. by rewrite IH.
Qed.

Lemma dict_append_reset dec k r :
  dict_append (reset_groups dec) k (reset_rule r) = reset_groups (dict_append dec k r).
Proof.
  unfold dict_append. rewrite dict_contains_reset.
  destruct (dict_contains dec k).
  - rewrite !map_map. apply map_ext. intros [k' rs]. cbn [fst snd].
    destruct (String.eqb k' k); cbn [fst snd]; [| done]. by rewrite map_app.
  - by rewrite map_app.
Qed.

Lemma fc_rule_step_reset a fired ti dec tl rule :
  fc_rule_step a (map reset_rule fired) (map reset_rule ti, reset_groups dec, tl)
               (reset_rule rule) =
  (let '(ti', dec', tl') := fc_rule_step a fired (ti, dec, tl) rule in
   (map reset_rule ti', reset_groups dec', tl')).
Proof.
  unfold fc_rule_step. rewrite map_map.
  change (map (fun x => rule_id (reset_rule x)) fired) with (map rule_id fired).
  change (rule_id (reset_rule rule)) with (rule_id rule).
  change (evaluate (reset_rule rule) a) with (evaluate rule a).
  destruct (existsb _ _); [done |].
  destruct (evaluate rule a); [| done].
  change (consequent (reset_rule rule)) with (consequent rule).
  change (description (reset_rule rule)) with (description rule).
  by rewrite dict_append_reset, map_app.
Qed.

Lemma fc_fold_reset a fired l ti dec tl :
  fold_left (fc_rule_step a (map reset_rule fired)) (map reset_rule l)
            (map reset_rule ti, reset_groups dec, tl) =
  (let '(ti', dec', tl') := fold_left (fc_rule_step a fired) l (ti, dec, tl) in
   (map reset_rule ti', reset_groups dec', tl')).
Proof.
  revert ti dec tl. induction l as [| r l IH]; intros ti dec tl; [done |].
  cbn [map fold_left]. rewrite fc_rule_step_reset.
  destruct (fc_rule_step a fired (ti, dec, tl) r) as [[ti1 dec1] tl1]. apply IH.
Qed.

Lemma fc_while_reset n rb a st :
  fc_while n (reset_fired_counts rb) a
    (mkFC (iteration st) (map reset_rule (rules_fired st)) (reset_groups (decisions st))
          (fc_logger st)) =
  (let st' := fc_while n rb a st in
   mkFC (iteration st') (map reset_rule (rules_fired st')) (reset_groups (decisions st'))
        (fc_logger st')).
Proof.
  revert st. induction n as [| n IH]; intros st; [done |].
  cbn [fc_while rules_fired decisions fc_logger iteration].
  unfold get_all_rules, reset_fired_counts. cbn [rules].
  pose proof (fc_fold_reset a (rules_fired st) (rules rb) [] (decisions st) (fc_logger st))
    as Hfold.
  destruct (fold_left (fc_rule_step a (rules_fired st)) (rules rb)
              ([], decisions st, fc_logger st)) as [[ti dec] tl] eqn:E.
  cbn [map] in Hfold. unfold Decisions in *. rewrite E in Hfold. rewrite Hfold.
  destruct ti as [| r ti]; cbn [map].
  - cbv zeta. cbn [iteration rules_fired decisions fc_logger]. by rewrite List.map_app.
  - pose proof (IH (mkFC (S (iteration st)) (rules_fired st ++ r :: ti) dec tl)) as H.
    cbv zeta in H. cbn [iteration rules_fired decisions fc_logger] in H.
    rewrite List.map_app in H. exact H.
Qed.

Lemma fc_infer_reset rb cr tl a :
  fc_infer (reset_fired_counts rb) cr tl a = fc_infer rb cr tl a.
Proof.
  unfold fc_infer, fc_run.
  assert (max_iterations (reset_fired_counts rb) = max_iterations rb) as ->.
  { unfold max_iterations, get_all_rules, reset_fired_counts. cbn [rules].
    by rewrite length_map. }
  pose proof (fc_while_reset (max_iterations rb) rb a
                (mkFC 0 [] []
                   (log "SYSTEM" "Initial facts: " None
                      (start "Forward Chaining" (applicant_id a) tl)))) as H.
  cbn [map iteration rules_fired decisions fc_logger] in H. rewrite H. cbv zeta.
  cbn [decisions fc_logger].
  destruct (decisions (fc_while _ rb a _)) as [| [d rs] [| kv more]]; [done | done |].
  change (reset_groups ((d, rs) :: kv :: more))
    with ((d, map reset_rule rs) :: (fst kv, map reset_rule (snd kv)) :: reset_groups more).
  cbv iota beta.
  change ((d, map reset_rule rs) :: (fst kv, map reset_rule (snd kv)) :: reset_groups more)
    with (reset_groups ((d, rs) :: kv :: more)).
  by rewrite resolve_by_decision_reset.
Qed.

Lemma get_rules_by_consequent_reset rb g :
  get_rules_by_consequent (reset_fired_counts rb) g =
  map reset_rule (get_rules_by_consequent rb g).
Proof.
  unfold get_rules_by_consequent, reset_fired_counts. cbn [rules].
  induction (rules rb) as [| r l IH]; [done |]. cbn [map List.filter].
  change (consequent (reset_rule r)) with (consequent r).
  destruct (String.eqb (consequent r) g); cbn [map]; by rewrite IH.
Qed.

Lemma bc_fold_reset a goal indent l sat tl :
  fold_left (bc_rule_step a goal indent) (map reset_rule l) (map reset_rule sat, tl) =
  (let '(sat', tl') := fold_left (bc_rule_step a goal indent) l (sat, tl) in
   (map reset_rule sat', tl')).
Proof.
  revert sat tl. induction l as [| r l IH]; intros sat tl; [done |].
  cbn [map fold_left]. unfold bc_rule_step at 2 4.
  change (evaluate (reset_rule r) a) with (evaluate r a).
  change (rule_id (reset_rule r)) with (rule_id r).
  change (description (reset_rule r)) with (description r).
  destruct (evaluate r a); [| apply IH].
  rewrite <- (IH (sat ++ [r])). by rewrite map_app.
Qed.

Lemma prove_goal_reset rb cr goal a depth bc :
  _prove_goal (reset_fired_counts rb) cr goal a depth bc = _prove_goal rb cr goal a depth bc.
Proof.
  unfold _prove_goal. rewrite get_rules_by_consequent_reset.
  destruct (decide _); [done |]. destruct (decide _); [done |].
  destruct (depth >? 10); [done |].
  destruct (get_rules_by_consequent rb goal) as [| r rs]; [done |].
  change (map reset_rule (r :: rs)) with (reset_rule r :: map reset_rule rs) at 1.
  cbv iota beta.
  change (reset_rule r :: map reset_rule rs) with (map reset_rule (r :: rs)).
  pose proof (bc_fold_reset a goal (indent_of depth) (r :: rs) []
                (bc_logger (bc_log "SYSTEM" (indent_of depth +:+ "Proving goal: " +:+ goal)
                              (mkBC (bc_logger bc) (proven_goals bc) (failed_goals bc)
                                    (prove_calls bc ++ [depth]))))) as Hfold.
  cbn [map] in Hfold. cbn [map]. rewrite Hfold.
  destruct (fold_left _ (r :: rs) _) as [[| first others] tl]; [done |].
  cbn [map]. destruct others as [| o others]; [done |]. cbn [map].
  change (reset_rule first :: reset_rule o :: map reset_rule others)
    with (map reset_rule (first :: o :: others)).
  rewrite resolve_reset.
  by destruct (resolve cr (first :: o :: others) (Some tl)) as [[w |] otl].
Qed.

Lemma bc_goal_loop_reset rb cr a gs bc :
  bc_goal_loop (reset_fired_counts rb) cr a gs bc = bc_goal_loop rb cr a gs bc.
Proof.
  revert bc. induction gs as [| g gs IH]; intros bc; [done |].
  cbn [bc_goal_loop]. rewrite prove_goal_reset.
  destruct (_prove_goal rb cr g a 0 _) as [[|] bc2]; [done | apply IH].
Qed.

Lemma bc_infer_reset rb cr bc a :
  bc_infer (reset_fired_counts rb) cr bc a = bc_infer rb cr bc a.
Proof. unfold bc_infer. by rewrite bc_goal_loop_reset. Qed.

End CounterIndependence.

(** X20.  [reset_fired_counts] sets every counter to zero -- whatever
    [fire] had counted -- and keeps the rules' identifiers, order and
    content: lookup by identifier finds the same rule with its counter
    cleared.  The counters are never read by an evaluation: forward and
    backward inference over the reset rule base return the same result,
    journal and record as over the original one, and so does
    [evaluate_applicant], for every chaining type, every rule (callables
    included) and every record; more generally, two rule bases that differ
    only in fired counters give the same evaluation. *)
Theorem reset_fired_counts_only_clears (eng : RuleEngine) (rid : string) (a : Applicant) :
  let rb := rule_base eng in
  let with_rules := fun rb' =>
    mkEngine (chaining_type eng) rb' (conflict_resolver eng) (forward_chain eng)
             (backward_chain eng) in
  Forall (fun r => fired_count r = 0) (rules (reset_fired_counts rb)) /\
  map rule_id (rules (reset_fired_counts rb)) = map rule_id (rules rb) /\
  get_rule_by_id (reset_fired_counts rb) rid = reset_rule <$> get_rule_by_id rb rid /\
  (forall r, fired_count (snd (fire r)) = fired_count r + 1 /\
             reset_rule (snd (fire r)) = reset_rule r) /\
  (forall cr tl, fc_infer (reset_fired_counts rb) cr tl a = fc_infer rb cr tl a) /\
  (forall cr bc, bc_infer (reset_fired_counts rb) cr bc a = bc_infer rb cr bc a) /\
  (forall rb',
     reset_fired_counts rb' = reset_fired_counts rb ->
     fst (fst (evaluate_applicant (with_rules rb') a)) = fst (fst (evaluate_applicant eng a)) /\
     snd (evaluate_applicant (with_rules rb') a) = snd (evaluate_applicant eng a) /\
     forward_chain (snd (fst (evaluate_applicant (with_rules rb') a))) =
       forward_chain (snd (fst (evaluate_applicant eng a))) /\
     backward_chain (snd (fst (evaluate_applicant (with_rules rb') a))) =
       backward_chain (snd (fst (evaluate_applicant eng a)))).
Proof.
  cbv zeta. split; [| split; [| split; [| split; [| split; [| split]]]]].
  - unfold reset_fired_counts. cbn [rules]. apply List.Forall_forall.
    intros r Hr. apply in_map_iff in Hr as (r0 & <- & _). done.
  - unfold reset_fired_counts. cbn [rules]. rewrite map_map. done.
  - unfold get_rule_by_id, reset_fired_counts. cbn [rules].
    induction (rules (rule_base eng)) as [| r l IH]; [done |]. cbn [map List.find].
    change (rule_id (reset_rule r)) with (rule_id r).
    by destruct (String.eqb (rule_id r) rid).
  - done.
  - intros cr tl. apply fc_infer_reset.
  - intros cr bc. apply bc_infer_reset.
  - intros rb' Hrb'. unfold evaluate_applicant.
    cbn [chaining_type rule_base conflict_resolver forward_chain backward_chain].
    assert (forall cr tl x, fc_infer rb' cr tl x = fc_infer (rule_base eng) cr tl x) as Hfc.
    { intros cr tl x. by rewrite <- (fc_infer_reset rb'), Hrb', fc_infer_reset. }
    assert (forall cr bc x, bc_infer rb' cr bc x = bc_infer (rule_base eng) cr bc x) as Hbc.
    { intros cr bc x. by rewrite <- (bc_infer_reset rb'), Hrb', bc_infer_reset. }
    rewrite Hfc.
    destruct (String.eqb (chaining_type eng) "forward" || String.eqb (chaining_type eng) "both");
      [destruct (fc_infer _ _ _ a) as [[fr ftl] a1] |];
      (destruct (String.eqb (chaining_type eng) "backward"
                 || String.eqb (chaining_type eng) "both");
       [rewrite Hbc; destruct (bc_infer _ _ _ _) as [[br bc] a2] |]);
      destruct (if String.eqb (chaining_type eng) "forward" then _ else _)
        as [[d why] | e]; done.
Qed.

(** ** The decision tally of the batch endpoint *)

Section TallyFacts.

Lemma tally_fold results acc d :
  fold_left tally_step results acc !! d =
  match length (List.filter (fun res => bool_decide (final_decision res = d)) results) with
  | O => acc !! d
  | S n => Some (default 0 (acc !! d) + Z.of_nat (S n))
  end.
Proof.
  revert acc. induction results as [| res l IH]; intros acc; [done |].
  cbn [fold_left List.filter]. rewrite IH. unfold tally_step.
  destruct (decide (final_decision res = d)) as [-> | Hne].
  - rewrite bool_decide_eq_true_2 by done. cbn [length].
    rewrite lookup_insert_eq.
    destruct (length _); unfold default; cbn [from_option id]; f_equal; lia.
  - rewrite bool_decide_eq_false_2 by done. by rewrite lookup_insert_ne.
Qed.

End TallyFacts.

(** X21.  The tally built from a list of results maps each final decision
    to the number of results carrying it, and has no entry for a decision
    that no result carries. *)
Theorem tally_counts_decisions (results : list Results) (d : option string) :
  tally_decisions results !! d =
  match length (List.filter (fun res => bool_decide (final_decision res = d)) results) with
  | O => None
  | S n => Some (Z.of_nat (S n))
  end.
Proof.
  unfold tally_decisions. rewrite tally_fold, lookup_empty.
  destruct (length _); [done |]. unfold default. cbn [from_option id]. f_equal.
Qed.

(** ** Forward chaining: the RULE_FIRE entries of the journal *)

Section FireCounts.

Lemma fire_calls_app cs1 cs2 : fire_calls (cs1 ++ cs2) = (fire_calls cs1 + fire_calls cs2)%nat.
Proof. unfold fire_calls. by rewrite filter_app, length_app. Qed.

Lemma logged_fires_refl tl : logged_fires tl tl 0.
Proof. by exists []. Qed.

Lemma logged_fires_trans tl0 tl1 tl2 k1 k2 :
  logged_fires tl0 tl1 k1 -> logged_fires tl1 tl2 k2 -> logged_fires tl0 tl2 (k1 + k2).
Proof.
  intros (cs1 & H1 & <-) (cs2 & H2 & <-). exists (cs1 ++ cs2).
  by rewrite run_calls_app, H1, fire_calls_app.
Qed.

Lemma logged_fires_other c tl0 tl tl' k :
  level (entry_of c) <> "RULE_FIRE" ->
  logged_fires tl0 tl k -> do_call c tl = Ok tl' -> logged_fires tl0 tl' k.
Proof.
  intros Hne (cs & Hcs & <-) Hc. exists (cs ++ [c]).
  rewrite run_calls_app, Hcs, fire_calls_app. cbn [run_calls]. rewrite Hc.
  split; [done |]. unfold fire_calls at 2. rewrite filter_cons, decide_False by done.
  cbn. lia.
Qed.

Lemma logged_fires_log lvl msg rid tl0 tl k :
  lvl <> "RULE_FIRE" ->
  logged_fires tl0 tl k -> logged_fires tl0 (log lvl msg rid tl) k.
Proof. intros Hne H. by apply (logged_fires_other (CallLog lvl msg rid) _ _ _ _ Hne H). Qed.

Lemma logged_fires_evaluation rid m d tl0 tl k :
  logged_fires tl0 tl k -> logged_fires tl0 (log_rule_evaluation rid m d tl) k.
Proof.
  intros H.
  by apply (logged_fires_other (CallRuleEvaluation rid m d) _ _ _ _ ltac:(done) H).
Qed.

Lemma logged_fires_conflict rs w tl0 tl k :
  logged_fires tl0 tl k -> logged_fires tl0 (log_conflict rs w tl) k.
Proof.
  intros H. by apply (logged_fires_other (CallConflict rs w) _ _ _ _ ltac:(done) H).
Qed.

Lemma logged_fires_decision d tl0 tl k :
  started tl0 = true ->
  logged_fires tl0 tl k -> logged_fires tl0 (returned (log_decision d tl) tl) k.
Proof.
  intros Hst H.
  assert (started tl = true) as Hs.
  { destruct H as (cs & Hcs & _). apply run_calls_invariant in Hcs as [_ ->]. done. }
  apply (logged_fires_other (CallDecision d) _ _ _ _ ltac:(done) H). cbn [do_call].
  by rewrite log_decision_started.
Qed.

Lemma logged_fires_fired rid c tl0 tl k :
  logged_fires tl0 tl k -> logged_fires tl0 (log_rule_fired rid c tl) (S k).
Proof.
  intros (cs & Hcs & <-). exists (cs ++ [CallRuleFired rid c]).
  rewrite run_calls_app, Hcs, fire_calls_app. split; [done |].
  unfold fire_calls at 2. rewrite filter_cons, decide_True by done. cbn. lia.
Qed.

Lemma resolve_fires cr rs tl0 tl k :
  logged_fires tl0 tl k ->
  exists tl', snd (resolve cr rs (Some tl)) = Some tl' /\ logged_fires tl0 tl' k.
Proof.
  intros H. destruct rs as [| r [| r2 rest]]; cbn -[log_conflict]; eexists;
    (split; [done |]); [done | done |].
  apply logged_fires_conflict. by apply logged_fires_log.
Qed.

Lemma resolve_by_decision_fires cr groups tl0 tl k :
  logged_fires tl0 tl k ->
  exists tl', snd (resolve_by_decision cr groups (Some tl)) = Some tl' /\
              logged_fires tl0 tl' k.
Proof.
  intros H. unfold resolve_by_decision.
  assert (forall bd bs tl1, logged_fires tl0 tl1 k -> exists bd' bs' tl',
            fold_left (resolve_by_decision_step cr) groups (bd, bs, Some tl1) =
              (bd', bs', Some tl') /\ logged_fires tl0 tl' k) as Hfold.
  { clear tl H. induction groups as [| [d rules] groups IH]; intros bd bs tl1 H1;
      cbn [fold_left].
    - by do 3 eexists.
    - destruct rules as [| r rs]; cbn -[resolve score_gt]; [by apply IH |].
      destruct (resolve_fires cr (r :: rs) tl0 tl1 k H1) as (tl2 & Htl & H2).
      destruct (resolve cr (r :: rs) (Some tl1)) as [w otl]. cbn [snd] in Htl. subst otl.
      destruct w as [w |]; [| by apply IH].
      destruct (score_gt _ _) as [[|] | e]; by apply IH. }
  destruct (Hfold None (ScoreInt (-1)) tl H) as (bd' & bs' & tl' & -> & H').
  by exists tl'.
Qed.

Lemma fc_fold_fires a fired l ti dec tl0 tl k :
  logged_fires tl0 tl k ->
  exists j,
    length (fst (fst (fold_left (fc_rule_step a fired) l (ti, dec, tl)))) =
      (length ti + j)%nat /\
    logged_fires tl0 (snd (fold_left (fc_rule_step a fired) l (ti, dec, tl))) (k + j).
Proof.
  revert ti dec tl k. induction l as [| r l IH]; intros ti dec tl k H.
  - exists 0%nat. cbn. rewrite !Nat.add_0_r. done.
  - cbn [fold_left]. unfold fc_rule_step at 2 4.
    destruct (existsb _ _); [by apply IH |].
    destruct (evaluate r a).
    + destruct (IH (ti ++ [r]) (dict_append dec (consequent r) r)
                  (log_rule_fired (rule_id r) (consequent r)
                     (log_rule_evaluation (rule_id r) true (description r) tl)) (S k))
        as (j & Hj & Hlog).
      { by apply logged_fires_fired, logged_fires_evaluation. }
      exists (S j). rewrite Hj, length_app. cbn. split; [lia |].
      by replace (k + S j)%nat with (S k + j)%nat by lia.
    + apply IH. by apply logged_fires_evaluation.
Qed.

Lemma fc_while_fires n rb a st tl0 k :
  logged_fires tl0 (fc_logger st) k ->
  exists j,
    length (rules_fired (fc_while n rb a st)) = (length (rules_fired st) + j)%nat /\
    logged_fires tl0 (fc_logger (fc_while n rb a st)) (k + j).
Proof.
  revert st k. induction n as [| n IH]; intros st k H.
  - exists 0%nat. cbn. rewrite !Nat.add_0_r. done.
  - cbn [fc_while].
    destruct (fc_fold_fires a (rules_fired st) (get_all_rules rb) [] (decisions st)
                tl0 (fc_logger st) k H) as (j & Hj & Hlog).
    destruct (fold_left _ _ _) as [[ti dec] tl]. cbn [fst snd length] in Hj, Hlog.
    destruct ti as [| r ti].
    + exists 0%nat. cbn [rules_fired fc_logger]. rewrite app_nil_r, !Nat.add_0_r.
      cbn in Hj. subst j. by rewrite Nat.add_0_r in Hlog.
    + destruct (IH (mkFC (S (iteration st)) (rules_fired st ++ r :: ti) dec tl) (k + j)%nat)
        as (j' & Hj' & Hlog'); [done |].
      exists (j + j')%nat. rewrite Hj'. cbn [rules_fired]. rewrite length_app, Hj.
      split; [lia |]. by rewrite Nat.add_assoc.
Qed.

Lemma fc_infer_fires rb cr tl0 a :
  logged_fires (start "Forward Chaining" (applicant_id a) tl0)
               (snd (fst (fc_infer rb cr tl0 a)))
               (length (satisfied_rules rb a)).
Proof.
  destruct (fc_run_state rb a tl0) as [Hfired _].
  destruct (fc_while_fires (max_iterations rb) rb a
              (mkFC 0 [] [] (log "SYSTEM" "Initial facts: " None
                               (start "Forward Chaining" (applicant_id a) tl0)))
              (start "Forward Chaining" (applicant_id a) tl0) 0)
    as (j & Hj & Hlog).
  { cbn [fc_logger]. apply logged_fires_log; [done | apply logged_fires_refl]. }
  fold (fc_run rb tl0 a) in Hj, Hlog. rewrite Hfired in Hj. cbn in Hj, Hlog.
  rewrite Hj. unfold fc_infer.
  destruct (decisions (fc_run rb tl0 a)) as [| [d rs] [| kv more]]; cbn [fst snd];
    [by apply logged_fires_decision; [apply start_started |] .. |].
  destruct (resolve_by_decision_fires cr ((d, rs) :: kv :: more)
              (start "Forward Chaining" (applicant_id a) tl0)
              (fc_logger (fc_run rb tl0 a)) j Hlog) as (tl' & Htl & Hlog').
  destruct (resolve_by_decision _ _ _) as [d' otl]. cbn [snd] in Htl. subst otl.
  cbn [fst snd default]. by apply logged_fires_decision; [apply start_started |].
Qed.

Lemma filter_take_length {A} (P : A -> Prop) `{forall x, Decision (P x)} n (l : list A) :
  (length (filter P (take n l)) <= length (filter P l))%nat.
Proof.
  rewrite <- (take_drop n l) at 2. rewrite filter_app, length_app. lia.
Qed.

Lemma fire_entries cs :
  length (filter (fun e => level e = "RULE_FIRE") (map entry_of cs)) = fire_calls cs.
Proof.
  unfold fire_calls. induction cs as [| c cs IH]; [done |].
  cbn [map]. rewrite !filter_cons. case_decide; cbn [length]; by rewrite IH.
Qed.

End FireCounts.

(** X22.  The [rules_fired] counter of the summary that forward chaining
    returns never exceeds the number of rules that hold for the record, and
    equals it whenever the journal did not fill up
    ([total_entries] below the capacity). *)
Theorem forward_summary_counts_fired (rb : RuleBase) (cr : ConflictResolver)
    (tl0 : TraceLogger) (a : Applicant) :
  0 <= max_depth tl0 ->
  let summary := snd (fst (fst (fc_infer rb cr tl0 a))) in
  (rules_fired_count summary <= length (List.filter (fun r => evaluate r a) (rules rb)))%nat /\
  (Z.of_nat (total_entries summary) < max_depth tl0 ->
   rules_fired_count summary = length (List.filter (fun r => evaluate r a) (rules rb))).
Proof.
  intros Hn summary. unfold summary.
  destruct (fc_infer_logged rb cr tl0 a) as [_ ->].
  destruct (fc_infer_fires rb cr tl0 a) as (cs & Hrun & Hk).
  fold (satisfied_rules rb a). rewrite <- Hk, <- fire_entries.
  unfold get_summary. cbn [rules_fired_count total_entries].
  pose proof (start_length "Forward Chaining" (applicant_id a) tl0 Hn) as Hs.
  pose proof (start_max_depth "Forward Chaining" (applicant_id a) tl0) as Hmd.
  rewrite (run_calls_take cs (start "Forward Chaining" (applicant_id a) tl0) _
             ltac:(lia) Hrun), Hmd.
  assert (exists e0, trace (start "Forward Chaining" (applicant_id a) tl0) ++ map entry_of cs
                     = e0 ++ map entry_of cs /\
                     filter (fun e => level e = "RULE_FIRE") e0 = []) as (e0 & -> & He0).
  { eexists. split; [done |]. unfold start, log. cbn [trace length max_depth].
    by case_match. }
  split.
  - etrans; [apply filter_take_length |]. by rewrite filter_app, He0.
  - intros Hlt. rewrite length_take in Hlt.
    rewrite take_ge by lia. by rewrite filter_app, He0.
Qed.

Lemma forward_summary_counts_fired_witness :
  (rules_fired_count (snd (fst (fst (fc_infer new_rule_base (new_resolver None)
                                               new_logger A5))))
   <= length (List.filter (fun r => evaluate r A5) (rules new_rule_base)))%nat.
Proof.
  destruct (forward_summary_counts_fired new_rule_base (new_resolver None) new_logger A5)
    as [H _].
  - cbn. lia.
  - exact H.
Defined.

Example forward_summary_counts_two_fired :
  rules_fired_count (snd (fst (fst (fc_infer new_rule_base (new_resolver None)
                                             new_logger A5)))) = 2%nat.
Proof. vm_compute. reflexivity. Qed.

(** ** Rule engine: what happens when an evaluation raises *)

Section RaiseFacts.

Lemma merge_both_raises fc bc e :
  merge_both fc bc = Raise e ->
  e = KeyError /\ fc <> bc /\
  (merge_priority !! fc = None \/ merge_priority !! bc = None).
Proof.
  unfold merge_both. destruct (String.eqb_spec fc bc) as [-> | Hne]; [discriminate |].
  destruct (merge_priority !! fc), (merge_priority !! bc); try discriminate;
    intros [= <-]; auto.
Qed.

End RaiseFacts.

(** X23.  With a chaining type other than 'forward', 'backward' and 'both',
    [evaluate_applicant] runs neither strategy and raises [TypeError]; the
    engine and the fact record are left exactly as they were. *)
Theorem unknown_chaining_type_raises (eng : RuleEngine) (a : Applicant) :
  chaining_type eng <> "forward" ->
  chaining_type eng <> "backward" ->
  chaining_type eng <> "both" ->
  evaluate_applicant eng a = (Raise TypeError, eng, a).
Proof.
  intros Hf Hb Hboth. unfold evaluate_applicant.
  apply String.eqb_neq in Hf, Hb, Hboth. rewrite Hf, Hb, Hboth. cbn.
  by destruct eng.
Qed.

Lemma unknown_chaining_type_raises_witness :
  evaluate_applicant (new_engine "sideways") A1 = (Raise TypeError, new_engine "sideways", A1).
Proof. apply unknown_chaining_type_raises; discriminate. Defined.

(** X24.  When an evaluation with both strategies raises, the exception is
    the [KeyError] of the precedence lookup: the two opinions differ and one
    of them is not in the precedence table.  Nothing is rolled back: the
    record then carries the two assignments of the sub-engines, and its
    decision field holds the backward-chaining decision. *)
Theorem merge_failure_leaves_writes (eng : RuleEngine) (a : Applicant) (e : PyExc) :
  chaining_type eng = "both" ->
  fst (fst (evaluate_applicant eng a)) = Raise e ->
  let fc := fc_infer (rule_base eng) (conflict_resolver eng) (forward_chain eng) a in
  let bc := bc_infer (rule_base eng) (conflict_resolver eng) (backward_chain eng) (snd fc) in
  let fc_decision := fst (fst (fst fc)) in
  let bc_decision := fst (fst (fst bc)) in
  e = KeyError /\
  fc_decision <> bc_decision /\
  (merge_priority !! fc_decision = None \/ merge_priority !! bc_decision = None) /\
  decision (snd (evaluate_applicant eng a)) = Some bc_decision /\
  decision_writes (snd (evaluate_applicant eng a)) =
    decision_writes a ++ [fc_decision; bc_decision].
Proof.
  intros Hct. rewrite (evaluate_applicant_both eng a Hct). cbv zeta.
  pose proof (fc_infer_writes (rule_base eng) (conflict_resolver eng) (forward_chain eng) a)
    as [Hfw _].
  destruct (fc_infer _ _ _ a) as [[[fd fs] ftl] a1]. cbn [fst snd] in *.
  pose proof (bc_infer_writes (rule_base eng) (conflict_resolver eng) (backward_chain eng) a1)
    as [Hbw Hbd].
  destruct (bc_infer _ _ _ a1) as [[[bd bs] bc] a2]. cbn [fst snd] in *.
  destruct (merge_both fd bd) as [[d why] | e'] eqn:Hm; cbn [fst snd]; [discriminate |].
  intros [= <-]. destruct (merge_both_raises fd bd e' Hm) as (He & Hne & Hnone).
  repeat split; try done. rewrite Hbw, Hfw. by rewrite <- app_assoc.
Qed.

Lemma merge_failure_leaves_writes_witness :
  decision (snd (evaluate_applicant
                   (mkEngine "both" (add_rule new_rule_base R_escalate) (new_resolver None)
                             new_logger new_backward_chaining) QUIET)) =
  Some "Manual Review".
Proof.
  destruct (merge_failure_leaves_writes
              (mkEngine "both" (add_rule new_rule_base R_escalate) (new_resolver None)
                        new_logger new_backward_chaining) QUIET KeyError)
    as (_ & _ & _ & Hd & _).
  - reflexivity.
  - vm_compute. reflexivity.
  - rewrite Hd. vm_compute. reflexivity.
Defined.

(** ** The reasoning trace written on the record *)

Section ReasoningTrace.

Lemma run_calls_full cs tl tl' :
  max_depth tl <= Z.of_nat (length (trace tl)) -> run_calls cs tl = Ok tl' -> tl' = tl.
Proof.
  intros Hfull. induction cs as [| c cs IH]; cbn [run_calls]; [by intros [= <-] |].
  destruct (do_call c tl) as [tl1 |] eqn:E; [| discriminate].
  apply do_call_ok in E. rewrite log_full in E by done. by subst tl1.
Qed.

Lemma run_without_capacity ct id tl tl' :
  max_depth tl <= 0 -> logged_from (start ct id tl) tl' -> trace tl' = [].
Proof.
  intros Hn [cs Hcs].
  assert (start ct id tl = mkLogger (max_depth tl) [] true) as Hstart.
  { unfold start. apply log_full. cbn. lia. }
  rewrite Hstart in Hcs. apply run_calls_full in Hcs as ->; [done | cbn; lia].
Qed.

Lemma run_with_capacity ct id tl tl' :
  1 <= max_depth tl -> logged_from (start ct id tl) tl' ->
  exists rest,
    trace tl' =
    mkEntry "SYSTEM" ("Starting " +:+ ct +:+ " for applicant " +:+ id) None :: rest.
Proof.
  intros Hn [cs Hcs].
  assert (run_calls (CallLog "SYSTEM"
                       ("Starting " +:+ ct +:+ " for applicant " +:+ id) None :: cs)
                    (mkLogger (max_depth tl) [] true) = Ok tl') as H by exact Hcs.
  apply run_calls_take in H; [| cbn; lia].
  cbn [trace length max_depth app map entry_of] in H. rewrite H.
  destruct (Z.to_nat (max_depth tl)) as [| n] eqn:E; [lia |]. cbn. by eexists.
Qed.

Lemma fc_infer_reasoning rb cr tl0 a :
  reasoning_trace (snd (fc_infer rb cr tl0 a)) =
  match trace (snd (fst (fc_infer rb cr tl0 a))) with
  | [] => reasoning_trace a
  | e :: t => e :: t
  end.
Proof.
  unfold fc_infer.
  by destruct (match decisions (fc_run rb tl0 a) with
               | [] => _ | [(d, _)] => _ | _ => _ end) as [final tl3].
Qed.

Lemma bc_infer_reasoning rb cr bc0 a :
  reasoning_trace (snd (bc_infer rb cr bc0 a)) =
  match trace (bc_logger (snd (fst (bc_infer rb cr bc0 a)))) with
  | [] => reasoning_trace a
  | e :: t => e :: t
  end.
Proof.
  unfold bc_infer. by destruct (bc_goal_loop rb cr a goals _) as [[d |] bc2].
Qed.

End ReasoningTrace.

(** X25.  Each strategy writes its journal onto the record as the reasoning
    trace only if the journal is not empty.  With a capacity of at least
    one the record's reasoning trace becomes the summary's trace, which
    begins with the run's start entry; with a capacity of zero or less
    nothing is recorded, [total_entries] is 0 and the record keeps whatever
    reasoning trace it had before, while the decision is still written. *)
Theorem reasoning_trace_written_when_nonempty (rb : RuleBase) (cr : ConflictResolver)
    (tl0 : TraceLogger) (bc0 : BackwardChaining) (a : Applicant) :
  let fc := fc_infer rb cr tl0 a in
  let bc := bc_infer rb cr bc0 a in
  (1 <= max_depth tl0 ->
   reasoning_trace (snd fc) = summary_trace (snd (fst (fst fc))) /\
   head (reasoning_trace (snd fc)) =
     Some (mkEntry "SYSTEM"
             ("Starting Forward Chaining for applicant " +:+ applicant_id a) None)) /\
  (max_depth tl0 <= 0 ->
   total_entries (snd (fst (fst fc))) = 0%nat /\
   reasoning_trace (snd fc) = reasoning_trace a /\
   decision (snd fc) = Some (fst (fst (fst fc)))) /\
  (1 <= max_depth (bc_logger bc0) ->
   reasoning_trace (snd bc) = summary_trace (snd (fst (fst bc))) /\
   head (reasoning_trace (snd bc)) =
     Some (mkEntry "SYSTEM"
             ("Starting Backward Chaining for applicant " +:+ applicant_id a) None)) /\
  (max_depth (bc_logger bc0) <= 0 ->
   total_entries (snd (fst (fst bc))) = 0%nat /\
   reasoning_trace (snd bc) = reasoning_trace a /\
   decision (snd bc) = Some (fst (fst (fst bc)))).
Proof.
  cbv zeta.
  destruct (fc_infer_logged rb cr tl0 a) as [Hflog Hfsum].
  destruct (bc_infer_logged rb cr bc0 a) as [Hblog Hbsum].
  rewrite Hfsum, Hbsum, fc_infer_reasoning, bc_infer_reasoning.
  cbn [get_summary summary_trace total_entries].
  split; [| split; [| split]].
  - intros Hn. destruct (run_with_capacity _ _ _ _ Hn Hflog) as [rest ->]. done.
  - intros Hn. rewrite (run_without_capacity _ _ _ _ Hn Hflog).
    split; [done |]. split; [done |]. apply fc_infer_writes.
  - intros Hn. destruct (run_with_capacity _ _ _ _ Hn Hblog) as [rest ->]. done.
  - intros Hn. rewrite (run_without_capacity _ _ _ _ Hn Hblog).
    split; [done |]. split; [done |]. apply bc_infer_writes.
Qed.

(** ** Priority scores, and rules added or removed through the engine *)

(** X26.  The numeric score a rule reports for itself is the level the
    conflict resolver uses for it: 3, 2 or 1 for High, Medium and Low, and 0
    for any other priority name; it is the leading component of the
    resolver's priority key. *)
Theorem priority_score_matches_resolver (r : Rule) (s : option string) :
  get_priority_score r = dict_get0 (priority_levels (new_resolver s)) (priority r) /\
  fst (fst (priority_key (new_resolver s) r)) = get_priority_score r /\
  0 <= get_priority_score r <= 3 /\
  (get_priority_score r = 0 <->
   priority r <> "High" /\ priority r <> "Medium" /\ priority r <> "Low").
Proof.
  assert (get_priority_score r = dict_get0 PRIORITY_LEVELS (priority r)) as H by done.
  split; [done |]. split; [done |]. rewrite H, priority_level_values.
  destruct (String.eqb_spec (priority r) "High") as [-> | H1];
    [split; [lia |]; split; [lia | intros (? & _); done] |].
  destruct (String.eqb_spec (priority r) "Medium") as [-> | H2];
    [split; [lia |]; split; [lia | intros (_ & ? & _); done] |].
  destruct (String.eqb_spec (priority r) "Low") as [-> | H3];
    [split; [lia |]; split; [lia | intros (_ & _ & ?); done] |].
  split; [lia |]. done.
Qed.

(** X27.  Adding a rule through the engine makes it one more candidate and
    nothing else: the rules that hold are those that held before, followed
    by the new rule if it holds, and a goal is provable if it was before or
    if the new rule concludes it and holds.  Removing an identifier takes
    exactly the rules with that identifier out of the rules that hold and
    can only make goals unprovable, never provable. *)
Theorem rule_changes_and_derivations (eng : RuleEngine) (rule : Rule) (rid g : string)
    (a : Applicant) :
  satisfied_rules (rule_base (engine_add_rule eng rule)) a =
    satisfied_rules (rule_base eng) a ++ (if evaluate rule a then [rule] else []) /\
  provable (rule_base (engine_add_rule eng rule)) a g =
    provable (rule_base eng) a g || (String.eqb (consequent rule) g && evaluate rule a) /\
  satisfied_rules (rule_base (engine_remove_rule eng rid)) a =
    List.filter (fun r => negb (String.eqb (rule_id r) rid))
                (satisfied_rules (rule_base eng) a) /\
  (provable (rule_base (engine_remove_rule eng rid)) a g = true ->
   provable (rule_base eng) a g = true).
Proof.
  unfold engine_add_rule, engine_remove_rule. cbn [rule_base].
  split; [| split; [| split]].
  - unfold satisfied_rules, add_rule. cbn [rules]. rewrite List.filter_app. done.
  - unfold provable, get_rules_by_consequent, add_rule. cbn [rules].
    rewrite List.filter_app, existsb_app. f_equal. cbn [List.filter].
    destruct (String.eqb (consequent rule) g); cbn; [by rewrite orb_false_r | done].
  - unfold satisfied_rules, remove_rule. cbn [rules]. apply filter_comm.
  - rewrite !provable_iff. intros (r & Hr & Hc & He). exists r.
    split; [| done]. unfold remove_rule in Hr. cbn [rules] in Hr.
    by apply filter_In in Hr as [? _].
Qed.

(** When the rules that hold derive a single decision, and it is one of
    the goals, that goal is the only provable one. *)
Lemma single_derived_is_proved rb a d :
  fc_decision_of rb a = d -> d <> "Manual Review" -> In d goals ->
  bc_decision_of rb a = d.
Proof.
  unfold fc_decision_of, bc_decision_of. intros Hfc Hne Hin.
  destruct (derived_decisions rb a) as [| x [| y more]] eqn:Hd;
    [congruence | subst x | congruence].
  assert (forall g, provable rb a g = true <-> g = d) as Hp.
  { intros g. rewrite <- derived_iff_provable, Hd. cbn. split; [intros [? | []] | left]; done. }
  assert (forall g, provable rb a g = bool_decide (g = d)) as Hb.
  { intros g. destruct (provable rb a g) eqn:E.
    - symmetry. apply bool_decide_eq_true_2. by apply Hp.
    - symmetry. apply bool_decide_eq_false_2. intros Hg. apply Hp in Hg. congruence. }
  unfold goals in *. cbn [List.find]. rewrite !Hb.
  cbn in Hin. destruct Hin as [<- | [<- | [<- | [<- | []]]]]; try done.
Qed.

(** X28.  In an evaluation with both strategies over rules that read only
    data fields: whenever the forward run commits to one of the goal
    decisions other than 'Manual Review', the backward run -- made on the
    record the forward run has written to -- returns the same decision,
    which is then the final decision, with the agreement as the reasoning.
    So on such rule bases the two strategies can only disagree when forward
    chaining says 'Manual Review'. *)
Theorem forward_commitment_is_shared (eng : RuleEngine) (a : Applicant) (d : string) :
  (forall r, In r (rules (rule_base eng)) -> data_only r = true) ->
  chaining_type eng = "both" ->
  fst (fst (fst (fc_infer (rule_base eng) (conflict_resolver eng)
                          (forward_chain eng) a))) = d ->
  d <> "Manual Review" ->
  In d goals ->
  decisions_of (fst (fst (evaluate_applicant eng a))) =
  Ok (Some d, Some d, Some d, Some "Both forward and backward chaining agree").
Proof.
  intros Hdata Hct Hfc Hne Hin.
  rewrite (evaluate_applicant_view (rule_base eng) Hdata eng a eq_refl), Hct.
  rewrite fc_infer_decision_of in Hfc.
  unfold decision_view. cbn [String.eqb Ascii.eqb Bool.eqb].
  rewrite (single_derived_is_proved _ _ d Hfc Hne Hin), Hfc.
  unfold merge_both. by rewrite String.eqb_refl.
Qed.

Lemma forward_commitment_is_shared_witness :
  decisions_of (fst (fst (evaluate_applicant (new_engine "both") A1))) =
  Ok (Some "Approve Loan", Some "Approve Loan", Some "Approve Loan",
      Some "Both forward and backward chaining agree").
Proof.
  apply (forward_commitment_is_shared (new_engine "both") A1 "Approve Loan").
  - exact builtin_data_only.
  - reflexivity.
  - vm_compute. reflexivity.
  - discriminate.
  - cbn. tauto.
Defined.

(** A rule that reads the decision field breaks the agreement: the forward
    run approves, and the backward run, seeing the approval on the record,
    proves the rejection. *)
Example commitment_needs_data_only :
  decisions_of (fst (fst (evaluate_applicant
     (mkEngine "both" (mkRuleBase [R1; R_second_thoughts]) (new_resolver None)
               new_logger new_backward_chaining) A1))) =
  Ok (Some "Approve Loan", Some "Reject Loan", Some "Reject Loan",
      Some "Forward chaining: Approve Loan, Backward chaining: Reject Loan").
Proof. vm_compute. reflexivity. Qed.
